(** * Kinematic-chain calibration (kinova_tracking/kinematic_chain_calibration.py)

    A shallow embedding of the class [KinematicChainCalibration]: its
    constructor, the frame selector, the five penalty functions, the two
    objective functions, the per-frame inverse-kinematics step [step_2] and the
    alternation loop of [solve]; then its two Jacobians, its reports
    ([solution], [pivot], [plot_param_value]) and the function [IK_Kinova] of
    kinova_tracking/IK_Kinova.py.

    Conventions of the embedding.
    - A Python float is a real number of [R]; rounding is not modelled.
    - A Python exception is the [Raise] branch of [result].
    - A one-dimensional numpy array or a Python list of floats is a [list R];
      a two-dimensional array is the list of its rows; the marker series
      [3 x nb_markers x nb_frames] is a list of 3 planes, each the list of the
      markers' rows over the frames.  Arrays are rectangular.
    - The kinematic model (biorbd), the module [jacobians], the optimizers of
      scipy and cyipopt and the generator behind [random.sample] are outside
      the class: they are interfaces ([Class]) the definitions are
      parameterised by. *)

From Stdlib Require Import Reals String List Bool Arith Lia Lra Permutation Sorted Finite.
Import ListNotations.
Local Open Scope string_scope.
Local Open Scope list_scope.
Local Open Scope R_scope.

(** ** Python values and exceptions *)

Inductive exn : Type :=
| ValueError (msg : string)
| RuntimeError (msg : string)
| IndexError
| TypeError
| AttributeError
| UnboundLocalError.

Inductive result (A : Type) : Type :=
| Ok (a : A)
| Raise (e : exn).

Arguments Ok {A} a.
Arguments Raise {A} e.

Definition bind {A B : Type} (c : result A) (k : A -> result B) : result B :=
  match c with
  | Ok a => k a
  | Raise e => Raise e
  end.

Notation "'let*' x ':=' c 'in' k" := (bind c (fun x => k))
  (at level 10, x pattern, c at level 100, k at level 200).

Fixpoint mapM {A B : Type} (f : A -> result B) (l : list A) : result (list B) :=
  match l with
  | [] => Ok []
  | a :: l' =>
      let* b := f a in
      let* bs := mapM f l' in
      Ok (b :: bs)
  end.

(** [for a in l: st = body(a, st)] *)
Fixpoint foldM {A S : Type} (body : A -> S -> result S) (l : list A) (st : S) : result S :=
  match l with
  | [] => Ok st
  | a :: l' =>
      let* st' := body a st in
      foldM body l' st'
  end.

Definition is_ok {A : Type} (c : result A) : bool :=
  match c with Ok _ => true | Raise _ => false end.

(** [l[i]] for [0 <= i] *)
Definition getitem {A : Type} (l : list A) (i : nat) : result A :=
  match nth_error l i with
  | Some a => Ok a
  | None => Raise IndexError
  end.

(** [l[-k]] for [1 <= k] *)
Definition getitem_neg {A : Type} (l : list A) (k : nat) : result A :=
  if (k <=? length l)%nat then getitem l (length l - k) else Raise IndexError.

(** [l[a:b]]: a slice never raises, it is cut at the end of the list. *)
Definition slice {A : Type} (a b : nat) (l : list A) : list A :=
  firstn (b - a) (skipn a l).

(** [name in names] *)
Definition py_in (name : string) (names : list string) : bool :=
  existsb (String.eqb name) names.

(** [i in idxs] on integers *)
Definition nat_in (i : nat) (idxs : list nat) : bool :=
  existsb (Nat.eqb i) idxs.

(** [names.index(name)]: the first position of [name], or [ValueError]. *)
Fixpoint list_index (name : string) (names : list string) : result nat :=
  match names with
  | [] => Raise (ValueError "x not in list")
  | n :: names' =>
      if String.eqb n name then Ok 0%nat
      else let* i := list_index name names' in Ok (S i)
  end.

(** ["Table" in value]: substring test *)
Fixpoint str_contains (sub s : string) : bool :=
  match s with
  | EmptyString => prefix sub EmptyString
  | String _ s' => prefix sub s || str_contains sub s'
  end.

(** [[i for i, value in enumerate(names) if keep(value)]] *)
Fixpoint indices_where (keep : string -> bool) (names : list string) (i : nat) : list nat :=
  match names with
  | [] => []
  | n :: names' =>
      if keep n then i :: indices_where keep names' (S i)
      else indices_where keep names' (S i)
  end.

(** [[w] * n] *)
Definition replicate {A : Type} (n : nat) (w : A) : list A := repeat w n.

(** ** numpy *)

Definition vec : Type := list R.
Definition matrix : Type := list (list R).
Definition array3 : Type := list (list (list R)).

Definition zeros (n : nat) : vec := repeat 0 n.
Definition zeros2 (rows cols : nat) : matrix := repeat (zeros cols) rows.

Definition sum (v : vec) : R := fold_right Rplus 0 v.

(** Element-wise binary operation on one-dimensional arrays, with numpy's
    broadcasting: equal lengths, or one operand of length 1. *)
Definition zip_with (op : R -> R -> R) (a b : vec) : vec :=
  map (fun ab => op (fst ab) (snd ab)) (combine a b).

Definition broadcast2 (op : R -> R -> R) (a b : vec) : result vec :=
  if (length a =? length b)%nat then Ok (zip_with op a b)
  else match a, b with
       | [x], _ => Ok (map (fun y => op x y) b)
       | _, [y] => Ok (map (fun x => op x y) a)
       | _, _ => Raise (ValueError "operands could not be broadcast together")
       end.

Definition np_sub : vec -> vec -> result vec := broadcast2 Rminus.
Definition np_mul : vec -> vec -> result vec := broadcast2 Rmult.

(** [np.linalg.norm(v)] *)
Definition norm (v : vec) : R := sqrt (sum (map (fun x => x ^ 2) v)).

(** [m * w] for a matrix and a scalar *)
Definition mscale (w : R) (m : matrix) : matrix := map (map (fun x => x * w)) m.

(** [m[:, j]] *)
Definition column (m : matrix) (j : nat) : result vec :=
  mapM (fun row => getitem row j) m.

(** [m[idxs, j]] *)
Definition rows_at (m : matrix) (idxs : list nat) (j : nat) : result vec :=
  mapM (fun i => let* row := getitem m i in getitem row j) idxs.

(** [m[:, js]] *)
Definition columns_at (m : matrix) (js : list nat) : result matrix :=
  mapM (fun row => mapM (getitem row) js) m.

Definition set_nth {A : Type} (l : list A) (i : nat) (a : A) : result (list A) :=
  if (i <? length l)%nat then Ok (firstn i l ++ a :: skipn (S i) l) else Raise IndexError.

(** Shapes of the value assigned at an index list: numpy asks for as many
    values as indices, or for a single value that it repeats. *)
Definition values_for (idxs : list nat) (vals : vec) : result vec :=
  if (length vals =? length idxs)%nat then Ok vals
  else match vals with
       | [v] => Ok (repeat v (length idxs))
       | _ => Raise (ValueError "shape mismatch: value array could not be broadcast to indexing result")
       end.

(** [v[idxs] = vals] *)
Definition set_at (v : vec) (idxs : list nat) (vals : vec) : result vec :=
  let* vals' := values_for idxs vals in
  foldM (fun iv acc => set_nth acc (fst iv) (snd iv)) (combine idxs vals') v.

(** [m[idxs, j] = vals] *)
Definition set_rows_at (m : matrix) (idxs : list nat) (j : nat) (vals : vec) : result matrix :=
  let* vals' := values_for idxs vals in
  foldM (fun iv acc =>
           let* row := getitem acc (fst iv) in
           let* row' := set_nth row j (snd iv) in
           set_nth acc (fst iv) row')
        (combine idxs vals') m.

(** [m[idxs, :] = value] for a value of [length vals] rows, row [k] made of
    [n] copies of [vals[k]]: the indices must exist, the rows of the value
    must be as many as the indices or one, its columns as many as those of
    [m] or one. *)
Definition set_rows_broadcast (m : matrix) (idxs : list nat) (vals : vec) (n : nat)
  : result matrix :=
  let* _ := mapM (getitem m) idxs in
  let* vals' := values_for idxs vals in
  if (length (hd [] m) =? n)%nat || (n =? 1)%nat
  then
    foldM (fun iv acc =>
             let* row := getitem acc (fst iv) in
             set_nth acc (fst iv) (repeat (snd iv) (length row)))
          (combine idxs vals') m
  else Raise (ValueError "shape mismatch: value array could not be broadcast to indexing result").

(** [m[idxs, :] = np.array([vals] * n).T]; with [n = 0] the value is the
    empty one-dimensional array, which fits a matrix without columns only. *)
Definition set_rows_const (m : matrix) (idxs : list nat) (vals : vec) (n : nat) : result matrix :=
  if (n =? 0)%nat then
    let* _ := mapM (getitem m) idxs in
    if (length (hd [] m) =? 0)%nat then Ok m
    else Raise (ValueError "shape mismatch: value array could not be broadcast to indexing result")
  else set_rows_broadcast m idxs vals n.

(** [a.shape] of the marker series *)
Definition shape3 (a : array3) : nat * nat * nat :=
  (length a, length (hd [] a), length (hd [] (hd [] a))).

(** [a[:, idxs, f]] *)
Definition markers_at (a : array3) (idxs : list nat) (f : nat) : result matrix :=
  mapM (fun plane => mapM (fun j => let* row := getitem plane j in getitem row f) idxs) a.

(** [a[:, :, f]] *)
Definition frame_at (a : array3) (f : nat) : result matrix :=
  mapM (fun plane => mapM (fun row => getitem row f) plane) a.

(** [a[:, :, frames]] *)
Definition frames_at (a : array3) (frames : list nat) : result array3 :=
  mapM (fun plane => mapM (fun row => mapM (getitem row) frames) plane) a.

(** [a[:, lo:hi, f]] *)
Definition markers_slice_at (a : array3) (lo hi : nat) (f : nat) : result matrix :=
  mapM (fun plane => mapM (fun row => getitem row f) (slice lo hi plane)) a.

(** [a[:, lo:, f]] *)
Definition markers_from_at (a : array3) (lo : nat) (f : nat) : result matrix :=
  mapM (fun plane => mapM (fun row => getitem row f) (skipn lo plane)) a.

(** [np.concatenate(blocks, axis=0)]: the rows of all blocks, which must have
    the same number of columns. *)
Definition concatenate (blocks : list matrix) : result matrix :=
  let rows := concat blocks in
  match rows with
  | [] => Ok []
  | r :: _ =>
      if forallb (fun r' => (length r' =? length r)%nat) rows then Ok rows
      else Raise (ValueError "all the input array dimensions except for the concatenation axis must match exactly")
  end.

(** [m.sum(axis=0).tolist()]: the sums of the columns *)
Definition column_sums (m : matrix) : vec :=
  map (fun j => sum (map (fun row => nth j row 0) m)) (seq 0 (length (hd [] m))).

(** [np.sum(m, axis=1)]: the sums of the rows *)
Definition row_sums (m : matrix) : vec := map sum m.

(** A [None] where an array is expected *)
Definition as_array {A : Type} (c : result (option A)) : result A :=
  let* o := c in
  match o with
  | Some a => Ok a
  | None => Raise TypeError
  end.

(** ** The collaborators of the class *)

(** [biorbd.Model], as far as the class reads it.  [utils.get_range_q] is the
    pair (minima, maxima) of the ranges of the generalized coordinates. *)
Class Biorbd : Type := {
  nbQ : nat;
  nbMarkers : nat;
  nameDof : list string;
  markerNames : list string;
  (** [biorbd_model.markers(Q)], each marker by its [to_array()] *)
  biorbd_markers : vec -> list (R * R * R);
  (** [biorbd_model.globalJCS(Q, biorbd_model.nbSegment() - 1).rot().to_array()[i, j]] *)
  globalJCS_rot : vec -> nat -> nat -> R;
  get_range_q : vec * vec
}.

(** The module [jacobians], at the model of the object. *)
Class Jacobians : Type := {
  marker_jacobian_table : vec -> list nat -> list nat -> matrix;
  marker_jacobian_model : vec -> list nat -> list nat -> matrix;
  rotation_matrix_jacobian : vec -> option nat -> list nat -> matrix;
  jacobian_q_continuity : vec -> list nat -> matrix;
  marker_jacobian_theta : vec -> list nat -> matrix
}.

(** What an optimizer returns: [.x], [.jac] and the flag [success]. *)
Record OptimizeResult : Type := {
  opt_x : vec;
  opt_jac : matrix;
  opt_success : bool
}.

(** An equality constraint handed to ipopt: [{"fun": .., "jac": .., "type": "eq"}] *)
Record Constraint : Type := {
  constraint_fun : vec -> result R;
  constraint_jac : vec -> result vec
}.

(** [scipy.optimize.least_squares], [scipy.optimize.minimize] and
    [cyipopt.minimize_ipopt]; an optimizer may itself raise. *)
Class Optimizers : Type := {
  (** [least_squares(fun, x0, bounds, jac)]; [jac = None] stands for ["3-point"] *)
  least_squares :
    (vec -> result vec) -> vec -> vec * vec -> option (vec -> result matrix) -> result OptimizeResult;
  (** [minimize(fun, x0, bounds, method="trust-constr", jac="3-point")] *)
  minimize : (vec -> result R) -> vec -> list (R * R) -> result OptimizeResult;
  (** [minimize_ipopt(fun, x0, bounds, constraints)] *)
  minimize_ipopt :
    (vec -> result R) -> vec -> list vec -> list Constraint -> result OptimizeResult
}.

(** The generator behind [random.sample]: [sample g n k] is
    [random.sample(range(n), k)] in the state [g], with the next state. *)
Class Random : Type := {
  rng : Type;
  sample : rng -> nat -> nat -> result (list nat) * rng
}.

(** ** The object *)

Record KinematicChainCalibration : Type := {
  model_dofs : list string;
  nb_markers : nat;
  nb_frames : nat;
  markers_model : list string;
  markers : array3;
  closed_loop_markers : list string;
  tracked_markers : list string;
  parameter_dofs : list string;
  kinematic_dofs : list string;
  table_markers_idx : list nat;
  model_markers_idx : list nat;
  nb_markers_table : nat;
  nb_markers_model : nat;
  q_parameter_index : list nat;
  q_kinematic_index : list nat;
  nb_parameters_dofs : nat;
  nb_kinematic_dofs : nat;
  param_solver : string;
  ik_solver : string;
  q_ik_initial_guess : matrix;
  nb_frames_ik_step : nat;
  nb_frames_param_step : nat;
  randomize_param_step_frames : bool;
  use_analytical_jacobians : bool;
  list_frames_param_step : list nat;
  weights_param : vec;
  weights_ik : vec;
  weight_list_param : vec;
  weight_list_ik : vec;
  q : matrix;
  segment_id_with_vertical_z : option nat
}.

(** ** frame_selector *)

(** [list.sort()] on integers *)
Fixpoint insert_sorted (i : nat) (l : list nat) : list nat :=
  match l with
  | [] => [i]
  | j :: l' => if (i <=? j)%nat then i :: l else j :: insert_sorted i l'
  end.

Fixpoint sort (l : list nat) : list nat :=
  match l with
  | [] => []
  | i :: l' => insert_sorted i (sort l')
  end.

Definition frame_selector `{Random} (self_randomize_param_step_frames : bool)
    (g : rng) (frames_needed frames : nat) : result (list nat) * rng :=
  let '(drawn, g') := sample g frames frames_needed in
  (let* list_frames := drawn in Ok (sort list_frames), g').

(** ** The penalty functions *)

Section Penalties.

Context `{Biorbd}.
Variable self : KinematicChainCalibration.

Definition penalty_table_markers (vect_pos_markers : vec) (table_markers : matrix)
  : result (vec * vec) :=
  let* i0 := getitem (table_markers_idx self) 0 in
  let table5_xyz := slice (i0 * 3) (i0 * 3 + 3) vect_pos_markers in
  let* table_xp := column table_markers 0 in
  let* i1 := getitem (table_markers_idx self) 1 in
  let table6_xy := firstn 2 (slice (i1 * 3) (i1 * 3 + 3) vect_pos_markers) in
  let* table_xp6 := column (firstn 2 table_markers) 1 in
  let table := table5_xyz ++ table6_xy in
  Ok (table, table_xp ++ table_xp6).

Definition theta_part1_3_lim : R := 7 * PI / 10.

Definition theta_pivot_penalty (q : vec) : result (vec * vec) :=
  let* q2 := getitem_neg q 2 in
  let* q1 := getitem_neg q 1 in
  let theta_part1_3 := q2 + q1 in
  if Rgt_dec theta_part1_3 theta_part1_3_lim
  then Ok ([theta_part1_3], [theta_part1_3_lim])
  else
    let theta_cost := 0 in
    Ok ([theta_cost], [theta_cost]).

Definition penalty_open_loop_markers (model_markers_values : vec) (open_loop_markers : matrix)
  : result (vec * vec) :=
  foldM (fun name acc =>
           let* t0 := getitem (table_markers_idx self) 0 in
           let* name0 := getitem (markers_model self) t0 in
           if String.eqb name name0 then Ok acc
           else
             let* t1 := getitem (table_markers_idx self) 1 in
             let* name1 := getitem (markers_model self) t1 in
             if String.eqb name name1 then Ok acc
             else
               let* k := list_index name (markers_model self) in
               let mark := slice (k * 3) (k * 3 + 3) model_markers_values in
               let* open_loop := column open_loop_markers k in
               Ok (fst acc ++ mark, snd acc ++ open_loop))
        (markers_model self) ([], []).

Definition penalty_rotation_matrix (x_with_p : vec) : vec * vec :=
  let rotation_matrix := globalJCS_rot x_with_p in
  let rot_matrix_list_model :=
    [ rotation_matrix 2%nat 0%nat;
      rotation_matrix 2%nat 1%nat;
      rotation_matrix 0%nat 2%nat;
      rotation_matrix 1%nat 2%nat;
      rotation_matrix 2%nat 2%nat - 1 ] in
  let rot_matrix_list_xp := replicate (length rot_matrix_list_model) 0 in
  (rot_matrix_list_model, rot_matrix_list_xp).

Definition penalty_q_open_loop (x q_init : vec) : result (vec * vec) :=
  foldM (fun iv acc =>
           let* target := getitem q_init (fst iv) in
           Ok (fst acc ++ [snd iv], snd acc ++ [target]))
        (combine (seq 0 (length x)) x) ([], []).

(** [vect_pos_markers]: the model's markers, three coordinates each *)
Definition flatten_markers (ms : list (R * R * R)) : vec :=
  flat_map (fun m => [fst (fst m); snd (fst m); snd m]) ms.

End Penalties.

(** ** The inverse-kinematics objective and its Jacobian *)

Definition to_array (m : R * R * R) : vec := [fst (fst m); snd (fst m); snd m].

(** The Jacobian a frame hands back: the matrix of [least_squares], or the
    list [ik_gradient] returns. *)
Inductive jacobian_used : Type :=
| JacMatrix (m : matrix)
| JacGradient (g : vec).

(** The locals of the frame loop of [step_2] that outlive an iteration;
    [None] is a name not yet bound. *)
Record step_2_locals : Type := {
  loc_q_output : matrix;
  loc_espilon_markers : option R;
  loc_jacobian : option jacobian_used
}.

Section InverseKinematics.

Context `{Biorbd} `{Jacobians} `{Optimizers}.
Variable self : KinematicChainCalibration.

(** [new_x]: the kinematic coordinates [x] and the parameters [p] put at their
    places, or [x] itself when [p is None]. *)
Definition full_pose (x : vec) (p : option vec) : result vec :=
  match p with
  | Some p' =>
      let* new_x := set_at (zeros nbQ) (q_kinematic_index self) x in
      set_at new_x (q_parameter_index self) p'
  | None => Ok x
  end.

Definition objective_ik_list (x : vec) (p : option vec) (table_markers thorax_markers : matrix)
    (q_init : vec) : result (option vec) :=
  let* new_x := full_pose x p in
  let markers_model := biorbd_markers new_x in
  let vect_pos_markers := flatten_markers markers_model in
  let* table := penalty_table_markers self vect_pos_markers table_markers in
  let* thorax := penalty_open_loop_markers self vect_pos_markers thorax_markers in
  let rot := penalty_rotation_matrix new_x in
  let* q_continuity := penalty_q_open_loop x q_init in
  let* pivot := theta_pivot_penalty new_x in
  let diff_model := fst table ++ fst thorax ++ fst q_continuity ++ fst pivot ++ fst rot in
  let diff_xp := snd table ++ snd thorax ++ snd q_continuity ++ snd pivot ++ snd rot in
  let* diff := np_sub diff_model diff_xp in
  if String.eqb (ik_solver self) "leastsquare" then
    let* r := np_mul diff (weight_list_param self) in Ok (Some r)
  else if String.eqb (ik_solver self) "ipopt" then
    let* r := np_mul diff (weight_list_ik self) in Ok (Some r)
  else Ok None.

Definition objective_ik_scalar (x : vec) (p : option vec) (table_markers thorax_markers : matrix)
    (q_init : vec) : result R :=
  let* objective_ik_list := as_array (objective_ik_list x p table_markers thorax_markers q_init) in
  Ok (0.5 * sum (map (fun r => r ^ 2) objective_ik_list)).

Definition ik_jacobian (x : vec) (weights : vec) : result matrix :=
  let table := marker_jacobian_table x (table_markers_idx self) (q_parameter_index self) in
  let model := marker_jacobian_model x (model_markers_idx self) (q_parameter_index self) in
  let rotation :=
    rotation_matrix_jacobian x (segment_id_with_vertical_z self) (q_parameter_index self) in
  let continuity := jacobian_q_continuity x (q_parameter_index self) in
  let pivot := marker_jacobian_theta x (q_parameter_index self) in
  let* w0 := getitem weights 0 in
  let* w1 := getitem weights 1 in
  let* w3 := getitem weights 3 in
  let* w2 := getitem weights 2 in
  let* w4 := getitem weights 4 in
  concatenate
    [ mscale w0 table;
      mscale w1 model;
      mscale w3 continuity;
      mscale w2 pivot;
      mscale w4 rotation ].

(** The double loop of [ik_gradient] evaluates a product and drops it; what is
    left of it is the exception an evaluation may raise. *)
Definition ik_gradient (x : vec) (p : option vec) (table_markers thorax_markers : matrix)
    (q_init : vec) (weights : vec) : result vec :=
  let* jac := ik_jacobian x weights in
  let shape := (length jac, length (hd [] jac)) in
  let* _ :=
    foldM (fun (k : nat) (u : unit) =>
             foldM (fun (i : nat) (u' : unit) =>
                      let* row := getitem jac i in
                      let* _ := getitem row k in
                      let* r := as_array (objective_ik_list x p table_markers thorax_markers q_init) in
                      let* _ := getitem r i in
                      Ok tt)
                   (seq 0 (fst shape)) u)
          (seq 0 (snd shape)) tt in
  Ok (column_sums jac).

(** The five equality constraints of [build_constraint], on the first five
    components of the residual: the closed-loop block. *)
Definition build_constraint (f : nat) (q_init : vec) (p : option vec) : list Constraint :=
  let index_table_markers := table_markers_idx self in
  let index_wu_markers := model_markers_idx self in
  map (fun i =>
         {| constraint_fun := fun x =>
              let* table_markers := markers_at (markers self) index_table_markers f in
              let* thorax_markers := markers_at (markers self) index_wu_markers f in
              let* r := as_array (objective_ik_list x p table_markers thorax_markers q_init) in
              getitem r i;
            constraint_jac := fun x =>
              let* row :=
                getitem (marker_jacobian_table x (table_markers_idx self) (q_parameter_index self)) i in
              let* w := getitem (weights_ik self) 0 in
              Ok (map (fun v => v * w) row) |})
      [0; 1; 2; 3; 4]%nat.

(** ** step_2 *)

(** The lines of the [leastsquare] branch after the call of the optimizer. *)
Definition accept_least_squares (q_output : matrix) (f : nat) (IK_i : OptimizeResult)
  : result (matrix * jacobian_used) :=
  let* q_output' := set_rows_at q_output (q_kinematic_index self) f (opt_x IK_i) in
  let jacobian := JacMatrix (opt_jac IK_i) in
  Ok (q_output', jacobian).

(** The lines of the [ipopt] branch after the call of the optimizer. *)
Definition accept_ipopt (q_output : matrix) (f : nat) (p : option vec)
    (index_table_markers index_wu_markers : list nat) (x0 : vec) (ipopt_i : OptimizeResult)
  : result (matrix * jacobian_used) :=
  let* q_output' := set_rows_at q_output (q_kinematic_index self) f (opt_x ipopt_i) in
  let* table_markers := markers_at (markers self) index_table_markers f in
  let* thorax_markers := markers_at (markers self) index_wu_markers f in
  let* jacobian :=
    ik_gradient (opt_x ipopt_i) p table_markers thorax_markers x0 (weights_ik self) in
  if Bool.eqb (opt_success ipopt_i) false
  then Raise (RuntimeError "This optimization failed")
  else Ok (q_output', JacGradient jacobian).

(** The sum of the squared norms of the differences, over the markers before
    the first table marker. *)
Definition espilon_of_frame (q_output : matrix) (index_table_markers : list nat) (f : nat)
  : result R :=
  let* q_f := column q_output f in
  let markers_model := biorbd_markers q_f in
  let* markers_to_compare := frame_at (markers self) f in
  let espilon_markers := 0 in
  let* first_table := getitem index_table_markers 0 in
  foldM (fun j espilon_markers =>
           let* model_j := getitem markers_model j in
           let* xp_j := column markers_to_compare j in
           let* d := np_sub (to_array model_j) xp_j in
           let mark := norm d ^ 2 in
           Ok (espilon_markers + mark))
        (seq 0 first_table) espilon_markers.

(** The call [optimize.least_squares(...)] of frame [f]. *)
Definition call_least_squares (p : option vec) (bounds_without_p : vec * vec)
    (index_table_markers index_wu_markers : list nat) (f : nat) (x0 : vec)
  : result OptimizeResult :=
  let jac :=
    if use_analytical_jacobians self
    then Some (fun x => ik_jacobian x (weights_param self))
    else None in
  let* table_markers := markers_at (markers self) index_table_markers f in
  let* thorax_markers := markers_at (markers self) index_wu_markers f in
  least_squares
    (fun x => as_array (objective_ik_list x p table_markers thorax_markers x0))
    x0 bounds_without_p jac.

(** The call [minimize_ipopt(...)] of frame [f]. *)
Definition call_minimize_ipopt (p : option vec) (bounds_without_p : vec * vec)
    (index_table_markers index_wu_markers : list nat) (f : nat) (x0 : vec)
  : result OptimizeResult :=
  let obj_fun := fun x =>
    let* table_markers := markers_at (markers self) index_table_markers f in
    let* thorax_markers := markers_at (markers self) index_wu_markers f in
    objective_ik_scalar x p table_markers thorax_markers x0 in
  let constraint := build_constraint f x0 p in
  let bounds_without_p_list := [fst bounds_without_p; snd bounds_without_p] in
  minimize_ipopt obj_fun x0 bounds_without_p_list constraint.

(** The warm start of frame [f]. *)
Definition warm_start (q_output : matrix) (f : nat) : result vec :=
  if (f =? 0)%nat then rows_at (q_ik_initial_guess self) (q_kinematic_index self) 0
  else rows_at q_output (q_kinematic_index self) (f - 1).

(** One iteration of [for f in range(self.nb_frames_ik_step)]. *)
Definition step_2_frame (p : option vec) (bounds_without_p : vec * vec)
    (index_table_markers index_wu_markers : list nat) (f : nat) (st : step_2_locals)
  : result step_2_locals :=
  let q_output := loc_q_output st in
  let* x0 := warm_start q_output f in
  let* solved :=
    if String.eqb (ik_solver self) "leastsquare" then
      let* IK_i :=
        call_least_squares p bounds_without_p index_table_markers index_wu_markers f x0 in
      accept_least_squares q_output f IK_i
    else if String.eqb (ik_solver self) "ipopt" then
      let* ipopt_i :=
        call_minimize_ipopt p bounds_without_p index_table_markers index_wu_markers f x0 in
      accept_ipopt q_output f p index_table_markers index_wu_markers x0 ipopt_i
    else
      Raise (ValueError "This solver is not implemented, please use 'ipopt' or 'leastsquare'.") in
  let* espilon_markers := espilon_of_frame (fst solved) index_table_markers f in
  Ok {| loc_q_output := fst solved;
        loc_espilon_markers := Some espilon_markers;
        loc_jacobian := Some (snd solved) |}.

(** [step_2(p, bounds, q_output)]: the pose matrix, the residual and the
    Jacobian; the time measure is left out.  With no frame, the names read
    after the loop are unbound.  [self.q_ik_initial_guess] is the value of that
    array when the step is called: it is read at frame 0 only, before the
    first assignment to [q_output]. *)
Definition step_2 (p : option vec) (bounds : vec * vec) (q_output : matrix)
  : result (matrix * R * jacobian_used) :=
  let index_table_markers := indices_where (str_contains "Table") (markers_model self) 0 in
  let index_wu_markers :=
    indices_where (fun value => negb (str_contains "Table" value)) (markers_model self) 0 in
  let* bounds_without_p_min := mapM (getitem (fst bounds)) (q_kinematic_index self) in
  let* bounds_without_p_max := mapM (getitem (snd bounds)) (q_kinematic_index self) in
  let bounds_without_p := (bounds_without_p_min, bounds_without_p_max) in
  let* st :=
    foldM (step_2_frame p bounds_without_p index_table_markers index_wu_markers)
          (seq 0 (nb_frames_ik_step self))
          {| loc_q_output := q_output; loc_espilon_markers := None; loc_jacobian := None |} in
  match loc_espilon_markers st, loc_jacobian st with
  | Some espilon_markers, Some jacobian => Ok (loc_q_output st, espilon_markers, jacobian)
  | _, _ => Raise UnboundLocalError
  end.

End InverseKinematics.

(** ** The parameter-identification objective *)

(** What the name [x0] of [objective_function_param] refers to: the array the
    caller supplied, or, after [x0 = Q], the array [Q] itself, which the next
    iteration updates in place. *)
Inductive x0_binding : Type :=
| Supplied (x0 : vec)
| SameArrayAsQ.

(** The locals of the frame loop of [objective_function_param]; [None] is a
    name not yet bound. *)
Record param_locals : Type := {
  loc_Q : vec;
  loc_x0 : x0_binding;
  table5_xyz_all_frames : R;
  table6_xy_all_frames : R;
  mark_out_all_frames : R;
  rotation_matrix_all_frames : R;
  loc_q_continuity : option R;
  loc_pivot : option R
}.

Section ParameterObjective.

Context `{Biorbd}.
Variable self : KinematicChainCalibration.

Definition read_x0 (st : param_locals) : vec :=
  match loc_x0 st with
  | Supplied x0 => x0
  | SameArrayAsQ => loc_Q st
  end.

(** One iteration of [for f, frame in enumerate(self.list_frames_param_step)]. *)
Definition param_frame (x : matrix) (markers_calibration : array3) (index_wu_markers : list nat)
    (f : nat) (st : param_locals) : result param_locals :=
  let* wu_first := getitem index_wu_markers 0 in
  let* wu_last := getitem_neg index_wu_markers 1 in
  let* thorax_markers := markers_slice_at markers_calibration wu_first (wu_last + 1) f in
  let* table_markers := markers_from_at markers_calibration (wu_last + 1) f in
  let* x_f := rows_at x (q_kinematic_index self) f in
  let* Q := set_at (loc_Q st) (q_kinematic_index self) x_f in
  let st := {| loc_Q := Q; loc_x0 := loc_x0 st;
               table5_xyz_all_frames := table5_xyz_all_frames st;
               table6_xy_all_frames := table6_xy_all_frames st;
               mark_out_all_frames := mark_out_all_frames st;
               rotation_matrix_all_frames := rotation_matrix_all_frames st;
               loc_q_continuity := loc_q_continuity st;
               loc_pivot := loc_pivot st |} in
  let markers_model := biorbd_markers Q in
  let vect_pos_markers := flatten_markers markers_model in
  let* table := penalty_table_markers self vect_pos_markers table_markers in
  let* d5 := np_sub (firstn 3 (fst table)) (firstn 3 (snd table)) in
  let table5_xyz := norm d5 ^ 2 in
  let* d6 := np_sub (skipn 3 (fst table)) (skipn 3 (snd table)) in
  let table6_xy := norm d6 ^ 2 in
  let* thorax := penalty_open_loop_markers self vect_pos_markers thorax_markers in
  let* thorax_row0 := getitem thorax_markers 0 in
  let* mark_out :=
    foldM (fun j mark_out =>
             let* d := np_sub (slice j (j + 3) (fst thorax)) (slice j (j + 3) (snd thorax)) in
             let mark := norm d ^ 2 in
             Ok (mark_out + mark))
          (seq 0 (length thorax_row0)) 0 in
  let rot_matrix_list_model := fst (penalty_rotation_matrix Q) in
  let rotation_matrix := fold_left (fun acc i => acc + i ^ 2) rot_matrix_list_model 0 in
  let* q_continuity_diff := penalty_q_open_loop Q (read_x0 st) in
  let* dq := np_sub (fst q_continuity_diff) (snd q_continuity_diff) in
  let q_continuity := sum (map (fun d => d ^ 2) dq) in
  let* pivot_diff := theta_pivot_penalty Q in
  let* pivot_model0 := getitem (fst pivot_diff) 0 in
  let* pivot_xp0 := getitem (snd pivot_diff) 0 in
  let pivot := (pivot_model0 - pivot_xp0) ^ 2 in
  Ok {| loc_Q := Q;
        loc_x0 := SameArrayAsQ;
        table5_xyz_all_frames := table5_xyz_all_frames st + table5_xyz;
        table6_xy_all_frames := table6_xy_all_frames st + table6_xy;
        mark_out_all_frames := mark_out_all_frames st + mark_out;
        rotation_matrix_all_frames := rotation_matrix_all_frames st + rotation_matrix;
        loc_q_continuity := Some q_continuity;
        loc_pivot := Some pivot |}.

Definition objective_function_param (p0 : vec) (x : matrix) (x0 : vec)
    (markers_calibration : array3) (weight : vec) : result R :=
  let index_wu_markers :=
    indices_where (fun value => negb (str_contains "Table" value)) (markers_model self) 0 in
  let Q := zeros (length x) in
  let* Q := set_at Q (q_parameter_index self) p0 in
  let* st :=
    foldM (param_frame x markers_calibration index_wu_markers)
          (seq 0 (length (list_frames_param_step self)))
          {| loc_Q := Q; loc_x0 := Supplied x0;
             table5_xyz_all_frames := 0; table6_xy_all_frames := 0;
             mark_out_all_frames := 0; rotation_matrix_all_frames := 0;
             loc_q_continuity := None; loc_pivot := None |} in
  let* w0 := getitem weight 0 in
  let* w1 := getitem weight 1 in
  let* w2 := getitem weight 2 in
  let* pivot := match loc_pivot st with Some v => Ok v | None => Raise UnboundLocalError end in
  let* w3 := getitem weight 3 in
  let* q_continuity :=
    match loc_q_continuity st with Some v => Ok v | None => Raise UnboundLocalError end in
  let* w4 := getitem weight 4 in
  Ok (w0 * (table5_xyz_all_frames st + table6_xy_all_frames st)
      + w1 * mark_out_all_frames st
      + w2 * pivot
      + w3 * q_continuity
      + w4 * rotation_matrix_all_frames st).

End ParameterObjective.

(** ** The constructor *)

(** The arguments of [__init__]; an integer whose default is [None] is an
    option. *)
Record init_arguments : Type := {
  arg_markers_model : list string;
  arg_markers : array3;
  arg_closed_loop_markers : list string;
  arg_tracked_markers : list string;
  arg_parameter_dofs : list string;
  arg_kinematic_dofs : list string;
  arg_weights_param : vec;
  arg_weights_ik : vec;
  arg_q_ik_initial_guess : matrix;
  arg_nb_frames_ik_step : option nat;
  arg_nb_frames_param_step : option nat;
  arg_randomize_param_step_frames : bool;
  arg_use_analytical_jacobians : bool;
  arg_segment_id_with_vertical_z : option nat;
  arg_param_solver : string;
  arg_ik_solver : string
}.

Definition shape_eqb (s : nat * nat * nat) (a b : nat) (c : option nat) : bool :=
  match c with
  | Some c' =>
      (fst (fst s) =? a)%nat && (snd (fst s) =? b)%nat && (snd s =? c')%nat
  | None => false
  end.

Section Constructor.

Context `{Biorbd} `{Random}.

(** The check of the marker names: the loop over [markers_model] raises at the
    first name the model does not have, and binds [self.markers_model] at every
    other name; with no name at all the attribute stays unbound. *)
Definition check_markers_model (markers_model : list string) : result (option (list string)) :=
  foldM (fun marker (self_markers_model : option (list string)) =>
           if negb (py_in marker markerNames)
           then Raise (ValueError
                         (String.append "The following marker is not in markers_model:" marker))
           else Ok (Some markers_model))
        markers_model None.

(** The constructor up to the call of [frame_selector]. *)
Definition init_indices (a : init_arguments)
  : result (list string * nat * (list nat * list nat) * (list nat * list nat)) :=
  let* self_markers_model := check_markers_model (arg_markers_model a) in
  let* nb_frames_ik_step :=
    if shape_eqb (shape3 (arg_markers a)) 3 (length (arg_markers_model a)) (arg_nb_frames_ik_step a)
    then match arg_nb_frames_ik_step a with
         | Some n => Ok n
         | None => Raise TypeError
         end
    else Raise TypeError in
  let* markers_model :=
    match self_markers_model with
    | Some m => Ok m
    | None => Raise AttributeError
    end in
  let* table_markers_idx :=
    mapM (fun i => list_index i markers_model)
         (filter (str_contains "Table") markers_model) in
  let* model_markers_idx :=
    mapM (fun i => list_index i (arg_tracked_markers a)) (arg_tracked_markers a) in
  let* q_parameter_index := mapM (fun dof => list_index dof nameDof) (arg_parameter_dofs a) in
  let* q_kinematic_index := mapM (fun dof => list_index dof nameDof) (arg_kinematic_dofs a) in
  Ok (markers_model, nb_frames_ik_step,
      (table_markers_idx, model_markers_idx), (q_parameter_index, q_kinematic_index)).

(** The weight of each block, repeated over the length the block is given:
    [closed loop, open loop, continuity, pivot, rotation]. *)
Definition init_weight_lists (a : init_arguments) : result (vec * vec) :=
  let nb_closed := (length (arg_closed_loop_markers a) * 3 - 1)%nat in
  let nb_open :=
    (length (filter (fun i => negb (py_in i (arg_closed_loop_markers a))) (arg_tracked_markers a))
     * 3)%nat in
  let nb_continuity := (length (arg_q_ik_initial_guess a) - length (arg_parameter_dofs a))%nat in
  let* wp0 := getitem (arg_weights_param a) 0 in
  let weight_closed_loop_ls := replicate nb_closed wp0 in
  let* wi0 := getitem (arg_weights_ik a) 0 in
  let weight_closed_loop_ipopt := replicate nb_closed wi0 in
  let* wp1 := getitem (arg_weights_param a) 1 in
  let weight_open_loop_ls := replicate nb_open wp1 in
  let* wi1 := getitem (arg_weights_ik a) 1 in
  let weight_open_loop_ipopt := replicate nb_open wi1 in
  let* wp4 := getitem (arg_weights_param a) 4 in
  let weight_rot_matrix_ls := replicate 5 wp4 in
  let* wi4 := getitem (arg_weights_ik a) 4 in
  let weight_rot_matrix_ipopt := replicate 5 wi4 in
  let* wp2 := getitem (arg_weights_param a) 2 in
  let weight_theta_13_ls := [wp2] in
  let* wi2 := getitem (arg_weights_ik a) 2 in
  let weight_theta_13_ipopt := [wi2] in
  let* wp3 := getitem (arg_weights_param a) 3 in
  let weight_continuity_ls := replicate nb_continuity wp3 in
  let* wi3 := getitem (arg_weights_ik a) 3 in
  let weight_continuity_ipopt := replicate nb_continuity wi3 in
  Ok (weight_closed_loop_ls ++ weight_open_loop_ls ++ weight_continuity_ls
        ++ weight_theta_13_ls ++ weight_rot_matrix_ls,
      weight_closed_loop_ipopt ++ weight_open_loop_ipopt ++ weight_continuity_ipopt
        ++ weight_theta_13_ipopt ++ weight_rot_matrix_ipopt).

Definition __init__ (a : init_arguments) (g : rng) : result KinematicChainCalibration * rng :=
  match init_indices a with
  | Raise e => (Raise e, g)
  | Ok (markers_model, nb_frames_ik_step, (table_markers_idx, model_markers_idx),
        (q_parameter_index, q_kinematic_index)) =>
      match arg_nb_frames_param_step a with
      | None => (Raise TypeError, g)
      | Some nb_frames_param_step =>
          let '(selected, g') :=
            frame_selector (arg_randomize_param_step_frames a) g
                           nb_frames_param_step nb_frames_ik_step in
          (let* list_frames_param_step := selected in
           let* weight_lists := init_weight_lists a in
           Ok {| model_dofs := nameDof;
                 nb_markers := nbMarkers;
                 nb_frames := snd (shape3 (arg_markers a));
                 markers_model := markers_model;
                 markers := arg_markers a;
                 closed_loop_markers := arg_closed_loop_markers a;
                 tracked_markers := arg_tracked_markers a;
                 parameter_dofs := arg_parameter_dofs a;
                 kinematic_dofs := arg_kinematic_dofs a;
                 table_markers_idx := table_markers_idx;
                 model_markers_idx := model_markers_idx;
                 nb_markers_table := length table_markers_idx;
                 nb_markers_model := length model_markers_idx;
                 q_parameter_index := q_parameter_index;
                 q_kinematic_index := q_kinematic_index;
                 nb_parameters_dofs := length (arg_parameter_dofs a);
                 nb_kinematic_dofs := length (arg_kinematic_dofs a);
                 param_solver := arg_param_solver a;
                 ik_solver := arg_ik_solver a;
                 q_ik_initial_guess := arg_q_ik_initial_guess a;
                 nb_frames_ik_step := nb_frames_ik_step;
                 nb_frames_param_step := nb_frames_param_step;
                 randomize_param_step_frames := arg_randomize_param_step_frames a;
                 use_analytical_jacobians := arg_use_analytical_jacobians a;
                 list_frames_param_step := list_frames_param_step;
                 weights_param := arg_weights_param a;
                 weights_ik := arg_weights_ik a;
                 weight_list_param := fst weight_lists;
                 weight_list_ik := snd weight_lists;
                 q := zeros2 nbQ nb_frames_ik_step;
                 segment_id_with_vertical_z := arg_segment_id_with_vertical_z a |},
           g')
      end
  end.

End Constructor.

(** ** solve *)

(** [m[idxs, :] = np.repeat(vals[:, np.newaxis], n, axis=1)] *)
Definition set_rows_repeat (m : matrix) (idxs : list nat) (vals : vec) (n : nat) : result matrix :=
  set_rows_broadcast m idxs vals n.

(** [np.where(v == 0)[0]] *)
Fixpoint where_zero (v : vec) (i : nat) : list nat :=
  match v with
  | [] => []
  | r :: v' =>
      if Req_dec_T r 0 then i :: where_zero v' (S i) else where_zero v' (S i)
  end.

(** [[b for i, b in enumerate(bounds) if i in idxs]] *)
Fixpoint enumerate_filter {A : Type} (idxs : list nat) (l : list A) (i : nat) : list A :=
  match l with
  | [] => []
  | b :: l' =>
      if nat_in i idxs then b :: enumerate_filter idxs l' (S i)
      else enumerate_filter idxs l' (S i)
  end.

(** The arrays and locals of [solve].  Three arrays are live: the array
    [self.q_ik_initial_guess] names at entry ([arr_initial_guess]; [q0] is the
    view of its column 0), the array of the first IK step ([loc_q_step_2]) and
    the array of the loop ([arr_q_output]), which [q_out] and, from the end of
    the first iteration on, [self.q_ik_initial_guess] name too. *)
Record solve_locals : Type := {
  arr_initial_guess : matrix;
  guess_is_q_output : bool;
  loc_q_step_2 : matrix;
  arr_q_output : matrix;
  loc_p : vec;
  iteration : nat;
  epsilon_markers_n : R;
  epsilon_markers_n_minus_1 : R;
  delta_epsilon_markers : R;
  jacobians_used : list jacobian_used
}.

(** How a run of the loop ends. *)
Inductive outcome (A : Type) : Type :=
| Returned (a : A)
| Raised (e : exn)
| StillRunning.

Arguments Returned {A} a.
Arguments Raised {A} e.
Arguments StillRunning {A}.

Section Solve.

Context `{Biorbd} `{Jacobians} `{Optimizers}.
Variable self : KinematicChainCalibration.

(** The object as a method sees it when [self.q_ik_initial_guess] names the
    array [guess]. *)
Definition with_initial_guess (guess : matrix) : KinematicChainCalibration :=
  {| model_dofs := model_dofs self;
     nb_markers := nb_markers self;
     nb_frames := nb_frames self;
     markers_model := markers_model self;
     markers := markers self;
     closed_loop_markers := closed_loop_markers self;
     tracked_markers := tracked_markers self;
     parameter_dofs := parameter_dofs self;
     kinematic_dofs := kinematic_dofs self;
     table_markers_idx := table_markers_idx self;
     model_markers_idx := model_markers_idx self;
     nb_markers_table := nb_markers_table self;
     nb_markers_model := nb_markers_model self;
     q_parameter_index := q_parameter_index self;
     q_kinematic_index := q_kinematic_index self;
     nb_parameters_dofs := nb_parameters_dofs self;
     nb_kinematic_dofs := nb_kinematic_dofs self;
     param_solver := param_solver self;
     ik_solver := ik_solver self;
     q_ik_initial_guess := guess;
     nb_frames_ik_step := nb_frames_ik_step self;
     nb_frames_param_step := nb_frames_param_step self;
     randomize_param_step_frames := randomize_param_step_frames self;
     use_analytical_jacobians := use_analytical_jacobians self;
     list_frames_param_step := list_frames_param_step self;
     weights_param := weights_param self;
     weights_ik := weights_ik self;
     weight_list_param := weight_list_param self;
     weight_list_ik := weight_list_ik self;
     q := q self;
     segment_id_with_vertical_z := segment_id_with_vertical_z self |}.

Definition current_guess (st : solve_locals) : matrix :=
  if guess_is_q_output st then arr_q_output st else arr_initial_guess st.

(** The lines of [solve] before the loop. *)
Definition solve_init : result solve_locals :=
  let q_output := zeros2 nbQ (nb_frames_ik_step self) in
  let bounds := combine (fst get_range_q) (snd get_range_q) in
  let idx_zeros := where_zero (row_sums (q_ik_initial_guess self)) 0 in
  let kinematic_idx_zeros := filter (fun idx => nat_in idx (q_kinematic_index self)) idx_zeros in
  let bounds_kinematic_idx_zeros := enumerate_filter kinematic_idx_zeros bounds 0 in
  let kinova_q0 := map (fun b => (fst b + snd b) / 2) bounds_kinematic_idx_zeros in
  let* guess :=
    set_rows_repeat (q_ik_initial_guess self) kinematic_idx_zeros kinova_q0
                    (nb_frames_ik_step self) in
  let p := zeros (nb_parameters_dofs self) in
  let* first_ik := step_2 (with_initial_guess guess) (Some p) get_range_q q_output in
  let q_step_2 := fst (fst first_ik) in
  let jacobian_ini := snd first_ik in
  let* q0 := column guess 0 in
  let q_output := zeros2 nbQ (snd (shape3 (markers self))) in
  let* bounds_param_min := mapM (fun k => let* b := getitem bounds k in Ok (fst b))
                                (q_parameter_index self) in
  let* bounds_param_max := mapM (fun l => let* b := getitem bounds l in Ok (snd b))
                                (q_parameter_index self) in
  let* p := rows_at q_step_2 (q_parameter_index self) 0 in
  let iteration := 0%nat in
  let epsilon_markers_n := 10 in
  let epsilon_markers_n_minus_1 := 0 in
  let delta_epsilon_markers := epsilon_markers_n - epsilon_markers_n_minus_1 in
  Ok {| arr_initial_guess := guess;
        guess_is_q_output := false;
        loc_q_step_2 := q_step_2;
        arr_q_output := q_output;
        loc_p := p;
        iteration := iteration;
        epsilon_markers_n := epsilon_markers_n;
        epsilon_markers_n_minus_1 := epsilon_markers_n_minus_1;
        delta_epsilon_markers := delta_epsilon_markers;
        jacobians_used := [jacobian_ini] |}.

(** Step 1 of an iteration: the call of the parameter optimizer.  In the
    [ipopt] branch the constraint is built and not handed over; what is left of
    its construction is the index errors of its arguments. *)
Definition param_step (st : solve_locals) (q_first_ik_not_all_frames : matrix) (q0 : vec)
    (markers_xp_data_not_all_frames : array3) : result OptimizeResult :=
  let bounds := combine (fst get_range_q) (snd get_range_q) in
  if String.eqb (param_solver self) "leastsquare" then
    minimize
      (fun p0 => objective_function_param self p0 q_first_ik_not_all_frames q0
                   markers_xp_data_not_all_frames (weights_param self))
      (loc_p st) (slice 10 16 bounds)
  else if String.eqb (param_solver self) "ipopt" then
    let* frame_constraint := getitem (list_frames_param_step self) 0 in
    let* x0 :=
      if (frame_constraint =? 0)%nat
      then rows_at (loc_q_step_2 st) (q_kinematic_index self) 0
      else rows_at (arr_q_output st) (q_kinematic_index self) (frame_constraint - 1) in
    let* q_init :=
      if (frame_constraint =? 0)%nat
      then column (loc_q_step_2 st) 0
      else column (arr_q_output st) (frame_constraint - 1) in
    let* bounds_param_min := mapM (fun k => let* b := getitem bounds k in Ok (fst b))
                                  (q_parameter_index self) in
    let* bounds_param_max := mapM (fun l => let* b := getitem bounds l in Ok (snd b))
                                  (q_parameter_index self) in
    minimize_ipopt
      (fun p0 => objective_function_param self p0 q_first_ik_not_all_frames q0
                   markers_xp_data_not_all_frames (weights_ik self))
      (loc_p st) [bounds_param_min; bounds_param_max] []
  else Raise UnboundLocalError.

(** The body of [while abs(delta_epsilon_markers) > threshold]. *)
Definition solve_body (st : solve_locals) : result solve_locals :=
  let* q_first_ik_not_all_frames := columns_at (loc_q_step_2 st) (list_frames_param_step self) in
  let* markers_xp_data_not_all_frames := frames_at (markers self) (list_frames_param_step self) in
  let epsilon_markers_n_minus_1 := epsilon_markers_n st in
  let* q0 := column (arr_initial_guess st) 0 in
  let* param_opt :=
    param_step st q_first_ik_not_all_frames q0 markers_xp_data_not_all_frames in
  let* written :=
    if guess_is_q_output st then
      let* q_output :=
        set_rows_const (arr_q_output st) (q_parameter_index self) (opt_x param_opt)
                       (nb_frames_ik_step self) in
      Ok (arr_initial_guess st, q_output)
    else
      let* guess :=
        set_rows_const (arr_initial_guess st) (q_parameter_index self) (opt_x param_opt)
                       (nb_frames_ik_step self) in
      Ok (guess, arr_q_output st) in
  let p := opt_x param_opt in
  let* q_output :=
    set_rows_const (snd written) (q_parameter_index self) (opt_x param_opt)
                   (length (hd [] (snd written))) in
  let guess := if guess_is_q_output st then q_output else fst written in
  let* second_ik := step_2 (with_initial_guess guess) (Some p) get_range_q q_output in
  let q_out := fst (fst second_ik) in
  let epsilon_markers_n := snd (fst second_ik) in
  let jacobian_x := snd second_ik in
  let delta_epsilon_markers := epsilon_markers_n - epsilon_markers_n_minus_1 in
  Ok {| arr_initial_guess := fst written;
        guess_is_q_output := true;
        loc_q_step_2 := loc_q_step_2 st;
        arr_q_output := q_out;
        loc_p := p;
        iteration := S (iteration st);
        epsilon_markers_n := epsilon_markers_n;
        epsilon_markers_n_minus_1 := epsilon_markers_n_minus_1;
        delta_epsilon_markers := delta_epsilon_markers;
        jacobians_used := jacobians_used st ++ [jacobian_x] |}.

(** The loop, run for at most [fuel] iterations. *)
Fixpoint solve_loop (threshold : R) (fuel : nat) (st : solve_locals) : outcome solve_locals :=
  if Rgt_dec (Rabs (delta_epsilon_markers st)) threshold then
    match fuel with
    | O => StillRunning
    | S fuel' =>
        match solve_body st with
        | Ok st' => solve_loop threshold fuel' st'
        | Raise e => Raised e
        end
    end
  else Returned st.

(** [solve(threshold)]: [(q_out, p, jacobians_used)]; the list of the time
    measures is left out.  [q_out] is bound by the first iteration only. *)
Definition solve (threshold : R) (fuel : nat) : outcome (matrix * vec * list jacobian_used) :=
  match solve_init with
  | Raise e => Raised e
  | Ok st0 =>
      match solve_loop threshold fuel st0 with
      | Returned st =>
          if (iteration st =? 0)%nat then Raised UnboundLocalError
          else Returned (arr_q_output st, loc_p st, jacobians_used st)
      | Raised e => Raised e
      | StillRunning => StillRunning
      end
  end.

End Solve.

(** ** The Jacobian of the parameter step *)

(** The functions of the module [jacobians] that [ik_parameters_jacobian]
    calls, at the model of the object. *)
Class ParameterJacobians : Type := {
  jacobian_table_parameters : vec -> list nat -> list nat -> matrix;
  markers_jacobian_model_parameters : vec -> list nat -> list nat -> matrix;
  rotation_matrix_parameter_jacobian : vec -> option nat -> list nat -> matrix;
  jacobian_q_continuity_parameters : matrix;
  marker_jacobian_theta_parameters : matrix
}.

Definition ik_parameters_jacobian `{ParameterJacobians} (self : KinematicChainCalibration)
    (p : vec) (weights : vec) : result matrix :=
  let table := jacobian_table_parameters p (table_markers_idx self) (q_kinematic_index self) in
  let model :=
    markers_jacobian_model_parameters p (model_markers_idx self) (q_kinematic_index self) in
  let rotation :=
    rotation_matrix_parameter_jacobian p (segment_id_with_vertical_z self)
                                       (q_kinematic_index self) in
  let continuity := jacobian_q_continuity_parameters in
  let pivot := marker_jacobian_theta_parameters in
  let* w0 := getitem weights 0 in
  let* w1 := getitem weights 1 in
  let* w3 := getitem weights 3 in
  let* w2 := getitem weights 2 in
  let* w4 := getitem weights 4 in
  concatenate
    [ mscale w0 table;
      mscale w1 model;
      mscale w3 continuity;
      mscale w2 pivot;
      mscale w4 rotation ].

(** ** The reports: solution, pivot, plot_param_value *)

(** [a.reshape(3, n, order='F')] of a one-dimensional array: the entry
    [(i, j)] is [a[i + 3 * j]]. *)
Definition reshape_F (a : vec) (n : nat) : result matrix :=
  if (length a =? 3 * n)%nat
  then Ok (map (fun i => map (fun j => nth (i + 3 * j) a 0) (seq 0 n)) (seq 0 3))
  else Raise (ValueError "cannot reshape array").

(** [np.linalg.norm(res, axis=0)] of the slice of a frame: the norm of each
    column. *)
Definition norms_axis0 (res : matrix) : vec :=
  map (fun j => norm (map (fun row => nth j row 0) res)) (seq 0 (length (hd [] res))).

(** [v.mean(axis=0)] over the markers of a frame; the mean of no value is
    numpy's [nan], here [None]. *)
Definition mean (v : vec) : option R :=
  match v with
  | [] => None
  | _ :: _ => Some (sum v / INR (length v))
  end.

(** [np.sqrt(np.square(v).mean(axis=0))] *)
Definition rmse (v : vec) : option R := option_map sqrt (mean (map (fun r => r ^ 2) v)).

(** The dictionary [solution] returns: one value per frame under each key. *)
Record rmse_report : Type := {
  rmse_x : list (option R);
  rmse_y : list (option R);
  rmse_z : list (option R);
  rmse_tot : list (option R);
  rmse_x_table : list (option R);
  rmse_y_table : list (option R);
  rmse_z_table : list (option R);
  rmse_tot_table : list (option R);
  gain_time : vec
}.

(** [l.index(h)] on floats: the first position of a value equal to [h] *)
Fixpoint float_index (h : R) (l : vec) : result nat :=
  match l with
  | [] => Raise (ValueError "x not in list")
  | v :: l' =>
      if Req_dec_T v h then Ok 0%nat
      else let* i := float_index h l' in Ok (S i)
  end.

Section Reports.

Context `{Biorbd}.
Variable self : KinematicChainCalibration.

(** One iteration of [for f in range(self.nb_frames)] in [solution]: the
    slices [residuals_xyz_model[:, :, f]] and [residuals_xyz_table[:, :, f]],
    which no other iteration writes. *)
Definition solution_frame (f : nat) : result (matrix * matrix) :=
  let* qi := column (q self) f in
  let* mi := frame_at (markers self) f in
  let markers_model := biorbd_markers qi in
  let vect_pos_markers := flatten_markers markers_model in
  let* open_loop := penalty_open_loop_markers self vect_pos_markers mi in
  let marker_mod := fst open_loop in
  let marker_xp := snd open_loop in
  let* table := penalty_table_markers self vect_pos_markers (map (slice 14 16) mi) in
  let table_mod := fst table ++ [0] in
  let table_xp := snd table ++ [0] in
  let* _ :=
    if (length markers_model <? 2)%nat
    then Raise (ValueError "negative dimensions are not allowed")
    else Ok tt in
  let* array_residual_model := np_sub marker_mod marker_xp in
  let* array_residual_table := np_sub table_mod table_xp in
  let* residuals_model := reshape_F array_residual_model (nb_markers_model self) in
  let* residuals_table := reshape_F array_residual_table (nb_markers_table self) in
  Ok (residuals_model, residuals_table).

(** [solution()].  The statistics after the loop are taken over the markers,
    frame by frame.  [self_gain] is the attribute [self.gain], which [solve]
    alone sets: [None] before [solve] has returned. *)
Definition solution (self_gain : option vec) : result rmse_report :=
  let* residuals := mapM solution_frame (seq 0 (nb_frames self)) in
  let residuals_xyz_model := map fst residuals in
  let residuals_xyz_table := map snd residuals in
  let residuals_norm_model := map norms_axis0 residuals_xyz_model in
  let rmse_tot_model := map rmse residuals_norm_model in
  let rmse_x_model := map (fun res => rmse (nth 0 res [])) residuals_xyz_model in
  let rmse_y_model := map (fun res => rmse (nth 1 res [])) residuals_xyz_model in
  let rmse_z_model := map (fun res => rmse (nth 2 res [])) residuals_xyz_model in
  let residuals_norm_table := map norms_axis0 residuals_xyz_table in
  let rmse_tot_table := map rmse residuals_norm_table in
  let rmse_x_table := map (fun res => rmse (nth 0 res [])) residuals_xyz_table in
  let rmse_y_table := map (fun res => rmse (nth 1 res [])) residuals_xyz_table in
  let rmse_z_table := map (fun res => rmse (nth 2 res [])) residuals_xyz_table in
  let* gain := match self_gain with Some g => Ok g | None => Raise AttributeError end in
  Ok {| rmse_x := rmse_x_model;
        rmse_y := rmse_y_model;
        rmse_z := rmse_z_model;
        rmse_tot := rmse_tot_model;
        rmse_x_table := rmse_x_table;
        rmse_y_table := rmse_y_table;
        rmse_z_table := rmse_z_table;
        rmse_tot_table := rmse_tot_table;
        gain_time := gain |}.

(** [pivot()]: the list [index_not_zero] it prints; the figure is left out. *)
Definition pivot : result (list nat) :=
  let q_out := q self in
  let* pivot_value :=
    mapM (fun i =>
            let* q_i := column q_out i in
            let* pivot_diff := theta_pivot_penalty q_i in
            Ok (fst pivot_diff))
         (seq 0 (nb_frames self)) in
  let pivot_value_list := concat pivot_value in
  foldM (fun h index_not_zero =>
           if Req_dec_T h 0 then Ok index_not_zero
           else
             let* i := float_index h pivot_value_list in
             Ok (index_not_zero ++ [i]))
        pivot_value_list [].

(** The loop of [plot_param_value()]: the numbers of the parameters it prints
    as having reached a bound; the figure drawn after the loop is left out.
    [bound_param] and [param_value] are the attributes [self.bounds_param] and
    [self.parameters], which [solve] sets. *)
Definition plot_param_value (bound_param : matrix) (param_value : vec) : result (list nat) :=
  foldM (fun i reported =>
           let* value := getitem param_value i in
           let* lower := getitem bound_param 0 in
           let* lower_i := getitem lower i in
           if Req_dec_T value lower_i then Ok (reported ++ [i])
           else
             let* upper := getitem bound_param 1 in
             let* upper_0 := getitem upper 0 in
             if Req_dec_T value upper_0 then Ok (reported ++ [i]) else Ok reported)
        (seq 0 (nb_parameters_dofs self)) [].

End Reports.

(** ** IK_Kinova.py: inverse kinematics of the arm alone *)

Section IKKinova.

Context `{Biorbd} `{Optimizers}.
Variable markers_names : list string.

(** The closure [objective_function] of [IK_Kinova];
    [globalJCS(x, nbSegment() - 1).to_array()[i, j]] is read in the rotation
    block, where it is [globalJCS_rot x i j]. *)
Definition objective_function (x q_ik_thorax : vec) (table_markers thorax_markers : matrix)
  : result R :=
  let markers_model := biorbd_markers x in
  let* i5 := list_index "Table:Table5" markers_names in
  let* m5 := getitem markers_model i5 in
  let* xp5 := column table_markers 0 in
  let* d5 := np_sub (to_array m5) xp5 in
  let table5_xyz := norm d5 ^ 2 in
  let* i6 := list_index "Table:Table6" markers_names in
  let* m6 := getitem markers_model i6 in
  let* xp6 := column (firstn 2 table_markers) 1 in
  let* d6 := np_sub (firstn 2 (to_array m6)) xp6 in
  let table6_xy := norm d6 ^ 2 in
  let* row0 := getitem thorax_markers 0 in
  let* mark_out :=
    foldM (fun j mark_out =>
             let* m_j := getitem markers_model j in
             let* xp_j := column thorax_markers j in
             let* d := np_sub (to_array m_j) xp_j in
             let mark := norm d ^ 2 in
             Ok (mark_out + mark))
          (seq 0 (length row0)) 0 in
  let T := globalJCS_rot x in
  let out2 := T 2%nat 0%nat ^ 2 + T 2%nat 1%nat ^ 2 + T 0%nat 2%nat ^ 2 + T 1%nat 2%nat ^ 2
              + (1 - T 2%nat 2%nat) ^ 2 in
  let* out3 :=
    foldM (fun iv out3 =>
             let* x_i := getitem x (fst iv) in
             Ok (out3 + (x_i - snd iv) ^ 2))
          (combine (seq 0 (length q_ik_thorax)) q_ik_thorax) 0 in
  let* out4 :=
    foldM (fun h out4 =>
             let* x_h := getitem_neg x h in
             Ok (out4 + (x_h - 0) ^ 2))
          [1; 2]%nat 0 in
  Ok (1000 * table5_xyz + 1000 * table6_xy + out2 + mark_out + 10 * out3 + out4).

(** One iteration of [for f in range(markers.shape[2])]. *)
Definition IK_Kinova_frame (markers : array3) (q0 : vec) (q_ik_1 : matrix)
    (bounds : list (R * R)) (f : nat) (q : matrix) : result matrix :=
  let* x0 := if (f =? 0)%nat then Ok q0 else column q (f - 1) in
  let* q_ik_thorax := column q_ik_1 f in
  let* table_markers := markers_from_at markers 14 f in
  let* thorax_markers := markers_slice_at markers 0 14 f in
  let* pos :=
    minimize (fun x => objective_function x q_ik_thorax table_markers thorax_markers)
             x0 bounds in
  set_rows_at q (seq 0 (length q)) f (opt_x pos).

Definition IK_Kinova (markers : array3) (q0 : vec) (q_ik_1 : matrix) : result matrix :=
  let q := zeros2 nbQ (snd (shape3 markers)) in
  let bounds := combine (fst get_range_q) (snd get_range_q) in
  foldM (IK_Kinova_frame markers q0 q_ik_1 bounds) (seq 0 (snd (shape3 markers))) q.

End IKKinova.

(** ** What the collaborators promise *)

(** [random.sample(range(n), k)]: [k] distinct elements of [range(n)], and a
    [ValueError] when the sample is larger than the population. *)
Definition sample_contract `{Random} : Prop :=
  forall (g : rng) (n k : nat),
    ((k <= n)%nat ->
     exists l, fst (sample g n k) = Ok l /\ length l = k /\ NoDup l /\
               Forall (fun i => (i < n)%nat) l) /\
    ((n < k)%nat -> exists msg, fst (sample g n k) = Raise (ValueError msg)).

(** ** What the specification asks of a block of the residual *)

(** A penalty block (model values, target values) as the solver is to see it:
    the differences, each scaled by the weight of the block. *)
Definition weighted_block (w : R) (block : vec * vec) : vec :=
  map (fun d => d * w) (zip_with Rminus (fst block) (snd block)).

(** ** What the specification asks of the residual of the IK step *)

(** The residual the specification describes: the squared errors of the
    markers before the table, summed over every frame of the trial. *)
Definition spec_epsilon_all_frames `{Biorbd} (self : KinematicChainCalibration)
    (q_output : matrix) (index_table_markers : list nat) : result R :=
  foldM (fun f acc =>
           let* e := espilon_of_frame self q_output index_table_markers f in
           Ok (acc + e))
        (seq 0 (nb_frames_ik_step self)) 0.

(** ** A small model: one body marker on a slider, two table markers

    Two coordinates [q0], [q1]; the body marker [M0] sits at [(q0, 0, 0)], the
    table markers at [(0, 0, 0)] and [(1, 0, 0)]; the last segment is never
    rotated.  The optimizers hand back their initial guess and report that
    they have not converged.  The generator draws [k] consecutive indices
    modulo [n], starting at its state. *)
Module Toy.

Definition biorbd : Biorbd :=
  {| nbQ := 2;
     nbMarkers := 3;
     nameDof := ["q0"; "q1"];
     markerNames := ["M0"; "Table:Table5"; "Table:Table6"];
     biorbd_markers := fun Q => [(nth 0 Q 0, 0, 0); (0, 0, 0); (1, 0, 0)];
     globalJCS_rot := fun _ i j => if (i =? j)%nat then 1 else 0;
     get_range_q := ([-10; -10], [10; 10]) |}.

Definition jacobians : Jacobians :=
  {| marker_jacobian_table := fun _ _ _ => [[0; 0]; [0; 0]; [0; 0]; [0; 0]; [0; 0]];
     marker_jacobian_model := fun _ _ _ => [[1; 0]; [0; 0]; [0; 0]];
     rotation_matrix_jacobian := fun _ _ _ => [[0; 0]; [0; 0]; [0; 0]; [0; 0]; [0; 0]];
     jacobian_q_continuity := fun _ _ => [[1; 0]; [0; 1]];
     marker_jacobian_theta := fun _ _ => [[0; 0]] |}.

Definition not_converged (x0 : vec) : OptimizeResult :=
  {| opt_x := x0; opt_jac := []; opt_success := false |}.

Definition optimizers : Optimizers :=
  {| least_squares := fun _ x0 _ _ => Ok (not_converged x0);
     minimize := fun _ x0 _ => Ok (not_converged x0);
     minimize_ipopt := fun _ x0 _ _ => Ok (not_converged x0) |}.

Definition random : Random :=
  {| rng := nat;
     sample := fun g n k =>
       if (k <=? n)%nat
       then (Ok (map (fun i => ((g + i) mod n)%nat) (seq 0 k)), S g)
       else (Raise (ValueError "Sample larger than population or is negative"), g) |}.

(** Experimental markers over two frames: [M0] is at [x = 1] in frame 0 and at
    [x = 0] in frame 1; the table markers are where the model has them. *)
Definition xp_markers : array3 :=
  [ [[1; 0]; [0; 0]; [1; 1]];
    [[0; 0]; [0; 0]; [0; 0]];
    [[0; 0]; [0; 0]; [0; 0]] ].

Definition arguments : init_arguments :=
  {| arg_markers_model := ["M0"; "Table:Table5"; "Table:Table6"];
     arg_markers := xp_markers;
     arg_closed_loop_markers := ["Table:Table5"; "Table:Table6"];
     arg_tracked_markers := ["M0"; "Table:Table5"; "Table:Table6"];
     arg_parameter_dofs := [];
     arg_kinematic_dofs := ["q0"; "q1"];
     arg_weights_param := [1; 1; 1; 1; 1];
     arg_weights_ik := [1; 1; 1; 1; 1];
     arg_q_ik_initial_guess := [[0; 0]; [0; 0]];
     arg_nb_frames_ik_step := Some 2%nat;
     arg_nb_frames_param_step := Some 2%nat;
     arg_randomize_param_step_frames := true;
     arg_use_analytical_jacobians := false;
     arg_segment_id_with_vertical_z := None;
     arg_param_solver := "leastsquare";
     arg_ik_solver := "leastsquare" |}.

(** The same arguments, with closed-loop and tracked names that neither
    [markers_model] nor the model has. *)
Definition ghost_arguments : init_arguments :=
  {| arg_markers_model := ["M0"; "Table:Table5"; "Table:Table6"];
     arg_markers := xp_markers;
     arg_closed_loop_markers := ["Ghost5"; "Ghost6"];
     arg_tracked_markers := ["M0"; "Ghost"; "Ghost5"; "Ghost6"];
     arg_parameter_dofs := [];
     arg_kinematic_dofs := ["q0"; "q1"];
     arg_weights_param := [1; 1; 1; 1; 1];
     arg_weights_ik := [1; 1; 1; 1; 1];
     arg_q_ik_initial_guess := [[0; 0]; [0; 0]];
     arg_nb_frames_ik_step := Some 2%nat;
     arg_nb_frames_param_step := Some 2%nat;
     arg_randomize_param_step_frames := true;
     arg_use_analytical_jacobians := false;
     arg_segment_id_with_vertical_z := None;
     arg_param_solver := "leastsquare";
     arg_ik_solver := "leastsquare" |}.

(** The object [__init__] builds from [arguments]. *)
Definition kcc : KinematicChainCalibration :=
  {| model_dofs := ["q0"; "q1"];
     nb_markers := 3;
     nb_frames := 2;
     markers_model := ["M0"; "Table:Table5"; "Table:Table6"];
     markers := xp_markers;
     closed_loop_markers := ["Table:Table5"; "Table:Table6"];
     tracked_markers := ["M0"; "Table:Table5"; "Table:Table6"];
     parameter_dofs := [];
     kinematic_dofs := ["q0"; "q1"];
     table_markers_idx := [1; 2]%nat;
     model_markers_idx := [0; 1; 2]%nat;
     nb_markers_table := 2;
     nb_markers_model := 3;
     q_parameter_index := [];
     q_kinematic_index := [0; 1]%nat;
     nb_parameters_dofs := 0;
     nb_kinematic_dofs := 2;
     param_solver := "leastsquare";
     ik_solver := "leastsquare";
     q_ik_initial_guess := [[0; 0]; [0; 0]];
     nb_frames_ik_step := 2;
     nb_frames_param_step := 2;
     randomize_param_step_frames := true;
     use_analytical_jacobians := false;
     list_frames_param_step := [0; 1]%nat;
     weights_param := [1; 1; 1; 1; 1];
     weights_ik := [1; 1; 1; 1; 1];
     weight_list_param := repeat 1 5 ++ repeat 1 3 ++ repeat 1 2 ++ [1] ++ repeat 1 5;
     weight_list_ik := repeat 1 5 ++ repeat 1 3 ++ repeat 1 2 ++ [1] ++ repeat 1 5;
     q := [[0; 0]; [0; 0]];
     segment_id_with_vertical_z := None |}.

(** The same object with the constrained backend for the IK step. *)
Definition kcc_ipopt : KinematicChainCalibration :=
  {| model_dofs := ["q0"; "q1"];
     nb_markers := 3;
     nb_frames := 2;
     markers_model := ["M0"; "Table:Table5"; "Table:Table6"];
     markers := xp_markers;
     closed_loop_markers := ["Table:Table5"; "Table:Table6"];
     tracked_markers := ["M0"; "Table:Table5"; "Table:Table6"];
     parameter_dofs := [];
     kinematic_dofs := ["q0"; "q1"];
     table_markers_idx := [1; 2]%nat;
     model_markers_idx := [0; 1; 2]%nat;
     nb_markers_table := 2;
     nb_markers_model := 3;
     q_parameter_index := [];
     q_kinematic_index := [0; 1]%nat;
     nb_parameters_dofs := 0;
     nb_kinematic_dofs := 2;
     param_solver := "leastsquare";
     ik_solver := "ipopt";
     q_ik_initial_guess := [[0; 0]; [0; 0]];
     nb_frames_ik_step := 2;
     nb_frames_param_step := 2;
     randomize_param_step_frames := true;
     use_analytical_jacobians := false;
     list_frames_param_step := [0; 1]%nat;
     weights_param := [1; 1; 1; 1; 1];
     weights_ik := [1; 1; 1; 1; 1];
     weight_list_param := repeat 1 5 ++ repeat 1 3 ++ repeat 1 2 ++ [1] ++ repeat 1 5;
     weight_list_ik := repeat 1 5 ++ repeat 1 3 ++ repeat 1 2 ++ [1] ++ repeat 1 5;
     q := [[0; 0]; [0; 0]];
     segment_id_with_vertical_z := None |}.

(** The locals of [step_2] before its first frame. *)
Definition first_frame : step_2_locals :=
  {| loc_q_output := zeros2 2 2; loc_espilon_markers := None; loc_jacobian := None |}.

(** The poses of two sampled frames: [q0] is 1 in the first and 2 in the
    second. *)
Definition sampled_poses : matrix := [[1; 2]; [0; 0]].

(** The locals of [objective_function_param] before the first sampled frame,
    after it, and after the second, for [sampled_poses] and the initial pose
    [[0; 0]]. *)
Definition param_before : param_locals :=
  {| loc_Q := [0; 0]; loc_x0 := Supplied [0; 0];
     table5_xyz_all_frames := 0; table6_xy_all_frames := 0;
     mark_out_all_frames := 0; rotation_matrix_all_frames := 0;
     loc_q_continuity := None; loc_pivot := None |}.

Definition param_after_first : param_locals :=
  {| loc_Q := [1; 0]; loc_x0 := SameArrayAsQ;
     table5_xyz_all_frames := 0; table6_xy_all_frames := 0;
     mark_out_all_frames := 0; rotation_matrix_all_frames := 0;
     loc_q_continuity := Some 1; loc_pivot := Some 0 |}.

Definition param_after_second : param_locals :=
  {| loc_Q := [2; 0]; loc_x0 := SameArrayAsQ;
     table5_xyz_all_frames := 0; table6_xy_all_frames := 0;
     mark_out_all_frames := 4; rotation_matrix_all_frames := 0;
     loc_q_continuity := Some 0; loc_pivot := Some 0 |}.

(** The middle of the range of a coordinate, where [solve] seeds the
    coordinates whose initial guess sums to zero. *)
Definition mid : R := (-10 + 10) / 2.

Definition seeded : matrix := [[mid; mid]; [mid; mid]].

(** The locals of [solve] when the loop is entered, after one iteration and
    after two. *)
Definition solve_start : solve_locals :=
  {| arr_initial_guess := seeded;
     guess_is_q_output := false;
     loc_q_step_2 := seeded;
     arr_q_output := zeros2 2 2;
     loc_p := [];
     iteration := 0;
     epsilon_markers_n := 10;
     epsilon_markers_n_minus_1 := 0;
     delta_epsilon_markers := 10 - 0;
     jacobians_used := [JacMatrix []] |}.

Definition solve_after_first : solve_locals :=
  {| arr_initial_guess := seeded;
     guess_is_q_output := true;
     loc_q_step_2 := seeded;
     arr_q_output := seeded;
     loc_p := [];
     iteration := 1;
     epsilon_markers_n := 0;
     epsilon_markers_n_minus_1 := 10;
     delta_epsilon_markers := 0 - 10;
     jacobians_used := [JacMatrix []; JacMatrix []] |}.

Definition solve_after_second : solve_locals :=
  {| arr_initial_guess := seeded;
     guess_is_q_output := true;
     loc_q_step_2 := seeded;
     arr_q_output := seeded;
     loc_p := [];
     iteration := 2;
     epsilon_markers_n := 0;
     epsilon_markers_n_minus_1 := 0;
     delta_epsilon_markers := 0 - 0;
     jacobians_used := [JacMatrix []; JacMatrix []; JacMatrix []] |}.

End Toy.

(** ** Objects for the edge cases

    The object of the small model with other marker names, table indices,
    coordinate indices, frames and arrays. *)
Module Cases.

Definition kcc_with (names : list string) (table_idx kinematic_idx parameter_idx : list nat)
    (frames : nat) (series : array3) (guess : matrix) : KinematicChainCalibration :=
  {| model_dofs := model_dofs Toy.kcc;
     nb_markers := length names;
     nb_frames := frames;
     markers_model := names;
     markers := series;
     closed_loop_markers := closed_loop_markers Toy.kcc;
     tracked_markers := tracked_markers Toy.kcc;
     parameter_dofs := parameter_dofs Toy.kcc;
     kinematic_dofs := kinematic_dofs Toy.kcc;
     table_markers_idx := table_idx;
     model_markers_idx := model_markers_idx Toy.kcc;
     nb_markers_table := length table_idx;
     nb_markers_model := nb_markers_model Toy.kcc;
     q_parameter_index := parameter_idx;
     q_kinematic_index := kinematic_idx;
     nb_parameters_dofs := length parameter_idx;
     nb_kinematic_dofs := length kinematic_idx;
     param_solver := "leastsquare";
     ik_solver := "leastsquare";
     q_ik_initial_guess := guess;
     nb_frames_ik_step := frames;
     nb_frames_param_step := frames;
     randomize_param_step_frames := true;
     use_analytical_jacobians := false;
     list_frames_param_step := seq 0 frames;
     weights_param := weights_param Toy.kcc;
     weights_ik := weights_ik Toy.kcc;
     weight_list_param := weight_list_param Toy.kcc;
     weight_list_ik := weight_list_ik Toy.kcc;
     q := guess;
     segment_id_with_vertical_z := None |}.

(** The table marker listed first: the body marker [M0] comes after it. *)
Definition table_first : KinematicChainCalibration :=
  kcc_with ["Table:Table5"; "M0"; "Table:Table6"] [0; 2]%nat [0; 1]%nat [] 2
           Toy.xp_markers [[0; 0]; [0; 0]].

End Cases.

Module Cases2.

(** One kinematic coordinate [q0] and one parameter [q1]. *)
Definition with_parameter : KinematicChainCalibration :=
  Cases.kcc_with ["M0"; "Table:Table5"; "Table:Table6"] [1; 2]%nat [0%nat] [1%nat] 2
                 Toy.xp_markers [[0; 0]; [0; 0]].

(** Optimizers for the IK step as in the small model, and a parameter
    optimizer that answers 3. *)
Definition optimizers : Optimizers :=
  {| least_squares := fun _ x0 _ _ => Ok (Toy.not_converged x0);
     minimize := fun _ _ _ => Ok {| opt_x := [3]; opt_jac := []; opt_success := true |};
     minimize_ipopt := fun _ x0 _ _ => Ok (Toy.not_converged x0) |}.

(** The locals of [solve] on [with_parameter]: when the loop is entered, after
    one pair of steps and after two. *)
Definition solve_start : solve_locals :=
  {| arr_initial_guess := [[Toy.mid; Toy.mid]; [0; 0]];
     guess_is_q_output := false;
     loc_q_step_2 := [[Toy.mid; Toy.mid]; [0; 0]];
     arr_q_output := zeros2 2 2;
     loc_p := [0];
     iteration := 0;
     epsilon_markers_n := 10;
     epsilon_markers_n_minus_1 := 0;
     delta_epsilon_markers := 10 - 0;
     jacobians_used := [JacMatrix []] |}.

Definition solve_after_first : solve_locals :=
  {| arr_initial_guess := [[Toy.mid; Toy.mid]; [3; 3]];
     guess_is_q_output := true;
     loc_q_step_2 := [[Toy.mid; Toy.mid]; [0; 0]];
     arr_q_output := [[Toy.mid; Toy.mid]; [3; 3]];
     loc_p := [3];
     iteration := 1;
     epsilon_markers_n := 0;
     epsilon_markers_n_minus_1 := 10;
     delta_epsilon_markers := 0 - 10;
     jacobians_used := [JacMatrix []; JacMatrix []] |}.

Definition solve_after_second : solve_locals :=
  {| arr_initial_guess := [[Toy.mid; Toy.mid]; [3; 3]];
     guess_is_q_output := true;
     loc_q_step_2 := [[Toy.mid; Toy.mid]; [0; 0]];
     arr_q_output := [[Toy.mid; Toy.mid]; [3; 3]];
     loc_p := [3];
     iteration := 2;
     epsilon_markers_n := 0;
     epsilon_markers_n_minus_1 := 0;
     delta_epsilon_markers := 0 - 0;
     jacobians_used := [JacMatrix []; JacMatrix []; JacMatrix []] |}.

End Cases2.
(** ** Relations the properties are stated with *)

(** Same shape, and the same rows outside [idxs]. *)
Definition same_outside (idxs : list nat) (m m' : matrix) : Prop :=
  map (@length R) m' = map (@length R) m
  /\ forall i, ~ In i idxs -> nth_error m' i = nth_error m i.

(** The positions the open-loop penalty keeps among [i, i + n): all but those
    of the two table markers. *)
Definition kept_positions (t0 t1 : nat) (i n : nat) : list nat :=
  filter (fun k => negb (k =? t0)%nat && negb (k =? t1)%nat) (seq i n).

Module Cases3.

(** The arguments of the small model with other frame counts, weights and
    names of coordinates. *)
Definition arguments_with (frames_ik frames_param : option nat) (weights : vec)
    (parameter_names kinematic_names : list string) : init_arguments :=
  {| arg_markers_model := arg_markers_model Toy.arguments;
     arg_markers := arg_markers Toy.arguments;
     arg_closed_loop_markers := arg_closed_loop_markers Toy.arguments;
     arg_tracked_markers := arg_tracked_markers Toy.arguments;
     arg_parameter_dofs := parameter_names;
     arg_kinematic_dofs := kinematic_names;
     arg_weights_param := weights;
     arg_weights_ik := arg_weights_ik Toy.arguments;
     arg_q_ik_initial_guess := arg_q_ik_initial_guess Toy.arguments;
     arg_nb_frames_ik_step := frames_ik;
     arg_nb_frames_param_step := frames_param;
     arg_randomize_param_step_frames := true;
     arg_use_analytical_jacobians := false;
     arg_segment_id_with_vertical_z := None;
     arg_param_solver := "leastsquare";
     arg_ik_solver := "leastsquare" |}.

End Cases3.

(** The locals of [objective_function_param] that a later iteration reads or
    that the returned value weighs after a later iteration: all but
    [q_continuity], which every iteration assigns afresh. *)
Definition without_q_continuity (st : param_locals) : param_locals :=
  {| loc_Q := loc_Q st; loc_x0 := loc_x0 st;
     table5_xyz_all_frames := table5_xyz_all_frames st;
     table6_xy_all_frames := table6_xy_all_frames st;
     mark_out_all_frames := mark_out_all_frames st;
     rotation_matrix_all_frames := rotation_matrix_all_frames st;
     loc_q_continuity := None; loc_pivot := loc_pivot st |}.

Module Cases4.

(** The object of the small model when no frame is kept for the calibration
    ([nb_frames_param_step = 0]). *)
Definition no_calibration_frame : KinematicChainCalibration :=
  {| model_dofs := model_dofs Toy.kcc;
     nb_markers := nb_markers Toy.kcc;
     nb_frames := nb_frames Toy.kcc;
     markers_model := markers_model Toy.kcc;
     markers := markers Toy.kcc;
     closed_loop_markers := closed_loop_markers Toy.kcc;
     tracked_markers := tracked_markers Toy.kcc;
     parameter_dofs := parameter_dofs Toy.kcc;
     kinematic_dofs := kinematic_dofs Toy.kcc;
     table_markers_idx := table_markers_idx Toy.kcc;
     model_markers_idx := model_markers_idx Toy.kcc;
     nb_markers_table := nb_markers_table Toy.kcc;
     nb_markers_model := nb_markers_model Toy.kcc;
     q_parameter_index := q_parameter_index Toy.kcc;
     q_kinematic_index := q_kinematic_index Toy.kcc;
     nb_parameters_dofs := nb_parameters_dofs Toy.kcc;
     nb_kinematic_dofs := nb_kinematic_dofs Toy.kcc;
     param_solver := param_solver Toy.kcc;
     ik_solver := ik_solver Toy.kcc;
     q_ik_initial_guess := q_ik_initial_guess Toy.kcc;
     nb_frames_ik_step := nb_frames_ik_step Toy.kcc;
     nb_frames_param_step := 0;
     randomize_param_step_frames := randomize_param_step_frames Toy.kcc;
     use_analytical_jacobians := use_analytical_jacobians Toy.kcc;
     list_frames_param_step := [];
     weights_param := weights_param Toy.kcc;
     weights_ik := weights_ik Toy.kcc;
     weight_list_param := weight_list_param Toy.kcc;
     weight_list_ik := weight_list_ik Toy.kcc;
     q := q Toy.kcc;
     segment_id_with_vertical_z := segment_id_with_vertical_z Toy.kcc |}.

End Cases4.

(** ** A model with sixteen markers

    Fourteen body markers and the two table markers, at the places the
    reports and [IK_Kinova] read them: the table at the columns 14 and 15.
    The body marker [M00] sits at [(q0, 0, 0)], the others at the origin, the
    table markers at [(0, 0, 0)] and [(1, 0, 0)]. *)
Module Sixteen.

Definition names : list string :=
  ["M00"; "M01"; "M02"; "M03"; "M04"; "M05"; "M06"; "M07"; "M08"; "M09"; "M10"; "M11";
   "M12"; "M13"; "Table:Table5"; "Table:Table6"].

Definition biorbd : Biorbd :=
  {| nbQ := 2;
     nbMarkers := 16;
     nameDof := ["q0"; "q1"];
     markerNames := names;
     biorbd_markers := fun Q => (nth 0 Q 0, 0, 0) :: repeat (0, 0, 0) 14 ++ [(1, 0, 0)];
     globalJCS_rot := fun _ i j => if (i =? j)%nat then 1 else 0;
     get_range_q := ([-10; -10], [10; 10]) |}.

(** One frame: [M00] is seen at [(3, 4, 0)], the first table marker at
    [(0, 0, 2)], every other marker where the model has it at [q0 = 0]. *)
Definition xp_markers : array3 :=
  [ [3] :: repeat [0] 14 ++ [[1]];
    [4] :: repeat [0] 15;
    repeat [0] 14 ++ [[2]; [0]] ].

(** The same frame, twice. *)
Definition xp_markers_twice : array3 := map (map (fun row => row ++ row)) xp_markers.

Definition kcc : KinematicChainCalibration :=
  {| model_dofs := ["q0"; "q1"];
     nb_markers := 16;
     nb_frames := 1;
     markers_model := names;
     markers := xp_markers;
     closed_loop_markers := ["Table:Table5"; "Table:Table6"];
     tracked_markers := firstn 14 names;
     parameter_dofs := [];
     kinematic_dofs := ["q0"; "q1"];
     table_markers_idx := [14; 15]%nat;
     model_markers_idx := seq 0 14;
     nb_markers_table := 2;
     nb_markers_model := 14;
     q_parameter_index := [];
     q_kinematic_index := [0; 1]%nat;
     nb_parameters_dofs := 0;
     nb_kinematic_dofs := 2;
     param_solver := "leastsquare";
     ik_solver := "leastsquare";
     q_ik_initial_guess := [[0]; [0]];
     nb_frames_ik_step := 1;
     nb_frames_param_step := 1;
     randomize_param_step_frames := true;
     use_analytical_jacobians := false;
     list_frames_param_step := [0%nat];
     weights_param := [1; 1; 1; 1; 1];
     weights_ik := [1; 1; 1; 1; 1];
     weight_list_param := repeat 1 5 ++ repeat 1 42 ++ repeat 1 2 ++ [1] ++ repeat 1 5;
     weight_list_ik := repeat 1 5 ++ repeat 1 42 ++ repeat 1 2 ++ [1] ++ repeat 1 5;
     q := [[0]; [0]];
     segment_id_with_vertical_z := None |}.

End Sixteen.

(** ** Objects for the reports *)
Module Reported.

(** Three frames of the small model; the two coordinates sum to 3 in the
    first two frames and to 0 in the last. *)
Definition three_frames : KinematicChainCalibration :=
  Cases.kcc_with ["M0"; "Table:Table5"; "Table:Table6"] [1; 2]%nat [0; 1]%nat [] 3
                 (map (map (fun row => row ++ [0])) Toy.xp_markers) [[1; 1; 0]; [2; 2; 0]].

(** Both coordinates of the small model are parameters. *)
Definition two_parameters : KinematicChainCalibration :=
  Cases.kcc_with ["M0"; "Table:Table5"; "Table:Table6"] [1; 2]%nat [] [0; 1]%nat 2
                 Toy.xp_markers [[0; 0]; [0; 0]].

End Reported.

(** Jacobians of the parameter step for a model with one parameter: one column. *)
Module OneParameter.

Definition jacobians : ParameterJacobians :=
  {| jacobian_table_parameters := fun p _ _ => [[1]; [0]; [0]; [1]; [0]];
     markers_jacobian_model_parameters := fun p _ _ => [[nth 0 p 0]; [0]; [0]];
     rotation_matrix_parameter_jacobian := fun _ _ _ => [[0]; [0]; [0]; [0]; [0]];
     jacobian_q_continuity_parameters := [[0]];
     marker_jacobian_theta_parameters := [[1]] |}.

End OneParameter.

Module Reported2.

(** The object of the small model with a name for the parameter optimizer
    that [solve] does not know. *)
Definition other_param_solver : KinematicChainCalibration :=
  {| model_dofs := model_dofs Toy.kcc;
     nb_markers := nb_markers Toy.kcc;
     nb_frames := nb_frames Toy.kcc;
     markers_model := markers_model Toy.kcc;
     markers := markers Toy.kcc;
     closed_loop_markers := closed_loop_markers Toy.kcc;
     tracked_markers := tracked_markers Toy.kcc;
     parameter_dofs := parameter_dofs Toy.kcc;
     kinematic_dofs := kinematic_dofs Toy.kcc;
     table_markers_idx := table_markers_idx Toy.kcc;
     model_markers_idx := model_markers_idx Toy.kcc;
     nb_markers_table := nb_markers_table Toy.kcc;
     nb_markers_model := nb_markers_model Toy.kcc;
     q_parameter_index := q_parameter_index Toy.kcc;
     q_kinematic_index := q_kinematic_index Toy.kcc;
     nb_parameters_dofs := nb_parameters_dofs Toy.kcc;
     nb_kinematic_dofs := nb_kinematic_dofs Toy.kcc;
     param_solver := "trust-constr";
     ik_solver := ik_solver Toy.kcc;
     q_ik_initial_guess := q_ik_initial_guess Toy.kcc;
     nb_frames_ik_step := nb_frames_ik_step Toy.kcc;
     nb_frames_param_step := nb_frames_param_step Toy.kcc;
     randomize_param_step_frames := randomize_param_step_frames Toy.kcc;
     use_analytical_jacobians := use_analytical_jacobians Toy.kcc;
     list_frames_param_step := list_frames_param_step Toy.kcc;
     weights_param := weights_param Toy.kcc;
     weights_ik := weights_ik Toy.kcc;
     weight_list_param := weight_list_param Toy.kcc;
     weight_list_ik := weight_list_ik Toy.kcc;
     q := q Toy.kcc;
     segment_id_with_vertical_z := segment_id_with_vertical_z Toy.kcc |}.

End Reported2.

(** ** A model whose body marker follows the parameter

    One kinematic coordinate [q0] and one parameter [q1]; the body marker [M0]
    sits at [(q0, q1, 0)] and is seen at [(3, 2, 0)] in both frames; the table
    markers are seen where the model has them.  The IK optimizer hands back
    its initial guess, the parameter optimizer answers 3. *)
Module FirstPair.

Definition biorbd : Biorbd :=
  {| nbQ := 2;
     nbMarkers := 3;
     nameDof := ["q0"; "q1"];
     markerNames := ["M0"; "Table:Table5"; "Table:Table6"];
     biorbd_markers := fun Q => [(nth 0 Q 0, nth 1 Q 0, 0); (0, 0, 0); (1, 0, 0)];
     globalJCS_rot := fun _ i j => if (i =? j)%nat then 1 else 0;
     get_range_q := ([-10; -10], [10; 10]) |}.

Definition xp_markers : array3 :=
  [ [[3; 3]; [0; 0]; [1; 1]];
    [[2; 2]; [0; 0]; [0; 0]];
    [[0; 0]; [0; 0]; [0; 0]] ].

Definition kcc : KinematicChainCalibration :=
  Cases.kcc_with ["M0"; "Table:Table5"; "Table:Table6"] [1; 2]%nat [0%nat] [1%nat] 2
                 xp_markers [[0; 0]; [0; 0]].

(** The initial guess once [solve] has put the kinematic row at the middle of
    its range. *)
Definition seeded_guess : matrix := [[Toy.mid; Toy.mid]; [0; 0]].

(** The locals of [solve] on [kcc] when the loop is entered and after one pair
    of steps. *)
Definition solve_start : solve_locals :=
  {| arr_initial_guess := seeded_guess;
     guess_is_q_output := false;
     loc_q_step_2 := seeded_guess;
     arr_q_output := zeros2 2 2;
     loc_p := [0];
     iteration := 0;
     epsilon_markers_n := 10;
     epsilon_markers_n_minus_1 := 0;
     delta_epsilon_markers := 10 - 0;
     jacobians_used := [JacMatrix []] |}.

Definition solve_after_first : solve_locals :=
  {| arr_initial_guess := [[Toy.mid; Toy.mid]; [3; 3]];
     guess_is_q_output := true;
     loc_q_step_2 := seeded_guess;
     arr_q_output := [[Toy.mid; Toy.mid]; [3; 3]];
     loc_p := [3];
     iteration := 1;
     epsilon_markers_n := 10;
     epsilon_markers_n_minus_1 := 10;
     delta_epsilon_markers := 10 - 10;
     jacobians_used := [JacMatrix []; JacMatrix []] |}.

End FirstPair.

(** ** Arguments of the small model with five different weights *)
Module Weighted.

(** The configuration of the small model: two closed-loop markers, one
    tracked marker outside the closed loop, two free coordinates. *)
Definition arguments : init_arguments :=
  {| arg_markers_model := arg_markers_model Toy.arguments;
     arg_markers := arg_markers Toy.arguments;
     arg_closed_loop_markers := ["Table:Table5"; "Table:Table6"];
     arg_tracked_markers := ["M0"; "Table:Table5"; "Table:Table6"];
     arg_parameter_dofs := [];
     arg_kinematic_dofs := ["q0"; "q1"];
     arg_weights_param := [2; 3; 4; 5; 6];
     arg_weights_ik := [7; 8; 9; 10; 11];
     arg_q_ik_initial_guess := [[0; 0]; [0; 0]];
     arg_nb_frames_ik_step := Some 2%nat;
     arg_nb_frames_param_step := Some 2%nat;
     arg_randomize_param_step_frames := true;
     arg_use_analytical_jacobians := false;
     arg_segment_id_with_vertical_z := None;
     arg_param_solver := "leastsquare";
     arg_ik_solver := "leastsquare" |}.

(** The same arguments with the body marker [M0] listed as a third
    closed-loop marker, and no tracked marker outside the closed loop. *)
Definition three_closed_loop_markers : init_arguments :=
  {| arg_markers_model := arg_markers_model Toy.arguments;
     arg_markers := arg_markers Toy.arguments;
     arg_closed_loop_markers := ["Table:Table5"; "Table:Table6"; "M0"];
     arg_tracked_markers := ["M0"];
     arg_parameter_dofs := [];
     arg_kinematic_dofs := ["q0"; "q1"];
     arg_weights_param := [2; 3; 4; 5; 6];
     arg_weights_ik := [7; 8; 9; 10; 11];
     arg_q_ik_initial_guess := [[0; 0]; [0; 0]];
     arg_nb_frames_ik_step := Some 2%nat;
     arg_nb_frames_param_step := Some 2%nat;
     arg_randomize_param_step_frames := true;
     arg_use_analytical_jacobians := false;
     arg_segment_id_with_vertical_z := None;
     arg_param_solver := "leastsquare";
     arg_ik_solver := "leastsquare" |}.

End Weighted.

(** * Properties *)

(** ** The error monad and the list helpers *)

Lemma bind_Ok_inv {A B : Type} (c : result A) (k : A -> result B) (b : B) :
  bind c k = Ok b -> exists a, c = Ok a /\ k a = Ok b.
Proof.
  destruct c as [a|e]; simpl; intros E; [exists a; split; [reflexivity|exact E]|discriminate].
Qed.

Lemma foldM_app {A S : Type} (body : A -> S -> result S) (l1 l2 : list A) (st : S) :
  foldM body (l1 ++ l2) st = bind (foldM body l1 st) (foldM body l2).
Proof.
  revert st. induction l1 as [|a l1 IH]; intros st; simpl; [reflexivity|].
  destruct (body a st) as [st'|e]; simpl; [apply IH|reflexivity].
Qed.

Lemma getitem_Ok {A : Type} (l : list A) (i : nat) (a : A) :
  nth_error l i = Some a -> getitem l i = Ok a.
Proof. unfold getitem. intros ->. reflexivity. Qed.

Lemma getitem_neg_app {A : Type} (front back : list A) (k : nat) :
  k = length back -> getitem_neg (front ++ back) k = getitem back 0.
Proof.
  intros ->. unfold getitem_neg, getitem.
  rewrite length_app.
  replace (length back <=? length front + length back)%nat with true
    by (symmetry; apply Nat.leb_le; lia).
  replace (length front + length back - length back)%nat with (length front + 0)%nat by lia.
  rewrite nth_error_app2 by lia.
  replace (length front + 0 - length front)%nat with 0%nat by lia. reflexivity.
Qed.

Lemma getitem_neg_last {A : Type} (front : list A) (a b : A) :
  getitem_neg (front ++ [a; b]) 1 = Ok b.
Proof.
  change (front ++ [a; b]) with (front ++ [a] ++ [b]). rewrite app_assoc.
  rewrite getitem_neg_app by reflexivity. reflexivity.
Qed.

Lemma norm_pow2 (v : vec) : norm v ^ 2 = sum (map (fun x => x ^ 2) v).
Proof.
  unfold norm. rewrite pow2_sqrt; [reflexivity|].
  induction v as [|a v IH]; [simpl; lra|].
  change (0 <= a ^ 2 + sum (map (fun x => x ^ 2) v)).
  pose proof (pow2_ge_0 a). lra.
Qed.

Lemma slice_flatten_markers (ms : list (R * R * R)) (i : nat) (m : R * R * R) :
  nth_error ms i = Some m ->
  slice (i * 3) (i * 3 + 3) (flatten_markers ms) = to_array m.
Proof.
  unfold slice. replace (i * 3 + 3 - i * 3)%nat with 3%nat by lia.
  revert i. induction ms as [|m' ms IH]; intros [|i] E; simpl in E; try discriminate.
  - injection E as ->. reflexivity.
  - simpl. apply IH. exact E.
Qed.

(** ** The penalties *)

(** C5. With two table markers, the closed-loop penalty has exactly five
    components: the three coordinates of the first table marker against its
    target, then the X and Y coordinates of the second against its target;
    neither the number of markers of the model nor the names of the others
    enter. *)
Theorem penalty_table_markers_five_components
    (self : KinematicChainCalibration) (ms : list (R * R * R)) (i0 i1 : nat)
    (m0 m1 : R * R * R) (x0 y0 z0 x1 y1 z1 : R) :
  table_markers_idx self = [i0; i1] ->
  nth_error ms i0 = Some m0 ->
  nth_error ms i1 = Some m1 ->
  let table_markers := [[x0; x1]; [y0; y1]; [z0; z1]] in
  let table := [fst (fst m0); snd (fst m0); snd m0; fst (fst m1); snd (fst m1)] in
  let table_xp := [x0; y0; z0; x1; y1] in
  penalty_table_markers self (flatten_markers ms) table_markers = Ok (table, table_xp)
  /\ length table = 5%nat /\ length table_xp = 5%nat
  /\ np_sub table table_xp
     = Ok [fst (fst m0) - x0; snd (fst m0) - y0; snd m0 - z0;
           fst (fst m1) - x1; snd (fst m1) - y1].
Proof.
  intros Hidx H0 H1 table_markers table table_xp.
  repeat split.
  unfold penalty_table_markers. rewrite Hidx. simpl.
  rewrite (slice_flatten_markers ms i0 m0 H0), (slice_flatten_markers ms i1 m1 H1).
  reflexivity.
Qed.

Lemma penalty_table_markers_five_components_witness :
  penalty_table_markers Toy.kcc (flatten_markers [(5, 0, 0); (0, 0, 0); (1, 0, 0)])
                        [[0; 1]; [0; 0]; [0; 7]]
  = Ok ([0; 0; 0; 1; 0], [0; 0; 0; 1; 0]).
Proof.
  apply (penalty_table_markers_five_components
           Toy.kcc [(5, 0, 0); (0, 0, 0); (1, 0, 0)] 1 2 (0, 0, 0) (1, 0, 0) 0 0 0 1 0 7);
    reflexivity.
Defined.

(** C6. The pivot penalty is one-sided: with [s] the sum of the last two
    coordinates, the residual (model value minus target value) is
    [s - 7 pi / 10] when [s] is above [7 pi / 10] and [0] otherwise; written
    [s = 7 pi / 10 + delta], it is [delta] for a positive [delta] and [0] for
    the others, the boundary [delta = 0] included. *)
Theorem theta_pivot_penalty_residual (front : vec) (a b : R) :
  exists model target,
    theta_pivot_penalty (front ++ [a; b]) = Ok ([model], [target])
    /\ (a + b > 7 * PI / 10 -> model - target = a + b - 7 * PI / 10)
    /\ (a + b <= 7 * PI / 10 -> model - target = 0)
    /\ (forall delta, a + b = 7 * PI / 10 + delta ->
          (delta > 0 -> model - target = delta)
          /\ (delta <= 0 -> model - target = 0)).
Proof.
  unfold theta_pivot_penalty.
  change (front ++ [a; b]) with (front ++ [a; b]) at 1.
  rewrite (getitem_neg_app front [a; b] 2 eq_refl), getitem_neg_last. simpl.
  unfold theta_part1_3_lim.
  destruct (Rgt_dec (a + b) (7 * PI / 10)) as [Hgt|Hle].
  - exists (a + b), (7 * PI / 10). repeat split; intros; lra.
  - exists 0, 0. repeat split; intros; lra.
Qed.

(** ** frame_selector *)

Lemma insert_sorted_perm (i : nat) (l : list nat) : Permutation (insert_sorted i l) (i :: l).
Proof.
  induction l as [|j l IH]; simpl; [reflexivity|].
  destruct (i <=? j)%nat; [reflexivity|].
  rewrite IH. apply perm_swap.
Qed.

Lemma sort_perm (l : list nat) : Permutation (sort l) l.
Proof.
  induction l as [|i l IH]; simpl; [reflexivity|].
  rewrite insert_sorted_perm. now constructor.
Qed.

Lemma insert_sorted_sorted (i : nat) (l : list nat) :
  Sorted le l -> Sorted le (insert_sorted i l).
Proof.
  induction 1 as [|j l Hs IH Hhd]; simpl; [repeat constructor|].
  destruct (Nat.leb_spec i j) as [Hij|Hij].
  - constructor; [constructor; assumption|constructor; exact Hij].
  - constructor; [exact IH|].
    destruct l as [|k l]; simpl; [constructor; lia|].
    destruct (Nat.leb_spec i k); constructor; [lia|].
    inversion Hhd; assumption.
Qed.

Lemma sort_sorted (l : list nat) : Sorted le (sort l).
Proof.
  induction l as [|i l IH]; simpl; [constructor|].
  apply insert_sorted_sorted, IH.
Qed.

Lemma strictly_increasing (l : list nat) :
  StronglySorted le l -> NoDup l -> StronglySorted lt l.
Proof.
  induction 1 as [|i l Hs IH Hall]; intros Hnd; [constructor|].
  inversion Hnd as [|? ? Hnotin Hnd']; subst.
  constructor; [apply IH, Hnd'|].
  rewrite Forall_forall in *. intros j Hj.
  specialize (Hall j Hj).
  assert (i <> j) by (intros ->; contradiction). lia.
Qed.

Lemma sort_strictly_increasing (l : list nat) : NoDup l -> StronglySorted lt (sort l).
Proof.
  intros Hnd. apply strictly_increasing.
  - apply Sorted_StronglySorted; [intros ? ? ?; apply Nat.le_trans|apply sort_sorted].
  - apply (Permutation_NoDup (Permutation_sym (sort_perm l))), Hnd.
Qed.

(** C9. When [random.sample] keeps its promise and [needed <= total_frames],
    the selector returns exactly [needed] indices of [range(total_frames)],
    strictly increasing, hence distinct; the output is a function of the state
    of the generator, so two calls from the same seed agree; and with
    [needed > total_frames] the call raises [ValueError]. *)
Theorem frame_selector_sorted_distinct `{Random} (contract : sample_contract)
    (flag : bool) (g : rng) (total_frames needed : nat) :
  ((needed <= total_frames)%nat ->
   exists l, fst (frame_selector flag g needed total_frames) = Ok l
             /\ length l = needed
             /\ StronglySorted lt l
             /\ NoDup l
             /\ Forall (fun i => (0 <= i < total_frames)%nat) l)
  /\ (forall g', g' = g ->
        frame_selector flag g' needed total_frames = frame_selector flag g needed total_frames)
  /\ ((total_frames < needed)%nat ->
      exists msg, fst (frame_selector flag g needed total_frames) = Raise (ValueError msg)).
Proof.
  destruct (contract g total_frames needed) as [Hin Hout].
  unfold frame_selector.
  destruct (sample g total_frames needed) as [drawn g'] eqn:Es. simpl in *.
  split; [|split].
  - intros Hle. destruct (Hin Hle) as (l & -> & Hlen & Hnd & Hrange).
    exists (sort l). simpl. split; [reflexivity|].
    pose proof (sort_perm l) as Hp.
    split; [rewrite (Permutation_length Hp); exact Hlen|].
    split; [apply sort_strictly_increasing, Hnd|].
    split; [apply (Permutation_NoDup (Permutation_sym Hp)), Hnd|].
    rewrite Forall_forall in *. intros i Hi.
    split; [lia|]. apply Hrange. apply (Permutation_in _ Hp), Hi.
  - intros g0 ->. rewrite Es. reflexivity.
  - intros Hgt. destruct (Hout Hgt) as (msg & ->). exists msg. reflexivity.
Qed.

Lemma toy_sample_contract : @sample_contract Toy.random.
Proof.
  intros g n k. simpl. split.
  - intros Hle. destruct (Nat.leb_spec k n) as [_|Hlt]; [|lia]. simpl.
    eexists. split; [reflexivity|].
    split; [rewrite length_map, length_seq; reflexivity|].
    split.
    + apply Injective_map_NoDup_in; [|apply seq_NoDup].
      intros i j Hi Hj E. apply in_seq in Hi, Hj.
      destruct (Nat.eq_dec n 0) as [->|Hn]; [lia|].
      assert (Hd : forall a b, (a <= b < k)%nat -> ((g + a) mod n = (g + b) mod n)%nat -> a = b).
      { intros a b Hab Eab.
        pose proof (Nat.div_mod_eq (g + a) n) as Ea.
        pose proof (Nat.div_mod_eq (g + b) n) as Eb.
        rewrite <- Eab in Eb.
        set (m := ((g + a) mod n)%nat) in *.
        set (qa := ((g + a) / n)%nat) in *.
        set (qb := ((g + b) / n)%nat) in *.
        assert (qa = qb) by nia. nia. }
      destruct (Nat.le_ge_cases i j); [apply Hd|symmetry; apply Hd]; auto; lia.
    + rewrite Forall_forall. intros i Hi. apply in_map_iff in Hi as (j & <- & Hj).
      apply in_seq in Hj. apply Nat.mod_upper_bound. lia.
  - intros Hlt. destruct (Nat.leb_spec k n) as [Hle|_]; [lia|]. simpl.
    eexists. reflexivity.
Qed.

Lemma frame_selector_sorted_distinct_witness :
  (20 <= 100)%nat
  /\ exists l, fst (@frame_selector Toy.random true 95%nat 20 100) = Ok l
               /\ length l = 20%nat
               /\ StronglySorted lt l
               /\ NoDup l
               /\ Forall (fun i => (0 <= i < 100)%nat) l.
Proof.
  split; [lia|].
  apply (@frame_selector_sorted_distinct Toy.random toy_sample_contract true 95%nat 100 20).
  lia.
Defined.

(** C10. The selector never reads [randomize_param_step_frames]: with the
    flag off it still draws from the generator.  From state 1, two frames out
    of three are frames 1 and 2, not the first two. *)
Theorem frame_selector_ignores_randomize_flag :
  (forall `(Random) (g : rng) (needed frames : nat),
      frame_selector false g needed frames = frame_selector true g needed frames)
  /\ fst (@frame_selector Toy.random false 1%nat 2 3) = Ok [1; 2]%nat
  /\ fst (@frame_selector Toy.random false 1%nat 2 3) <> Ok (seq 0 2).
Proof.
  split; [reflexivity|]. split; [reflexivity|]. simpl. discriminate.
Qed.

(** ** The constructor *)

Lemma py_in_In (name : string) (names : list string) :
  py_in name names = true <-> In name names.
Proof.
  unfold py_in. rewrite existsb_exists. split.
  - intros (n & Hn & E). apply String.eqb_eq in E. subst. exact Hn.
  - intros Hn. exists name. split; [exact Hn|apply String.eqb_refl].
Qed.

Lemma check_markers_model_from `{Biorbd} (all rest : list string) (st : option (list string)) :
  (forall name, In name rest -> In name markerNames) ->
  foldM (fun marker (self_markers_model : option (list string)) =>
           if negb (py_in marker markerNames)
           then Raise (ValueError
                         (String.append "The following marker is not in markers_model:" marker))
           else Ok (Some all))
        rest st
  = Ok (match rest with [] => st | _ :: _ => Some all end).
Proof.
  revert st. induction rest as [|name rest IH]; intros st Hall; [reflexivity|].
  simpl. replace (py_in name markerNames) with true
    by (symmetry; apply py_in_In, Hall; left; reflexivity).
  simpl. rewrite IH by (intros n Hn; apply Hall; right; exact Hn).
  destruct rest; reflexivity.
Qed.

Lemma check_markers_model_unknown `{Biorbd} (all rest : list string) (st : option (list string)) :
  (exists name, In name rest /\ ~ In name markerNames) ->
  exists msg,
    foldM (fun marker (self_markers_model : option (list string)) =>
             if negb (py_in marker markerNames)
             then Raise (ValueError
                           (String.append "The following marker is not in markers_model:" marker))
             else Ok (Some all))
          rest st
    = Raise (ValueError msg).
Proof.
  revert st. induction rest as [|name rest IH]; intros st (bad & Hin & Hbad); [contradiction|].
  simpl. destruct (py_in name markerNames) eqn:E; simpl.
  - apply IH. exists bad. split; [|exact Hbad].
    destruct Hin as [<-|Hin]; [|exact Hin].
    apply py_in_In in E. contradiction.
  - eexists. reflexivity.
Qed.

Lemma check_markers_model_Ok `{Biorbd} (l : list string) (r : option (list string)) :
  check_markers_model l = Ok r -> forall name, In name l -> In name markerNames.
Proof.
  intros E name Hin.
  destruct (py_in name markerNames) eqn:Ein; [apply py_in_In, Ein|].
  destruct (check_markers_model_unknown l l None) as (msg & Hmsg).
  - exists name. split; [exact Hin|]. intros Hn. apply py_in_In in Hn. congruence.
  - unfold check_markers_model in E. rewrite Hmsg in E. discriminate.
Qed.

(** C8, as the constructor has it.  The names the constructor checks are those
    of [markers_model], against the marker names of the model: a name of
    [markers_model] the model does not have makes the construction raise
    [ValueError] before anything else happens, and after a construction that
    succeeds every name of [markers_model] is a marker name of the model.  The
    lists [closed_loop_markers] and [tracked_markers] are stored as they are
    given. *)
Theorem init_checks_markers_model `{Biorbd} `{Random} (a : init_arguments) (g : rng) :
  ((exists name, In name (arg_markers_model a) /\ ~ In name markerNames) ->
   exists msg, __init__ a g = (Raise (ValueError msg), g))
  /\ (forall k g', __init__ a g = (Ok k, g') ->
        markers_model k = arg_markers_model a
        /\ (forall name, In name (markers_model k) -> In name markerNames)
        /\ closed_loop_markers k = arg_closed_loop_markers a
        /\ tracked_markers k = arg_tracked_markers a).
Proof.
  split.
  - intros Hbad.
    destruct (check_markers_model_unknown (arg_markers_model a) (arg_markers_model a) None Hbad)
      as (msg & Hmsg).
    exists msg. unfold __init__, init_indices, check_markers_model.
    rewrite Hmsg. reflexivity.
  - intros k g' E. unfold __init__ in E.
    destruct (init_indices a) as [[[[mm n] [ti mi]] [pi ki]]|e] eqn:Ei; [|discriminate].
    destruct (arg_nb_frames_param_step a) as [np|]; [|discriminate].
    destruct (frame_selector (arg_randomize_param_step_frames a) g np n) as [selected g2].
    injection E as E _.
    apply bind_Ok_inv in E as (frames & _ & E).
    apply bind_Ok_inv in E as (wl & _ & E).
    injection E as <-. simpl.
    unfold init_indices in Ei.
    apply bind_Ok_inv in Ei as (smm & Hcheck & Ei).
    apply bind_Ok_inv in Ei as (n' & _ & Ei).
    apply bind_Ok_inv in Ei as (mm' & Hmm & Ei).
    apply bind_Ok_inv in Ei as (ti' & _ & Ei).
    apply bind_Ok_inv in Ei as (mi' & _ & Ei).
    apply bind_Ok_inv in Ei as (pi' & _ & Ei).
    apply bind_Ok_inv in Ei as (ki' & _ & Ei).
    injection Ei as -> _ _ _ _ _.
    pose proof (check_markers_model_Ok _ _ Hcheck) as Hall.
    unfold check_markers_model in Hcheck.
    rewrite (check_markers_model_from (arg_markers_model a) (arg_markers_model a) None Hall)
      in Hcheck.
    injection Hcheck as <-.
    destruct (arg_markers_model a) as [|m0 rest] eqn:Ea; [discriminate|].
    injection Hmm as <-.
    repeat split; try reflexivity. exact Hall.
Qed.

(** C8, as the specification has it, fails: the construction goes through
    with closed-loop and tracked names that are neither in [markers_model] nor
    markers of the model. *)
Lemma init_accepts_unknown_closed_loop_names :
  In "Ghost5" (arg_closed_loop_markers Toy.ghost_arguments)
  /\ In "Ghost" (arg_tracked_markers Toy.ghost_arguments)
  /\ ~ In "Ghost5" (arg_markers_model Toy.ghost_arguments)
  /\ ~ In "Ghost" (arg_markers_model Toy.ghost_arguments)
  /\ ~ In "Ghost5" (@markerNames Toy.biorbd)
  /\ ~ In "Ghost" (@markerNames Toy.biorbd)
  /\ exists k, @__init__ Toy.biorbd Toy.random Toy.ghost_arguments 0%nat = (Ok k, 1%nat)
               /\ closed_loop_markers k = ["Ghost5"; "Ghost6"]
               /\ tracked_markers k = ["M0"; "Ghost"; "Ghost5"; "Ghost6"].
Proof.
  split; [simpl; tauto|]. split; [simpl; tauto|].
  assert (Hno : forall s, negb (py_in s ["M0"; "Table:Table5"; "Table:Table6"]) = true ->
                          ~ In s ["M0"; "Table:Table5"; "Table:Table6"]).
  { intros s E Hin. apply py_in_In in Hin. rewrite Hin in E. discriminate. }
  repeat (split; [apply Hno; reflexivity|]).
  eexists. split; [reflexivity|]. split; reflexivity.
Qed.

(** The constructor builds the object of the small model from its arguments. *)
Lemma toy_init : @__init__ Toy.biorbd Toy.random Toy.arguments 0%nat = (Ok Toy.kcc, 1%nat).
Proof. reflexivity. Qed.

(** ** step_2: what a frame does with the answer of the optimizer *)

Section FrameStep.

Context `{Biorbd} `{Jacobians} `{Optimizers}.
Variable self : KinematicChainCalibration.

(** C7. In a frame of the IK step, once the warm start is read:
    - with the constrained backend, an answer that reports no success makes
      the frame raise, and the exception is the [RuntimeError] of the check as
      soon as the lines before the check evaluate; an answer that reports
      success goes through the same lines with nothing raised by the check;
    - with the least-squares backend, whatever the optimizer returns is
      written to the pose matrix and the frame goes on to the residual: the
      flag [success] of the answer is not read. *)
Theorem step_2_frame_failure_semantics
    (p : option vec) (bounds_without_p : vec * vec)
    (index_table_markers index_wu_markers : list nat) (f : nat) (st : step_2_locals)
    (x0 : vec) (r : OptimizeResult) :
  warm_start self (loc_q_output st) f = Ok x0 ->
  (ik_solver self = "ipopt" ->
   call_minimize_ipopt self p bounds_without_p index_table_markers index_wu_markers f x0 = Ok r ->
   let lines_before_check :=
     let* q_output' :=
       set_rows_at (loc_q_output st) (q_kinematic_index self) f (opt_x r) in
     let* table_markers := markers_at (markers self) index_table_markers f in
     let* thorax_markers := markers_at (markers self) index_wu_markers f in
     let* jacobian :=
       ik_gradient self (opt_x r) p table_markers thorax_markers x0 (weights_ik self) in
     Ok (q_output', JacGradient jacobian) in
   (opt_success r = false ->
    is_ok (step_2_frame self p bounds_without_p index_table_markers index_wu_markers f st)
    = false
    /\ (is_ok lines_before_check = true ->
        step_2_frame self p bounds_without_p index_table_markers index_wu_markers f st
        = Raise (RuntimeError "This optimization failed")))
   /\ (opt_success r = true ->
       step_2_frame self p bounds_without_p index_table_markers index_wu_markers f st
       = let* solved := lines_before_check in
         let* espilon_markers := espilon_of_frame self (fst solved) index_table_markers f in
         Ok {| loc_q_output := fst solved;
               loc_espilon_markers := Some espilon_markers;
               loc_jacobian := Some (snd solved) |}))
  /\ (ik_solver self = "leastsquare" ->
      call_least_squares self p bounds_without_p index_table_markers index_wu_markers f x0 = Ok r ->
      step_2_frame self p bounds_without_p index_table_markers index_wu_markers f st
      = let* q_output' :=
          set_rows_at (loc_q_output st) (q_kinematic_index self) f (opt_x r) in
        let* espilon_markers := espilon_of_frame self q_output' index_table_markers f in
        Ok {| loc_q_output := q_output';
              loc_espilon_markers := Some espilon_markers;
              loc_jacobian := Some (JacMatrix (opt_jac r)) |}).
Proof.
  intros Hx0. split.
  - intros Hsolver Hcall lines. subst lines.
    unfold step_2_frame. rewrite Hx0. cbn [bind]. rewrite Hsolver. cbn [String.eqb Ascii.eqb Bool.eqb].
    rewrite Hcall. cbn [bind]. unfold accept_ipopt.
    destruct (set_rows_at (loc_q_output st) (q_kinematic_index self) f (opt_x r))
      as [q_output'|e1]; cbn [bind].
    2:{ split; [intros _; split; [reflexivity|discriminate]|intros _; reflexivity]. }
    destruct (markers_at (markers self) index_table_markers f) as [tm|e2]; cbn [bind].
    2:{ split; [intros _; split; [reflexivity|discriminate]|intros _; reflexivity]. }
    destruct (markers_at (markers self) index_wu_markers f) as [th|e3]; cbn [bind].
    2:{ split; [intros _; split; [reflexivity|discriminate]|intros _; reflexivity]. }
    destruct (ik_gradient self (opt_x r) p tm th x0 (weights_ik self)) as [jac|e4]; cbn [bind].
    2:{ split; [intros _; split; [reflexivity|discriminate]|intros _; reflexivity]. }
    split; intros ->; cbn [Bool.eqb bind fst snd is_ok].
    + split; [reflexivity|intros _; reflexivity].
    + reflexivity.
  - intros Hsolver Hcall.
    unfold step_2_frame. rewrite Hx0. cbn [bind]. rewrite Hsolver. cbn [String.eqb Ascii.eqb Bool.eqb].
    rewrite Hcall. cbn [bind]. unfold accept_least_squares.
    destruct (set_rows_at (loc_q_output st) (q_kinematic_index self) f (opt_x r))
      as [q_output'|e1]; reflexivity.
Qed.

End FrameStep.

Lemma step_2_frame_failure_semantics_witness :
  (warm_start Toy.kcc (loc_q_output Toy.first_frame) 0 = Ok [0; 0]
   /\ ik_solver Toy.kcc = "leastsquare"
   /\ @call_least_squares Toy.biorbd Toy.jacobians Toy.optimizers Toy.kcc
        (Some []) ([-10; -10], [10; 10]) [1; 2]%nat [0%nat] 0 [0; 0]
      = Ok (Toy.not_converged [0; 0])
   /\ is_ok (@step_2_frame Toy.biorbd Toy.jacobians Toy.optimizers Toy.kcc
               (Some []) ([-10; -10], [10; 10]) [1; 2]%nat [0%nat] 0 Toy.first_frame)
      = true)
  /\ (warm_start Toy.kcc_ipopt (loc_q_output Toy.first_frame) 0 = Ok [0; 0]
      /\ ik_solver Toy.kcc_ipopt = "ipopt"
      /\ @call_minimize_ipopt Toy.biorbd Toy.jacobians Toy.optimizers Toy.kcc_ipopt
           (Some []) ([-10; -10], [10; 10]) [1; 2]%nat [0%nat] 0 [0; 0]
         = Ok (Toy.not_converged [0; 0])
      /\ opt_success (Toy.not_converged [0; 0]) = false
      /\ is_ok (@step_2_frame Toy.biorbd Toy.jacobians Toy.optimizers Toy.kcc_ipopt
                  (Some []) ([-10; -10], [10; 10]) [1; 2]%nat [0%nat] 0 Toy.first_frame)
         = false).
Proof.
  split.
  - split; [reflexivity|]. split; [reflexivity|]. split; [reflexivity|].
    rewrite (proj2 (@step_2_frame_failure_semantics Toy.biorbd Toy.jacobians Toy.optimizers
                      Toy.kcc (Some []) ([-10; -10], [10; 10]) [1; 2]%nat [0%nat] 0
                      Toy.first_frame [0; 0] (Toy.not_converged [0; 0]) eq_refl)
                   eq_refl eq_refl).
    reflexivity.
  - split; [reflexivity|]. split; [reflexivity|]. split; [reflexivity|]. split; [reflexivity|].
    apply (proj1 (@step_2_frame_failure_semantics Toy.biorbd Toy.jacobians Toy.optimizers
                    Toy.kcc_ipopt (Some []) ([-10; -10], [10; 10]) [1; 2]%nat [0%nat] 0
                    Toy.first_frame [0; 0] (Toy.not_converged [0; 0]) eq_refl)
                 eq_refl eq_refl);
      reflexivity.
Defined.

(** ** step_2: the residual it returns *)

Section Residual.

Context `{Biorbd} `{Jacobians} `{Optimizers}.
Variable self : KinematicChainCalibration.

Lemma step_2_frame_residual (p : option vec) (bounds_without_p : vec * vec)
    (index_table_markers index_wu_markers : list nat) (f : nat) (st st' : step_2_locals) :
  step_2_frame self p bounds_without_p index_table_markers index_wu_markers f st = Ok st' ->
  exists eps j,
    loc_espilon_markers st' = Some eps /\ loc_jacobian st' = Some j
    /\ espilon_of_frame self (loc_q_output st') index_table_markers f = Ok eps.
Proof.
  unfold step_2_frame. intros E.
  apply bind_Ok_inv in E as (x0 & _ & E).
  apply bind_Ok_inv in E as (solved & _ & E).
  apply bind_Ok_inv in E as (eps & Heps & E).
  injection E as <-. exists eps, (snd solved). simpl. auto.
Qed.

(** What [step_2] returns as residual is the residual of the last frame, at
    the pose matrix it returns; the frames before it leave no trace. *)
Lemma step_2_residual_is_last_frame (p : option vec) (bounds : vec * vec)
    (q_output q_out : matrix) (eps : R) (j : jacobian_used) :
  step_2 self p bounds q_output = Ok (q_out, eps, j) ->
  (0 < nb_frames_ik_step self)%nat
  /\ espilon_of_frame self q_out
       (indices_where (str_contains "Table") (markers_model self) 0)
       (nb_frames_ik_step self - 1) = Ok eps.
Proof.
  unfold step_2. intros E.
  apply bind_Ok_inv in E as (bmin & _ & E).
  apply bind_Ok_inv in E as (bmax & _ & E).
  apply bind_Ok_inv in E as (st & Hfold & E).
  destruct (nb_frames_ik_step self) as [|n].
  - simpl in Hfold. injection Hfold as <-. discriminate.
  - rewrite seq_S, foldM_app in Hfold. simpl in Hfold.
    apply bind_Ok_inv in Hfold as (st1 & _ & Hlast).
    apply bind_Ok_inv in Hlast as (st2 & Hlast & E2). injection E2 as ->.
    apply step_2_frame_residual in Hlast as (eps' & j' & He & Hj & Hres).
    rewrite He, Hj in E. injection E as <- <- <-.
    split; [lia|]. replace (S n - 1)%nat with n by lia. exact Hres.
Qed.

End Residual.

(** C1, at a trial of two frames.  The body marker is off by 1 in the first
    frame and exact in the second; [step_2] returns the residual 0, that of the
    second frame, where the sum over the frames of the trial is 1. *)
Theorem step_2_residual_forgets_earlier_frames :
  @step_2 Toy.biorbd Toy.jacobians Toy.optimizers Toy.kcc
     (Some []) (@get_range_q Toy.biorbd) (zeros2 2 2)
  = Ok ([[0; 0]; [0; 0]], 0, JacMatrix [])
  /\ @espilon_of_frame Toy.biorbd Toy.kcc [[0; 0]; [0; 0]] [1; 2]%nat 0 = Ok 1
  /\ @espilon_of_frame Toy.biorbd Toy.kcc [[0; 0]; [0; 0]] [1; 2]%nat 1 = Ok 0
  /\ @spec_epsilon_all_frames Toy.biorbd Toy.kcc [[0; 0]; [0; 0]] [1; 2]%nat = Ok 1.
Proof.
  split; [|split; [|split]].
  - unfold step_2. cbn -[norm pow]. rewrite !norm_pow2. cbn. repeat f_equal. lra.
  - unfold espilon_of_frame. cbn -[norm pow]. rewrite !norm_pow2. cbn. f_equal. lra.
  - unfold espilon_of_frame. cbn -[norm pow]. rewrite !norm_pow2. cbn. f_equal. lra.
  - unfold spec_epsilon_all_frames, espilon_of_frame. cbn -[norm pow].
    rewrite !norm_pow2. cbn. f_equal. lra.
Qed.

(** ** objective_function_param *)

Lemma PI_above_3 : 3 < PI.
Proof. pose proof PI2_3_2. lra. Qed.

Lemma theta_pivot_penalty_below (front : vec) (a b : R) :
  a + b <= 2 -> theta_pivot_penalty (front ++ [a; b]) = Ok ([0], [0]).
Proof.
  intros Hs. unfold theta_pivot_penalty.
  rewrite (getitem_neg_app front [a; b] 2 eq_refl), getitem_neg_last. simpl.
  unfold theta_part1_3_lim. pose proof PI_above_3.
  destruct (Rgt_dec (a + b) (7 * PI / 10)); [lra|reflexivity].
Qed.

Lemma toy_param_first_frame :
  @param_frame Toy.biorbd Toy.kcc Toy.sampled_poses Toy.xp_markers [0%nat] 0 Toy.param_before
  = Ok Toy.param_after_first.
Proof.
  unfold param_frame. cbn -[norm pow theta_pivot_penalty].
  rewrite (theta_pivot_penalty_below [] 1 0 ltac:(lra) : theta_pivot_penalty [1; 0] = _).
  cbn -[norm pow]. rewrite !norm_pow2. cbn. unfold Toy.param_after_first.
  repeat f_equal; lra.
Qed.

Lemma toy_param_second_frame :
  @param_frame Toy.biorbd Toy.kcc Toy.sampled_poses Toy.xp_markers [0%nat] 1
     Toy.param_after_first
  = Ok Toy.param_after_second.
Proof.
  unfold param_frame. cbn -[norm pow theta_pivot_penalty].
  rewrite (theta_pivot_penalty_below [] 2 0 ltac:(lra) : theta_pivot_penalty [2; 0] = _).
  cbn -[norm pow]. rewrite !norm_pow2. cbn. unfold Toy.param_after_second.
  repeat f_equal; lra.
Qed.

(** C3, at two sampled frames with the weight on the continuity block alone.
    The first frame is at distance 1 of the initial pose and the second at
    distance 1 of the first, yet the objective is 0: the continuity term of the
    first frame is overwritten by that of the second, and the second is
    compared with the array [Q] itself, which [x0] names since [x0 = Q]. *)
Theorem objective_function_param_loses_continuity :
  @objective_function_param Toy.biorbd Toy.kcc [] Toy.sampled_poses [0; 0] Toy.xp_markers
     [0; 0; 0; 1; 0]
  = Ok 0
  /\ @param_frame Toy.biorbd Toy.kcc Toy.sampled_poses Toy.xp_markers [0%nat] 0 Toy.param_before
     = Ok Toy.param_after_first
  /\ loc_Q Toy.param_after_first = [1; 0]
  /\ loc_q_continuity Toy.param_after_first = Some 1
  /\ @param_frame Toy.biorbd Toy.kcc Toy.sampled_poses Toy.xp_markers [0%nat] 1
       Toy.param_after_first
     = Ok Toy.param_after_second
  /\ loc_Q Toy.param_after_second = [2; 0]
  /\ loc_q_continuity Toy.param_after_second = Some 0.
Proof.
  split; [|repeat split; auto using toy_param_first_frame, toy_param_second_frame].
  unfold objective_function_param. cbn -[param_frame].
  change (param_frame Toy.kcc Toy.sampled_poses Toy.xp_markers [0%nat] 0 _)
    with (@param_frame Toy.biorbd Toy.kcc Toy.sampled_poses Toy.xp_markers [0%nat] 0
            Toy.param_before).
  rewrite toy_param_first_frame. cbn -[param_frame].
  rewrite toy_param_second_frame. cbn. f_equal. lra.
Qed.

(** ** solve: the alternation loop *)

Section Loop.

Context `{Biorbd} `{Jacobians} `{Optimizers}.
Variable self : KinematicChainCalibration.

Lemma solve_body_pair (st st' : solve_locals) :
  solve_body self st = Ok st' ->
  epsilon_markers_n_minus_1 st' = epsilon_markers_n st
  /\ delta_epsilon_markers st' = epsilon_markers_n st' - epsilon_markers_n_minus_1 st'
  /\ iteration st' = S (iteration st)
  /\ exists param_opt guess q_output jacobian_x,
       opt_x param_opt = loc_p st'
       /\ step_2 (with_initial_guess self guess) (Some (loc_p st')) get_range_q q_output
          = Ok (arr_q_output st', epsilon_markers_n st', jacobian_x).
Proof.
  unfold solve_body. intros E.
  apply bind_Ok_inv in E as (q_first & _ & E).
  apply bind_Ok_inv in E as (markers_xp & _ & E).
  apply bind_Ok_inv in E as (q0 & _ & E).
  apply bind_Ok_inv in E as (param_opt & _ & E).
  apply bind_Ok_inv in E as (written & _ & E).
  apply bind_Ok_inv in E as (q_output & _ & E).
  apply bind_Ok_inv in E as (second_ik & Hik & E).
  injection E as <-. simpl.
  repeat split.
  exists param_opt, (if guess_is_q_output st then q_output else fst written), q_output,
    (snd second_ik).
  split; [reflexivity|].
  rewrite Hik. destruct second_ik as [[q_out eps] j]. reflexivity.
Qed.

Lemma solve_loop_Returned (threshold : R) (fuel : nat) (st st' : solve_locals) :
  solve_loop self threshold fuel st = Returned st' ->
  Rabs (delta_epsilon_markers st') <= threshold.
Proof.
  revert st. induction fuel as [|fuel IH]; intros st; simpl;
    destruct (Rgt_dec (Rabs (delta_epsilon_markers st)) threshold) as [Hgt|Hle];
    try discriminate.
  - intros E. injection E as <-. lra.
  - destruct (solve_body self st) as [st1|e]; [apply IH|discriminate].
  - intros E. injection E as <-. lra.
Qed.

Lemma solve_loop_invariant (P : solve_locals -> Prop) (threshold : R) :
  (forall st st', P st -> solve_body self st = Ok st' -> P st') ->
  forall fuel st st', P st -> solve_loop self threshold fuel st = Returned st' -> P st'.
Proof.
  intros Hstep. induction fuel as [|fuel IH]; intros st st' HP; simpl;
    destruct (Rgt_dec (Rabs (delta_epsilon_markers st)) threshold); try discriminate.
  - intros E. injection E as <-. exact HP.
  - destruct (solve_body self st) as [st1|e] eqn:Eb; [|discriminate].
    apply IH. apply (Hstep st st1 HP Eb).
  - intros E. injection E as <-. exact HP.
Qed.

Lemma solve_init_delta (st0 : solve_locals) :
  solve_init self = Ok st0 ->
  delta_epsilon_markers st0 = epsilon_markers_n st0 - epsilon_markers_n_minus_1 st0.
Proof.
  unfold solve_init. intros E.
  apply bind_Ok_inv in E as (guess & _ & E).
  apply bind_Ok_inv in E as (first_ik & _ & E).
  apply bind_Ok_inv in E as (q0 & _ & E).
  apply bind_Ok_inv in E as (bmin & _ & E).
  apply bind_Ok_inv in E as (bmax & _ & E).
  apply bind_Ok_inv in E as (p & _ & E).
  injection E as <-. reflexivity.
Qed.

(** The test of the loop of [solve], on its locals: the loop is governed by
    the local [delta_epsilon_markers] and by nothing else:
    - it is left, with the locals as they are, when [|delta| <= threshold];
    - whenever [|delta| > threshold] one more parameter step and IK step are
      run, whatever the residual itself is, and the run goes on from the locals
      they leave, or stops on the exception they raise;
    - after such a pair, [delta] is the residual the IK step has just returned
      minus the residual before the pair;
    - hence a loop that is left has [|delta| <= threshold], and so has a call
      of [solve] that returns, after at least one pair. *)
Theorem solve_loop_delta_criterion (threshold : R) :
  (forall fuel st,
      Rabs (delta_epsilon_markers st) <= threshold ->
      solve_loop self threshold fuel st = Returned st)
  /\ (forall fuel st,
         Rabs (delta_epsilon_markers st) > threshold ->
         solve_loop self threshold (S fuel) st
         = match solve_body self st with
           | Ok st' => solve_loop self threshold fuel st'
           | Raise e => Raised e
           end)
  /\ (forall st st',
         solve_body self st = Ok st' ->
         epsilon_markers_n_minus_1 st' = epsilon_markers_n st
         /\ delta_epsilon_markers st' = epsilon_markers_n st' - epsilon_markers_n_minus_1 st'
         /\ exists guess q_output jacobian_x,
              step_2 (with_initial_guess self guess) (Some (loc_p st')) get_range_q q_output
              = Ok (arr_q_output st', epsilon_markers_n st', jacobian_x))
  /\ (forall fuel st st',
         solve_loop self threshold fuel st = Returned st' ->
         Rabs (delta_epsilon_markers st') <= threshold)
  /\ (forall fuel q_out p jacobians,
         solve self threshold fuel = Returned (q_out, p, jacobians) ->
         exists st,
           Rabs (epsilon_markers_n st - epsilon_markers_n_minus_1 st) <= threshold
           /\ (0 < iteration st)%nat
           /\ q_out = arr_q_output st /\ p = loc_p st).
Proof.
  split; [|split; [|split; [|split]]].
  - intros fuel st Hle. destruct fuel; simpl;
      destruct (Rgt_dec (Rabs (delta_epsilon_markers st)) threshold); try lra; reflexivity.
  - intros fuel st Hgt. simpl.
    destruct (Rgt_dec (Rabs (delta_epsilon_markers st)) threshold); [reflexivity|lra].
  - intros st st' E. apply solve_body_pair in E as (Hprev & Hdelta & _ & po & g & qo & j & _ & Hik).
    split; [exact Hprev|]. split; [exact Hdelta|]. exists g, qo, j. exact Hik.
  - apply solve_loop_Returned.
  - intros fuel q_out p jacobians E. unfold solve in E.
    destruct (solve_init self) as [st0|e] eqn:Einit; [|discriminate].
    destruct (solve_loop self threshold fuel st0) as [st|e|] eqn:Eloop; try discriminate.
    destruct (iteration st =? 0)%nat eqn:Eit; [discriminate|].
    injection E as <- <- <-. exists st.
    apply Nat.eqb_neq in Eit.
    assert (Hd : delta_epsilon_markers st = epsilon_markers_n st - epsilon_markers_n_minus_1 st).
    { apply (solve_loop_invariant
               (fun s => delta_epsilon_markers s
                         = epsilon_markers_n s - epsilon_markers_n_minus_1 s)
               threshold) with (fuel := fuel) (st := st0).
      - intros s s' _ Eb. apply solve_body_pair in Eb. tauto.
      - apply solve_init_delta, Einit.
      - exact Eloop. }
    rewrite <- Hd. split; [apply (solve_loop_Returned threshold fuel st0 st Eloop)|].
    split; [lia|]. split; reflexivity.
Qed.

End Loop.

(** ** The layout of the residual and of the Jacobian of the IK step *)

Lemma zip_with_length (op : R -> R -> R) (a b : vec) :
  length a = length b -> length (zip_with op a b) = length a.
Proof.
  intros E. unfold zip_with. rewrite length_map, length_combine, <- E. apply Nat.min_id.
Qed.

Lemma zip_with_app (op : R -> R -> R) (a1 a2 b1 b2 : vec) :
  length a1 = length b1 ->
  zip_with op (a1 ++ a2) (b1 ++ b2) = zip_with op a1 b1 ++ zip_with op a2 b2.
Proof.
  unfold zip_with. revert b1. induction a1 as [|x a1 IH]; intros [|y b1] E; try discriminate.
  - reflexivity.
  - simpl. f_equal. apply IH. simpl in E. lia.
Qed.

Lemma zip_with_repeat (d : vec) (w : R) :
  zip_with Rmult d (repeat w (length d)) = map (fun v => v * w) d.
Proof.
  unfold zip_with. induction d as [|v d IH]; simpl; [reflexivity|]. f_equal. exact IH.
Qed.

Lemma broadcast2_same_length (op : R -> R -> R) (a b : vec) :
  length a = length b -> broadcast2 op a b = Ok (zip_with op a b).
Proof. intros E. unfold broadcast2. rewrite E, Nat.eqb_refl. reflexivity. Qed.

Lemma penalty_q_open_loop_shape (x q_init : vec) (block : vec * vec) :
  penalty_q_open_loop x q_init = Ok block ->
  fst block = x /\ length (snd block) = length x.
Proof.
  unfold penalty_q_open_loop.
  assert (G : forall (l : vec) (i : nat) (acc block : vec * vec),
             foldM (fun iv acc =>
                      let* target := getitem q_init (fst iv) in
                      Ok (fst acc ++ [snd iv], snd acc ++ [target]))
                   (combine (seq i (length l)) l) acc = Ok block ->
             fst block = fst acc ++ l
             /\ length (snd block) = (length (snd acc) + length l)%nat).
  { induction l as [|v l IH]; intros i acc blk E; simpl in E.
    - injection E as <-. rewrite app_nil_r. simpl. split; [reflexivity|lia].
    - apply bind_Ok_inv in E as (acc' & Hacc & E).
      apply bind_Ok_inv in Hacc as (target & _ & Hacc). injection Hacc as <-.
      apply IH in E as [E1 E2]. cbn [fst snd] in E1, E2.
      rewrite length_app in E2. cbn [length] in E2 |- *.
      split; [rewrite E1, <- app_assoc; reflexivity|]. rewrite E2. unfold vec. lia. }
  intros E. apply G in E. simpl in E. exact E.
Qed.

Lemma theta_pivot_penalty_shape (q : vec) (block : vec * vec) :
  theta_pivot_penalty q = Ok block ->
  length (fst block) = 1%nat /\ length (snd block) = 1%nat.
Proof.
  unfold theta_pivot_penalty. intros E.
  apply bind_Ok_inv in E as (q2 & _ & E).
  apply bind_Ok_inv in E as (q1 & _ & E).
  destruct (Rgt_dec (q2 + q1) theta_part1_3_lim); injection E as <-; split; reflexivity.
Qed.

Lemma concatenate_Ok (blocks : list matrix) (rows : matrix) :
  concatenate blocks = Ok rows -> rows = concat blocks.
Proof.
  unfold concatenate. destruct (concat blocks) as [|r rest]; [intros E; injection E as <-; reflexivity|].
  destruct (forallb _ _); [intros E; injection E as <-; reflexivity|discriminate].
Qed.

(** The constructor lays the weights out block by block, in the order closed
    loop, open loop, continuity, pivot, rotation. *)
Lemma init_weight_lists_layout (a : init_arguments) (wp0 wp1 wp2 wp3 wp4 : R) (wp_rest : vec)
    (wi0 wi1 wi2 wi3 wi4 : R) (wi_rest : vec) :
  arg_weights_param a = wp0 :: wp1 :: wp2 :: wp3 :: wp4 :: wp_rest ->
  arg_weights_ik a = wi0 :: wi1 :: wi2 :: wi3 :: wi4 :: wi_rest ->
  let nb_closed := (length (arg_closed_loop_markers a) * 3 - 1)%nat in
  let nb_open :=
    (length (filter (fun i => negb (py_in i (arg_closed_loop_markers a))) (arg_tracked_markers a))
     * 3)%nat in
  let nb_continuity := (length (arg_q_ik_initial_guess a) - length (arg_parameter_dofs a))%nat in
  init_weight_lists a
  = Ok (replicate nb_closed wp0 ++ replicate nb_open wp1 ++ replicate nb_continuity wp3
          ++ [wp2] ++ replicate 5 wp4,
        replicate nb_closed wi0 ++ replicate nb_open wi1 ++ replicate nb_continuity wi3
          ++ [wi2] ++ replicate 5 wi4).
Proof.
  intros Hp Hi. unfold init_weight_lists. rewrite Hp, Hi. reflexivity.
Qed.

Section Layout.

Context `{Biorbd} `{Jacobians}.
Variable self : KinematicChainCalibration.

(** The residual and the Jacobian for a weight list that is laid out as the
    blocks are.  Take a candidate pose at which the penalties evaluate, the
    model and target sides of the marker blocks having the same length, and an
    object whose weight list gives each block as many entries as the block has
    components.  Then the residual handed to the solver is the five blocks
    [closed loop, open loop, continuity, pivot, rotation] in that order, each
    element scaled by the weight of its block, and [ik_jacobian] is the
    concatenation, in the same order, of the Jacobians of the blocks, each
    scaled by the same weight. *)
Lemma ik_residual_of_weight_layout
    (x : vec) (p : option vec) (table_markers thorax_markers : matrix) (q_init new_x : vec)
    (table thorax q_continuity pivot : vec * vec)
    (weights weight_list : vec) (w0 w1 w2 w3 w4 : R) (w_rest : vec) :
  full_pose self x p = Ok new_x ->
  penalty_table_markers self (flatten_markers (biorbd_markers new_x)) table_markers = Ok table ->
  penalty_open_loop_markers self (flatten_markers (biorbd_markers new_x)) thorax_markers
  = Ok thorax ->
  penalty_q_open_loop x q_init = Ok q_continuity ->
  theta_pivot_penalty new_x = Ok pivot ->
  length (fst table) = length (snd table) ->
  length (fst thorax) = length (snd thorax) ->
  (ik_solver self = "leastsquare"
   /\ weights = weights_param self /\ weight_list = weight_list_param self)
  \/ (ik_solver self = "ipopt"
      /\ weights = weights_ik self /\ weight_list = weight_list_ik self) ->
  weights = w0 :: w1 :: w2 :: w3 :: w4 :: w_rest ->
  weight_list
  = replicate (length (fst table)) w0 ++ replicate (length (fst thorax)) w1
      ++ replicate (length x) w3 ++ [w2] ++ replicate 5 w4 ->
  objective_ik_list self x p table_markers thorax_markers q_init
  = Ok (Some (weighted_block w0 table ++ weighted_block w1 thorax
                ++ weighted_block w3 q_continuity ++ weighted_block w2 pivot
                ++ weighted_block w4 (penalty_rotation_matrix new_x)))
  /\ ik_jacobian self x weights
     = concatenate
         [ mscale w0 (marker_jacobian_table x (table_markers_idx self) (q_parameter_index self));
           mscale w1 (marker_jacobian_model x (model_markers_idx self) (q_parameter_index self));
           mscale w3 (jacobian_q_continuity x (q_parameter_index self));
           mscale w2 (marker_jacobian_theta x (q_parameter_index self));
           mscale w4 (rotation_matrix_jacobian x (segment_id_with_vertical_z self)
                                               (q_parameter_index self)) ]
  /\ (forall jacobian,
         ik_jacobian self x weights = Ok jacobian ->
         jacobian
         = mscale w0 (marker_jacobian_table x (table_markers_idx self) (q_parameter_index self))
             ++ mscale w1 (marker_jacobian_model x (model_markers_idx self) (q_parameter_index self))
             ++ mscale w3 (jacobian_q_continuity x (q_parameter_index self))
             ++ mscale w2 (marker_jacobian_theta x (q_parameter_index self))
             ++ mscale w4 (rotation_matrix_jacobian x (segment_id_with_vertical_z self)
                                                    (q_parameter_index self))).
Proof.
  intros Hpose Htable Hthorax Hcont Hpivot Hlt Hlo Hsolver Hweights Hlist.
  assert (Hjac : ik_jacobian self x weights
     = concatenate
         [ mscale w0 (marker_jacobian_table x (table_markers_idx self) (q_parameter_index self));
           mscale w1 (marker_jacobian_model x (model_markers_idx self) (q_parameter_index self));
           mscale w3 (jacobian_q_continuity x (q_parameter_index self));
           mscale w2 (marker_jacobian_theta x (q_parameter_index self));
           mscale w4 (rotation_matrix_jacobian x (segment_id_with_vertical_z self)
                                               (q_parameter_index self)) ]).
  { unfold ik_jacobian. rewrite Hweights. reflexivity. }
  split; [|split; [exact Hjac|]].
  2:{ intros jacobian E. rewrite Hjac in E. apply concatenate_Ok in E.
      rewrite E. simpl. rewrite app_nil_r. reflexivity. }
  destruct (penalty_q_open_loop_shape _ _ _ Hcont) as [Hc1 Hc2].
  destruct (theta_pivot_penalty_shape _ _ Hpivot) as [Hp1 Hp2].
  unfold objective_ik_list.
  rewrite Hpose. cbn [bind]. rewrite Htable. cbn [bind]. rewrite Hthorax. cbn [bind].
  rewrite Hcont. cbn [bind]. rewrite Hpivot. cbn [bind].
  set (rot := penalty_rotation_matrix new_x).
  assert (Hr : length (fst rot) = 5%nat /\ length (snd rot) = 5%nat) by (split; reflexivity).
  destruct Hr as [Hr1 Hr2].
  assert (Hsub : np_sub (fst table ++ fst thorax ++ fst q_continuity ++ fst pivot ++ fst rot)
                        (snd table ++ snd thorax ++ snd q_continuity ++ snd pivot ++ snd rot)
                 = Ok (zip_with Rminus (fst table) (snd table)
                         ++ zip_with Rminus (fst thorax) (snd thorax)
                         ++ zip_with Rminus (fst q_continuity) (snd q_continuity)
                         ++ zip_with Rminus (fst pivot) (snd pivot)
                         ++ zip_with Rminus (fst rot) (snd rot))).
  { unfold np_sub. rewrite broadcast2_same_length.
    - rewrite !zip_with_app; [reflexivity| | | |]; congruence.
    - rewrite !length_app. congruence. }
  rewrite Hsub. cbn [bind].
  set (dt := zip_with Rminus (fst table) (snd table)).
  set (d_o := zip_with Rminus (fst thorax) (snd thorax)).
  set (dc := zip_with Rminus (fst q_continuity) (snd q_continuity)).
  set (dp := zip_with Rminus (fst pivot) (snd pivot)).
  set (dr := zip_with Rminus (fst rot) (snd rot)).
  assert (Lt : length dt = length (fst table)) by (apply zip_with_length; exact Hlt).
  assert (Lo : length d_o = length (fst thorax)) by (apply zip_with_length; exact Hlo).
  assert (Lc : length dc = length x) by (unfold dc; rewrite zip_with_length; congruence).
  assert (Lp : length dp = 1%nat) by (unfold dp; rewrite zip_with_length; congruence).
  assert (Lr : length dr = 5%nat) by reflexivity.
  assert (Hmul : np_mul (dt ++ d_o ++ dc ++ dp ++ dr) weight_list
                 = Ok (weighted_block w0 table ++ weighted_block w1 thorax
                         ++ weighted_block w3 q_continuity ++ weighted_block w2 pivot
                         ++ weighted_block w4 rot)).
  { rewrite Hlist. unfold np_mul, replicate. rewrite broadcast2_same_length.
    - rewrite <- Lt, <- Lo, <- Lc, <- Lr.
      change [w2] with (repeat w2 1). rewrite <- Lp.
      rewrite !zip_with_app by (rewrite repeat_length; reflexivity).
      rewrite !zip_with_repeat. reflexivity.
    - rewrite !length_app, !repeat_length, Lt, Lo, Lc, Lp, Lr. reflexivity. }
  destruct Hsolver as [(Hs & _ & Hwl)|(Hs & _ & Hwl)]; rewrite Hs; cbn [String.eqb Ascii.eqb Bool.eqb];
    rewrite <- Hwl, Hmul; reflexivity.
Qed.

End Layout.

(** ** A run of solve on the small model *)

Lemma where_zero_zero (r : R) (v : vec) (i : nat) :
  r = 0 -> where_zero (r :: v) i = i :: where_zero v (S i).
Proof. intros E. simpl. destruct (Req_dec_T r 0); [reflexivity|contradiction]. Qed.

Lemma toy_solve_init :
  @solve_init Toy.biorbd Toy.jacobians Toy.optimizers Toy.kcc = Ok Toy.solve_start.
Proof.
  unfold solve_init. cbn -[where_zero step_2].
  rewrite !where_zero_zero by lra. cbn -[step_2].
  unfold step_2. cbn -[norm pow]. reflexivity.
Qed.

Lemma toy_solve_first_pair :
  @solve_body Toy.biorbd Toy.jacobians Toy.optimizers Toy.kcc Toy.solve_start
  = Ok Toy.solve_after_first.
Proof.
  unfold solve_body. cbn -[step_2 norm pow]. unfold step_2. cbn -[norm pow].
  rewrite !norm_pow2. cbn. unfold Toy.solve_after_first, Toy.seeded, Toy.mid.
  repeat f_equal; lra.
Qed.

Lemma toy_solve_second_pair :
  @solve_body Toy.biorbd Toy.jacobians Toy.optimizers Toy.kcc Toy.solve_after_first
  = Ok Toy.solve_after_second.
Proof.
  unfold solve_body. cbn -[step_2 norm pow]. unfold step_2. cbn -[norm pow].
  rewrite !norm_pow2. cbn. unfold Toy.solve_after_second, Toy.seeded, Toy.mid.
  repeat f_equal; lra.
Qed.

(** On the small model the first pair already brings the residual to 0, and
    the loop goes on all the same, since the residual has moved by 10; the
    second pair leaves it at 0 and the loop is left.  One pair is not enough. *)
Lemma solve_loop_delta_criterion_witness :
  Rabs (delta_epsilon_markers Toy.solve_start) > 5e-5
  /\ epsilon_markers_n Toy.solve_after_first = 0
  /\ Rabs (delta_epsilon_markers Toy.solve_after_first) > 5e-5
  /\ Rabs (delta_epsilon_markers Toy.solve_after_second) <= 5e-5
  /\ @solve Toy.biorbd Toy.jacobians Toy.optimizers Toy.kcc 5e-5 2
     = Returned (Toy.seeded, [], [JacMatrix []; JacMatrix []; JacMatrix []])
  /\ @solve Toy.biorbd Toy.jacobians Toy.optimizers Toy.kcc 5e-5 1 = StillRunning.
Proof.
  assert (H0 : Rabs (delta_epsilon_markers Toy.solve_start) > 5e-5)
    by (simpl; rewrite Rabs_right; lra).
  assert (H1 : Rabs (delta_epsilon_markers Toy.solve_after_first) > 5e-5)
    by (simpl; rewrite Rabs_left; lra).
  assert (H2 : Rabs (delta_epsilon_markers Toy.solve_after_second) <= 5e-5)
    by (simpl; rewrite Rabs_right; lra).
  destruct (@solve_loop_delta_criterion Toy.biorbd Toy.jacobians Toy.optimizers Toy.kcc 5e-5)
    as (Hexit & Hgo & _).
  split; [exact H0|]. split; [reflexivity|]. split; [exact H1|]. split; [exact H2|].
  unfold solve. rewrite toy_solve_init. split.
  - rewrite (Hgo 1%nat _ H0), toy_solve_first_pair, (Hgo 0%nat _ H1), toy_solve_second_pair,
      (Hexit 0%nat _ H2).
    reflexivity.
  - rewrite (Hgo 0%nat _ H0), toy_solve_first_pair. simpl.
    destruct (Rgt_dec _ _) as [_|Hn]; [reflexivity|]. exfalso. apply Hn. exact H1.
Defined.

(** With a threshold of 10 or more the loop is not entered, and [solve] stops
    on the name [q_out], which only an iteration binds. *)
Lemma toy_solve_without_iteration (fuel : nat) :
  @solve Toy.biorbd Toy.jacobians Toy.optimizers Toy.kcc 10 fuel = Raised UnboundLocalError.
Proof.
  unfold solve. rewrite toy_solve_init.
  assert (E : @solve_loop Toy.biorbd Toy.jacobians Toy.optimizers Toy.kcc 10 fuel
                Toy.solve_start = Returned Toy.solve_start).
  { destruct fuel; simpl; destruct (Rgt_dec _ _) as [Hgt|_]; try reflexivity;
      exfalso; rewrite Rabs_right in Hgt; lra. }
  rewrite E. reflexivity.
Qed.

(** ** What holds of the two residuals for every input *)

Lemma getitem_skipn {A : Type} (l : list A) (i : nat) (a : A) :
  getitem l i = Ok a -> skipn i l = a :: skipn (S i) l.
Proof.
  unfold getitem. revert i. induction l as [|b l IH]; intros [|i] E; simpl in *; try discriminate.
  - injection E as ->. reflexivity.
  - apply IH. exact E.
Qed.

Lemma penalty_q_open_loop_targets (x q_init : vec) (block : vec * vec) :
  penalty_q_open_loop x q_init = Ok block -> snd block = firstn (length x) q_init.
Proof.
  unfold penalty_q_open_loop.
  assert (G : forall (l : vec) (i : nat) (acc block : vec * vec),
             foldM (fun iv acc =>
                      let* target := getitem q_init (fst iv) in
                      Ok (fst acc ++ [snd iv], snd acc ++ [target]))
                   (combine (seq i (length l)) l) acc = Ok block ->
             snd block = snd acc ++ firstn (length l) (skipn i q_init)).
  { induction l as [|v l IH]; intros i acc blk E; simpl in E.
    - injection E as <-. simpl. rewrite app_nil_r. reflexivity.
    - apply bind_Ok_inv in E as (acc' & Hacc & E).
      apply bind_Ok_inv in Hacc as (target & Ht & Hacc). injection Hacc as <-.
      apply IH in E. cbn [fst snd] in E.
      rewrite E, (getitem_skipn _ _ _ Ht), <- app_assoc. reflexivity. }
  intros E. apply G in E. exact E.
Qed.

Lemma sum_squares_of_self (v : vec) : sum (map (fun d => d ^ 2) (zip_with Rminus v v)) = 0.
Proof.
  unfold zip_with. induction v as [|a v IH]; [reflexivity|].
  cbn [combine map sum fold_right fst snd]. fold (sum (map (fun d => d ^ 2)
    (map (fun ab => fst ab - snd ab) (combine v v)))). rewrite IH. simpl. ring.
Qed.

(** From the second sampled frame on, the continuity term of
    [objective_function_param] is 0 whatever the poses are: [x0] names [Q]. *)
Lemma param_frame_continuity_of_aliased_x0 `{Biorbd} (self : KinematicChainCalibration)
    (x : matrix) (markers_calibration : array3) (index_wu_markers : list nat) (f : nat)
    (st st' : param_locals) :
  loc_x0 st = SameArrayAsQ ->
  param_frame self x markers_calibration index_wu_markers f st = Ok st' ->
  loc_q_continuity st' = Some 0 /\ loc_x0 st' = SameArrayAsQ.
Proof.
  intros Halias E. unfold param_frame in E.
  apply bind_Ok_inv in E as (wu_first & _ & E).
  apply bind_Ok_inv in E as (wu_last & _ & E).
  apply bind_Ok_inv in E as (thorax_markers & _ & E).
  apply bind_Ok_inv in E as (table_markers & _ & E).
  apply bind_Ok_inv in E as (x_f & _ & E).
  apply bind_Ok_inv in E as (Q & _ & E).
  apply bind_Ok_inv in E as (table & _ & E).
  apply bind_Ok_inv in E as (d5 & _ & E).
  apply bind_Ok_inv in E as (d6 & _ & E).
  apply bind_Ok_inv in E as (thorax & _ & E).
  apply bind_Ok_inv in E as (row0 & _ & E).
  apply bind_Ok_inv in E as (mark_out & _ & E).
  apply bind_Ok_inv in E as (diff & Hdiff & E).
  apply bind_Ok_inv in E as (dq & Hdq & E).
  apply bind_Ok_inv in E as (pivot & _ & E).
  apply bind_Ok_inv in E as (pm & _ & E).
  apply bind_Ok_inv in E as (px & _ & E).
  injection E as <-. cbn [loc_q_continuity loc_x0]. split; [|reflexivity].
  unfold read_x0 in Hdiff. cbn [loc_x0 loc_Q] in Hdiff. rewrite Halias in Hdiff.
  pose proof (penalty_q_open_loop_shape _ _ _ Hdiff) as [Hm _].
  pose proof (penalty_q_open_loop_targets _ _ _ Hdiff) as Hx.
  rewrite firstn_all in Hx. rewrite Hm, Hx in Hdq.
  unfold np_sub in Hdq. rewrite broadcast2_same_length in Hdq by reflexivity.
  injection Hdq as <-. rewrite sum_squares_of_self. reflexivity.
Qed.

(** The part that holds of the exclusion of the table: when every marker before the table is matched
    exactly in the last frame, the residual [step_2] returns is 0, wherever
    the table markers are. *)
Lemma espilon_of_frame_exact `{Biorbd} (self : KinematicChainCalibration)
    (q_output : matrix) (index_table_markers : list nat) (f : nat) (q_f : vec)
    (markers_to_compare : matrix) (eps : R) :
  column q_output f = Ok q_f ->
  frame_at (markers self) f = Ok markers_to_compare ->
  (forall j m xp,
      getitem (biorbd_markers q_f) j = Ok m ->
      column markers_to_compare j = Ok xp -> xp = to_array m) ->
  espilon_of_frame self q_output index_table_markers f = Ok eps ->
  eps = 0.
Proof.
  intros Hq Hm Hexact E. unfold espilon_of_frame in E.
  rewrite Hq, Hm in E. cbn [bind] in E.
  apply bind_Ok_inv in E as (first_table & _ & E).
  assert (G : forall (l : list nat) (acc r : R),
             foldM (fun j espilon_markers =>
                      let* model_j := getitem (biorbd_markers q_f) j in
                      let* xp_j := column markers_to_compare j in
                      let* d := np_sub (to_array model_j) xp_j in
                      let mark := norm d ^ 2 in
                      Ok (espilon_markers + mark)) l acc = Ok r ->
             r = acc).
  { induction l as [|j l IH]; intros acc r Er; cbn [foldM] in Er;
      [injection Er as <-; reflexivity|].
    apply bind_Ok_inv in Er as (acc' & Hstep & Er).
    apply bind_Ok_inv in Hstep as (m & Hmj & Hstep).
    apply bind_Ok_inv in Hstep as (xp & Hxp & Hstep).
    apply bind_Ok_inv in Hstep as (d & Hd & Hstep).
    rewrite (Hexact j m xp Hmj Hxp) in Hd.
    unfold np_sub in Hd. rewrite broadcast2_same_length in Hd by reflexivity.
    injection Hd as <-. cbv zeta in Hstep.
    rewrite norm_pow2, sum_squares_of_self in Hstep. injection Hstep as <-.
    apply IH in Er. rewrite Er. ring. }
  apply G in E. exact E.
Qed.

(** An exception in a frame ends [step_2]: no later frame is solved and
    nothing is returned. *)
Lemma step_2_aborts_on_raising_frame `{Biorbd} `{Jacobians} `{Optimizers}
    (self : KinematicChainCalibration) (p : option vec) (bounds : vec * vec)
    (q_output : matrix) (bmin bmax : vec) (f : nat) (st : step_2_locals) (e : exn) :
  let index_table_markers := indices_where (str_contains "Table") (markers_model self) 0 in
  let index_wu_markers :=
    indices_where (fun value => negb (str_contains "Table" value)) (markers_model self) 0 in
  mapM (getitem (fst bounds)) (q_kinematic_index self) = Ok bmin ->
  mapM (getitem (snd bounds)) (q_kinematic_index self) = Ok bmax ->
  (f < nb_frames_ik_step self)%nat ->
  foldM (step_2_frame self p (bmin, bmax) index_table_markers index_wu_markers) (seq 0 f)
        {| loc_q_output := q_output; loc_espilon_markers := None; loc_jacobian := None |}
  = Ok st ->
  step_2_frame self p (bmin, bmax) index_table_markers index_wu_markers f st = Raise e ->
  step_2 self p bounds q_output = Raise e.
Proof.
  intros it iw Hmin Hmax Hf Hbefore Hraise. subst it iw. unfold step_2. cbv zeta.
  rewrite Hmin, Hmax. cbn [bind].
  replace (nb_frames_ik_step self) with (f + S (nb_frames_ik_step self - S f))%nat by lia.
  rewrite seq_app, foldM_app.
  match goal with
  | |- context [foldM ?body (seq 0 f) ?s] =>
      replace (foldM body (seq 0 f) s) with (Ok st) by (symmetry; exact Hbefore)
  end.
  cbn [bind seq foldM Nat.add].
  match goal with
  | |- context [step_2_frame ?a ?b ?c ?d ?g f st] =>
      replace (step_2_frame a b c d g f st) with (@Raise step_2_locals e)
        by (symmetry; exact Hraise)
  end.
  reflexivity.
Qed.

(** ** The continuity penalty *)

Lemma penalty_q_open_loop_from (q_init l : vec) (i : nat) (acc : vec * vec) :
  ((i + length l <= length q_init)%nat ->
   foldM (fun iv acc =>
            let* target := getitem q_init (fst iv) in
            Ok (fst acc ++ [snd iv], snd acc ++ [target]))
         (combine (seq i (length l)) l) acc
   = Ok (fst acc ++ l, snd acc ++ firstn (length l) (skipn i q_init)))
  /\ ((0 < length l)%nat -> (length q_init < i + length l)%nat ->
      foldM (fun iv acc =>
               let* target := getitem q_init (fst iv) in
               Ok (fst acc ++ [snd iv], snd acc ++ [target]))
            (combine (seq i (length l)) l) acc
      = Raise IndexError).
Proof.
  unfold vec in *. revert i acc. induction l as [|v l IH]; intros i acc.
  - split; [intros _|simpl; lia]. simpl. rewrite !app_nil_r. destruct acc; reflexivity.
  - cbn [length seq combine foldM fst snd].
    unfold getitem at 1 3.
    destruct (nth_error q_init i) as [t|] eqn:Et.
    + cbn [bind]. destruct (IH (S i) (fst acc ++ [v], snd acc ++ [t])) as [Hok Hko].
      assert (Es : skipn i q_init = t :: skipn (S i) q_init)
        by (apply getitem_skipn; unfold getitem; rewrite Et; reflexivity).
      split; intros Hlen.
      * etransitivity; [apply Hok; lia|]. cbn [fst snd]. rewrite Es, <- !app_assoc. reflexivity.
      * intros Hlt. assert (i < length q_init)%nat by (apply nth_error_Some; congruence).
        cbn [length] in Hlt. apply Hko; lia.
    + cbn [bind]. apply nth_error_None in Et. split; [lia|reflexivity].
Qed.

(** X1. The continuity penalty pairs every coordinate of the candidate with
    the coordinate of the same rank of the previous pose: with a previous pose
    at least as long as the candidate it returns the candidate and the first
    coordinates of the previous pose; with a shorter one it raises
    [IndexError]. *)
Theorem penalty_q_open_loop_pairs (x q_init : vec) :
  ((length x <= length q_init)%nat ->
   penalty_q_open_loop x q_init = Ok (x, firstn (length x) q_init))
  /\ ((length q_init < length x)%nat ->
      penalty_q_open_loop x q_init = Raise IndexError).
Proof.
  unfold penalty_q_open_loop, vec in *.
  destruct (penalty_q_open_loop_from q_init x 0 ([], [])) as [Hok Hko].
  split; intros Hlen; [etransitivity; [apply Hok; lia|reflexivity]|apply Hko; lia].
Qed.

(** ** The rotation penalty *)

(** X2. For a rotation matrix whose last row and last column are unit
    vectors, the five components of the rotation penalty meet their targets
    exactly when the entry [R[2, 2]] is 1, that is when the local Z axis of the
    segment is the vertical of the world. *)
Theorem penalty_rotation_matrix_vertical `{Biorbd} (x : vec) :
  globalJCS_rot x 2%nat 0%nat ^ 2 + globalJCS_rot x 2%nat 1%nat ^ 2
    + globalJCS_rot x 2%nat 2%nat ^ 2 = 1 ->
  globalJCS_rot x 0%nat 2%nat ^ 2 + globalJCS_rot x 1%nat 2%nat ^ 2
    + globalJCS_rot x 2%nat 2%nat ^ 2 = 1 ->
  snd (penalty_rotation_matrix x) = [0; 0; 0; 0; 0]
  /\ (fst (penalty_rotation_matrix x) = snd (penalty_rotation_matrix x)
      <-> globalJCS_rot x 2%nat 2%nat = 1).
Proof.
  intros Hrow Hcol. split; [reflexivity|].
  unfold penalty_rotation_matrix. cbn [fst snd length replicate repeat].
  split.
  - intros E. injection E as _ _ _ _ E. lra.
  - intros E. rewrite E in *.
    assert (globalJCS_rot x 2%nat 0%nat = 0) by nra.
    assert (globalJCS_rot x 2%nat 1%nat = 0) by nra.
    assert (globalJCS_rot x 0%nat 2%nat = 0) by nra.
    assert (globalJCS_rot x 1%nat 2%nat = 0) by nra.
    repeat f_equal; lra.
Qed.

Lemma penalty_rotation_matrix_vertical_witness :
  fst (@penalty_rotation_matrix Toy.biorbd [0; 0]) = snd (@penalty_rotation_matrix Toy.biorbd [0; 0])
  <-> @globalJCS_rot Toy.biorbd [0; 0] 2%nat 2%nat = 1.
Proof.
  apply (@penalty_rotation_matrix_vertical Toy.biorbd [0; 0]); simpl; lra.
Defined.
(** ** The scalar objective and the gradient handed to ipopt *)

Lemma sum_squares_nonneg (v : vec) : 0 <= sum (map (fun r => r ^ 2) v).
Proof.
  induction v as [|a v IH]; [simpl; lra|].
  change (0 <= a ^ 2 + sum (map (fun r => r ^ 2) v)).
  pose proof (pow2_ge_0 a). lra.
Qed.

Lemma sum_squares_zero (v : vec) :
  sum (map (fun r => r ^ 2) v) = 0 <-> Forall (fun r => r = 0) v.
Proof.
  induction v as [|a v IH].
  - split; [constructor|reflexivity].
  - change (sum (map (fun r => r ^ 2) (a :: v))) with (a ^ 2 + sum (map (fun r => r ^ 2) v)).
    pose proof (pow2_ge_0 a). pose proof (sum_squares_nonneg v). split.
    + intros E. constructor; [nra|]. apply IH. lra.
    + intros Hall. inversion Hall as [|? ? Ha Hv]; subst.
      apply IH in Hv. rewrite Hv. simpl. ring.
Qed.

(** X3. The scalar objective of the constrained backend is half the sum of
    the squares of the weighted residual: it is never negative, and it is 0
    exactly when every component of the residual is 0. *)
Theorem objective_ik_scalar_nonnegative `{Biorbd} (self : KinematicChainCalibration)
    (x : vec) (p : option vec) (table_markers thorax_markers : matrix) (q_init : vec) (v : R) :
  objective_ik_scalar self x p table_markers thorax_markers q_init = Ok v ->
  exists r,
    objective_ik_list self x p table_markers thorax_markers q_init = Ok (Some r)
    /\ v = 0.5 * sum (map (fun c => c ^ 2) r)
    /\ 0 <= v
    /\ (v = 0 <-> Forall (fun c => c = 0) r).
Proof.
  unfold objective_ik_scalar, as_array. intros E.
  apply bind_Ok_inv in E as (r & Hr & E).
  apply bind_Ok_inv in Hr as (o & Ho & Hr).
  destruct o as [r'|]; [|discriminate]. injection Hr as ->.
  assert (Ev : v = 0.5 * sum (map (fun c => c ^ 2) r)) by congruence.
  exists r. split; [exact Ho|]. split; [exact Ev|].
  pose proof (sum_squares_nonneg r). split; [lra|].
  rewrite <- sum_squares_zero. split; lra.
Qed.

Lemma toy_objective_ik_list :
  @objective_ik_list Toy.biorbd Toy.kcc [0; 0] (Some []) [[0; 1]; [0; 0]; [0; 0]]
     [[1]; [0]; [0]] [0; 0]
  = Ok (Some [(0 - 0) * 1; (0 - 0) * 1; (0 - 0) * 1; (1 - 1) * 1; (0 - 0) * 1;
              (0 - 1) * 1; (0 - 0) * 1; (0 - 0) * 1;
              (0 - 0) * 1; (0 - 0) * 1;
              (0 - 0) * 1;
              (0 - 0) * 1; (0 - 0) * 1; (0 - 0) * 1; (0 - 0) * 1; (1 - 1 - 0) * 1]).
Proof.
  unfold objective_ik_list. cbn -[theta_pivot_penalty].
  rewrite (theta_pivot_penalty_below [] 0 0 ltac:(lra) : theta_pivot_penalty [0; 0] = _).
  reflexivity.
Qed.

Lemma objective_ik_scalar_nonnegative_witness :
  exists v,
    @objective_ik_scalar Toy.biorbd Toy.kcc [0; 0] (Some []) [[0; 1]; [0; 0]; [0; 0]]
       [[1]; [0]; [0]] [0; 0] = Ok v
    /\ 0 <= v.
Proof.
  eexists. split.
  - unfold objective_ik_scalar. rewrite toy_objective_ik_list. reflexivity.
  - match goal with
    | |- 0 <= ?v =>
        destruct (@objective_ik_scalar_nonnegative Toy.biorbd Toy.kcc [0; 0] (Some [])
                    [[0; 1]; [0; 0]; [0; 0]] [[1]; [0]; [0]] [0; 0] v) as (r & _ & _ & Hv & _)
    end; [|exact Hv].
    unfold objective_ik_scalar. rewrite toy_objective_ik_list. reflexivity.
Defined.

(** X4. [ik_jacobian] reads the weights of index 0 to 4: with fewer than five
    weights it raises [IndexError]; blocks of different widths make it raise
    [ValueError]; and what it returns has one row per row of the five blocks,
    all rows of the same width. *)
Theorem ik_jacobian_errors_and_shape `{Jacobians} (self : KinematicChainCalibration)
    (x weights : vec) :
  let table := marker_jacobian_table x (table_markers_idx self) (q_parameter_index self) in
  let model := marker_jacobian_model x (model_markers_idx self) (q_parameter_index self) in
  let rotation :=
    rotation_matrix_jacobian x (segment_id_with_vertical_z self) (q_parameter_index self) in
  let continuity := jacobian_q_continuity x (q_parameter_index self) in
  let pivot := marker_jacobian_theta x (q_parameter_index self) in
  ((length weights < 5)%nat -> ik_jacobian self x weights = Raise IndexError)
  /\ ((5 <= length weights)%nat ->
      (exists r r', In r (table ++ model ++ continuity ++ pivot ++ rotation)
                    /\ In r' (table ++ model ++ continuity ++ pivot ++ rotation)
                    /\ length r <> length r') ->
      exists msg, ik_jacobian self x weights = Raise (ValueError msg))
  /\ (forall jacobian,
         ik_jacobian self x weights = Ok jacobian ->
         length jacobian
         = (length table + length model + length continuity + length pivot + length rotation)%nat
         /\ forall r r', In r jacobian -> In r' jacobian -> length r = length r').
Proof.
  intros table model rotation continuity pivot.
  split; [|split].
  - intros Hlen. unfold ik_jacobian.
    destruct weights as [|w0 [|w1 [|w2 [|w3 [|w4 rest]]]]]; try reflexivity.
    simpl in Hlen. lia.
  - intros Hlen (r & r' & Hr & Hr' & Hne). unfold ik_jacobian.
    destruct weights as [|w0 [|w1 [|w2 [|w3 [|w4 rest]]]]]; try (simpl in Hlen; lia).
    cbn [getitem nth_error bind]. unfold concatenate.
    fold table model rotation continuity pivot.
    set (rows := concat _).
    assert (Hrows : rows = mscale w0 table ++ mscale w1 model ++ mscale w3 continuity
                           ++ mscale w2 pivot ++ mscale w4 rotation)
      by (unfold rows; simpl; rewrite app_nil_r; reflexivity).
    assert (Hin : forall row, In row (table ++ model ++ continuity ++ pivot ++ rotation) ->
                  exists row', In row' rows /\ length row' = length row).
    { intros row Hrow. rewrite Hrows.
      repeat (apply in_app_or in Hrow as [Hrow|Hrow];
              [eexists; split;
               [repeat (try (apply in_or_app; left; apply in_map; exact Hrow);
                        apply in_or_app; right)
               |apply length_map]|]).
      eexists. split; [|apply length_map].
      repeat (apply in_or_app; right). apply in_map. exact Hrow. }
    destruct (Hin r Hr) as (s & Hs & Ls). destruct (Hin r' Hr') as (s' & Hs' & Ls').
    destruct rows as [|r0 rest0]; [contradiction|].
    destruct (forallb _ _) eqn:Eall; [|eexists; reflexivity].
    rewrite forallb_forall in Eall.
    pose proof (Eall s Hs) as E1. pose proof (Eall s' Hs') as E2.
    apply Nat.eqb_eq in E1, E2. congruence.
  - intros jacobian E. unfold ik_jacobian in E.
    apply bind_Ok_inv in E as (w0 & _ & E).
    apply bind_Ok_inv in E as (w1 & _ & E).
    apply bind_Ok_inv in E as (w3 & _ & E).
    apply bind_Ok_inv in E as (w2 & _ & E).
    apply bind_Ok_inv in E as (w4 & _ & E).
    fold table model rotation continuity pivot in E.
    unfold concatenate in E. set (rows := concat _) in E.
    assert (Hrows : rows = mscale w0 table ++ mscale w1 model ++ mscale w3 continuity
                           ++ mscale w2 pivot ++ mscale w4 rotation)
      by (unfold rows; simpl; rewrite app_nil_r; reflexivity).
    assert (Hj : jacobian = rows /\ forall r r', In r rows -> In r' rows -> length r = length r').
    { destruct rows as [|r0 rest0] eqn:Er; [injection E as <-; split; [reflexivity|contradiction]|].
      destruct (forallb _ _) eqn:Eall; [|discriminate]. injection E as <-.
      split; [reflexivity|]. rewrite forallb_forall in Eall.
      intros r r' Hr Hr'. pose proof (Eall r Hr) as E1. pose proof (Eall r' Hr') as E2.
      apply Nat.eqb_eq in E1, E2. congruence. }
    destruct Hj as [-> Hj]. split; [|exact Hj].
    rewrite Hrows. unfold mscale. rewrite !length_app, !length_map. lia.
Qed.
(** X5. What [ik_gradient] returns is the list of the sums of the columns of
    the weighted Jacobian: the products with the residual are computed and
    dropped, so the markers and the previous pose have no part in the value,
    which is not the gradient of the scalar objective. *)
Theorem ik_gradient_is_column_sums `{Biorbd} `{Jacobians} (self : KinematicChainCalibration)
    (x : vec) (p : option vec) (table_markers thorax_markers : matrix) (q_init weights g : vec) :
  ik_gradient self x p table_markers thorax_markers q_init weights = Ok g ->
  exists jac,
    ik_jacobian self x weights = Ok jac
    /\ g = column_sums jac
    /\ forall table_markers' thorax_markers' q_init' g',
         ik_gradient self x p table_markers' thorax_markers' q_init' weights = Ok g' -> g' = g.
Proof.
  unfold ik_gradient. intros E.
  apply bind_Ok_inv in E as (jac & Hjac & E).
  apply bind_Ok_inv in E as (u & _ & E). injection E as <-.
  exists jac. split; [exact Hjac|]. split; [reflexivity|].
  intros tm' th' q' g' E'. rewrite Hjac in E'. cbn [bind] in E'.
  apply bind_Ok_inv in E' as (u' & _ & E'). injection E' as <-. reflexivity.
Qed.

Lemma toy_ik_gradient :
  @ik_gradient Toy.biorbd Toy.jacobians Toy.kcc [0; 0] (Some []) [[0; 1]; [0; 0]; [0; 0]]
     [[1]; [0]; [0]] [0; 0] [1; 1; 1; 1; 1]
  = Ok (column_sums
          (mscale 1 [[0; 0]; [0; 0]; [0; 0]; [0; 0]; [0; 0]]
             ++ mscale 1 [[1; 0]; [0; 0]; [0; 0]]
             ++ mscale 1 [[1; 0]; [0; 1]]
             ++ mscale 1 [[0; 0]]
             ++ mscale 1 [[0; 0]; [0; 0]; [0; 0]; [0; 0]; [0; 0]])).
Proof.
  unfold ik_gradient. cbn -[objective_ik_list column_sums].
  rewrite !toy_objective_ik_list. reflexivity.
Qed.

Lemma ik_gradient_is_column_sums_witness :
  exists jac,
    @ik_jacobian Toy.jacobians Toy.kcc [0; 0] [1; 1; 1; 1; 1] = Ok jac
    /\ column_sums
         (mscale 1 [[0; 0]; [0; 0]; [0; 0]; [0; 0]; [0; 0]]
            ++ mscale 1 [[1; 0]; [0; 0]; [0; 0]]
            ++ mscale 1 [[1; 0]; [0; 1]]
            ++ mscale 1 [[0; 0]]
            ++ mscale 1 [[0; 0]; [0; 0]; [0; 0]; [0; 0]; [0; 0]])
       = column_sums jac.
Proof.
  destruct (@ik_gradient_is_column_sums Toy.biorbd Toy.jacobians Toy.kcc [0; 0] (Some [])
              [[0; 1]; [0; 0]; [0; 0]] [[1]; [0]; [0]] [0; 0] [1; 1; 1; 1; 1] _
              toy_ik_gradient) as (jac & Hjac & Hg & _).
  exists jac. split; [exact Hjac|exact Hg].
Defined.
(** ** The open-loop penalty *)

Lemma list_index_In (name : string) (names : list string) :
  In name names -> exists k, list_index name names = Ok k.
Proof.
  induction names as [|n names IH]; [contradiction|].
  intros Hin. simpl. destruct (String.eqb n name) eqn:E; [eexists; reflexivity|].
  destruct Hin as [->|Hin]; [rewrite String.eqb_refl in E; discriminate|].
  destruct (IH Hin) as (k & ->). eexists. reflexivity.
Qed.

Lemma list_index_nth_error (name : string) (names : list string) (k : nat) :
  NoDup names -> nth_error names k = Some name -> list_index name names = Ok k.
Proof.
  intros Hnd. revert k. induction Hnd as [|n names Hnotin Hnd IH]; intros [|k] E;
    simpl in E; try discriminate.
  - injection E as ->. simpl. rewrite String.eqb_refl. reflexivity.
  - simpl. destruct (String.eqb n name) eqn:En.
    + apply String.eqb_eq in En. subst. apply nth_error_In in E. contradiction.
    + rewrite (IH k E). reflexivity.
Qed.

Lemma column_total (m : matrix) (k : nat) :
  Forall (fun row => (k < length row)%nat) m ->
  column m k = Ok (map (fun row => nth k row 0) m).
Proof.
  unfold column. induction 1 as [|row m Hrow _ IH]; [reflexivity|].
  simpl. unfold getitem at 1.
  rewrite (nth_error_nth' row 0 Hrow). cbn [bind]. rewrite IH. reflexivity.
Qed.

Lemma column_short_row (m : matrix) (k : nat) :
  (exists row, In row m /\ (length row <= k)%nat) -> column m k = Raise IndexError.
Proof.
  unfold column. induction m as [|r m IH]; intros (row & Hin & Hlen); [contradiction|].
  simpl. unfold getitem at 1. destruct (nth_error r k) eqn:E; cbn [bind]; [|reflexivity].
  destruct Hin as [->|Hin].
  - apply nth_error_None in Hlen. congruence.
  - rewrite IH by (exists row; auto). reflexivity.
Qed.

Lemma foldM_raises_at {A S : Type} (body : A -> S -> result S) (e : exn) (a : A) (l : list A) :
  In a l ->
  (forall st, body a st = Raise e) ->
  (forall b st e', In b l -> body b st = Raise e' -> e' = e) ->
  forall st, foldM body l st = Raise e.
Proof.
  induction l as [|b l IH]; intros Hin Ha Hall st; [contradiction|].
  simpl. destruct (body b st) as [st'|e'] eqn:Eb.
  - cbn [bind]. destruct Hin as [->|Hin]; [rewrite Ha in Eb; discriminate|].
    apply IH; auto. intros b' st0 e0 Hb'. apply Hall. right. exact Hb'.
  - cbn [bind]. f_equal. apply (Hall b st e'); [left; reflexivity|exact Eb].
Qed.

Section OpenLoop.

Variable self : KinematicChainCalibration.

Lemma penalty_open_loop_markers_from (ms : list (R * R * R)) (open_loop_markers : matrix)
    (t0 t1 : nat) (rest : list nat) (name0 name1 : string) :
  NoDup (markers_model self) ->
  table_markers_idx self = t0 :: t1 :: rest ->
  nth_error (markers_model self) t0 = Some name0 ->
  nth_error (markers_model self) t1 = Some name1 ->
  (length (markers_model self) <= length ms)%nat ->
  forall (l : list string) (i : nat) (acc : vec * vec),
    (forall j, nth_error l j = nth_error (markers_model self) (i + j)) ->
    Forall (fun k => Forall (fun row => (k < length row)%nat) open_loop_markers)
           (kept_positions t0 t1 i (length l)) ->
    foldM (fun name acc =>
             let* t0 := getitem (table_markers_idx self) 0 in
             let* name0 := getitem (markers_model self) t0 in
             if String.eqb name name0 then Ok acc
             else
               let* t1 := getitem (table_markers_idx self) 1 in
               let* name1 := getitem (markers_model self) t1 in
               if String.eqb name name1 then Ok acc
               else
                 let* k := list_index name (markers_model self) in
                 let mark := slice (k * 3) (k * 3 + 3) (flatten_markers ms) in
                 let* open_loop := column open_loop_markers k in
                 Ok (fst acc ++ mark, snd acc ++ open_loop))
          l acc
    = Ok (fst acc ++ flat_map (fun k => to_array (nth k ms (0, 0, 0))) (kept_positions t0 t1 i (length l)),
          snd acc ++ flat_map (fun k => map (fun row => nth k row 0) open_loop_markers)
                              (kept_positions t0 t1 i (length l))).
Proof.
  intros Hnd Hidx H0 H1 Hms.
  match goal with |- context [foldM ?b _ _] => set (body := b) end.
  assert (Hstep : forall name i acc,
             nth_error (markers_model self) i = Some name ->
             Forall (fun row => (i < length row)%nat) open_loop_markers
             \/ (i =? t0)%nat || (i =? t1)%nat = true ->
             body name acc
             = if (i =? t0)%nat || (i =? t1)%nat then Ok acc
               else Ok (fst acc ++ to_array (nth i ms (0, 0, 0)),
                        snd acc ++ map (fun row => nth i row 0) open_loop_markers)).
  { intros name i acc Hname Hcol. subst body. cbv beta.
    assert (Hi : (i < length (markers_model self))%nat)
      by (apply nth_error_Some; congruence).
    rewrite Hidx.
    change (getitem (t0 :: t1 :: rest) 0) with (Ok t0).
    change (getitem (t0 :: t1 :: rest) 1) with (Ok t1). cbn [bind].
    rewrite (getitem_Ok _ _ _ H0), (getitem_Ok _ _ _ H1). cbn [bind].
    assert (E0 : String.eqb name name0 = (i =? t0)%nat).
    { destruct (Nat.eqb_spec i t0) as [->|Hne].
      - apply String.eqb_eq. congruence.
      - apply String.eqb_neq. intros ->. apply Hne.
        apply (proj1 (NoDup_nth_error (markers_model self)) Hnd i t0 Hi). congruence. }
    assert (E1 : String.eqb name name1 = (i =? t1)%nat).
    { destruct (Nat.eqb_spec i t1) as [->|Hne].
      - apply String.eqb_eq. congruence.
      - apply String.eqb_neq. intros ->. apply Hne.
        apply (proj1 (NoDup_nth_error (markers_model self)) Hnd i t1 Hi). congruence. }
    rewrite E0, E1.
    destruct (i =? t0)%nat; [reflexivity|]. destruct (i =? t1)%nat; [reflexivity|].
    cbn [orb] in *. destruct Hcol as [Hcol|]; [|discriminate].
    rewrite (list_index_nth_error name _ i Hnd Hname). cbn [bind].
    rewrite (column_total _ _ Hcol). cbn [bind].
    assert (Hm : nth_error ms i = Some (nth i ms (0, 0, 0)))
      by (apply nth_error_nth'; lia).
    rewrite (slice_flatten_markers ms i _ Hm). reflexivity. }
  clearbody body.
  induction l as [|name l IH]; intros i acc Hl Hcols.
  - simpl. rewrite !app_nil_r. destruct acc; reflexivity.
  - assert (Hname : nth_error (markers_model self) i = Some name).
    { specialize (Hl 0%nat). simpl in Hl. rewrite Nat.add_0_r in Hl. congruence. }
    assert (Hl' : forall j, nth_error l j = nth_error (markers_model self) (S i + j)).
    { intros j. specialize (Hl (S j)). simpl in Hl. rewrite Hl. f_equal. lia. }
    cbn [foldM]. unfold kept_positions in *. cbn [length seq filter] in *.
    destruct ((i =? t0)%nat || (i =? t1)%nat) eqn:Ek.
    + rewrite (Hstep name i acc Hname) by (right; exact Ek). rewrite Ek. cbn [bind].
      replace (negb (i =? t0)%nat && negb (i =? t1)%nat) with false in *
        by (destruct (i =? t0)%nat, (i =? t1)%nat; simpl in *; congruence).
      apply (IH (S i) acc Hl' Hcols).
    + replace (negb (i =? t0)%nat && negb (i =? t1)%nat) with true in *
        by (destruct (i =? t0)%nat, (i =? t1)%nat; simpl in *; congruence).
      inversion Hcols as [|? ? Hcol Hcols']; subst.
      rewrite (Hstep name i acc Hname) by (left; exact Hcol). rewrite Ek. cbn [bind].
      etransitivity; [apply (IH (S i) _ Hl' Hcols')|].
      cbn [fst snd flat_map]. rewrite <- !app_assoc. reflexivity.
Qed.

(** X6. For distinct marker names, a model marker for every name and an
    experimental column for every position kept, the open-loop penalty lists,
    in the order of [markers_model], the three model coordinates and the three
    experimental coordinates of every marker except the two table markers:
    with a three-row array and two different table markers, that is
    [3 * (nb markers - 2)] components on each side. *)
Theorem penalty_open_loop_markers_layout (ms : list (R * R * R)) (open_loop_markers : matrix)
    (t0 t1 : nat) (rest : list nat) :
  NoDup (markers_model self) ->
  table_markers_idx self = t0 :: t1 :: rest ->
  (t0 < length (markers_model self))%nat ->
  (t1 < length (markers_model self))%nat ->
  (length (markers_model self) <= length ms)%nat ->
  let positions :=
    filter (fun k => negb (k =? t0)%nat && negb (k =? t1)%nat)
           (seq 0 (length (markers_model self))) in
  Forall (fun k => Forall (fun row => (k < length row)%nat) open_loop_markers) positions ->
  penalty_open_loop_markers self (flatten_markers ms) open_loop_markers
  = Ok (flat_map (fun k => to_array (nth k ms (0, 0, 0))) positions,
        flat_map (fun k => map (fun row => nth k row 0) open_loop_markers) positions)
  /\ (t0 <> t1 -> length open_loop_markers = 3%nat ->
      length (flat_map (fun k => to_array (nth k ms (0, 0, 0))) positions)
      = (3 * (length (markers_model self) - 2))%nat
      /\ length (flat_map (fun k => map (fun row => nth k row 0) open_loop_markers) positions)
         = (3 * (length (markers_model self) - 2))%nat).
Proof.
  intros Hnd Hidx Ht0 Ht1 Hms positions Hcols.
  destruct (nth_error (markers_model self) t0) as [name0|] eqn:H0;
    [|apply nth_error_None in H0; lia].
  destruct (nth_error (markers_model self) t1) as [name1|] eqn:H1;
    [|apply nth_error_None in H1; lia].
  split.
  - unfold penalty_open_loop_markers.
    apply (penalty_open_loop_markers_from ms open_loop_markers t0 t1 rest name0 name1
             Hnd Hidx H0 H1 Hms (markers_model self) 0 ([], [])); [reflexivity|exact Hcols].
  - intros Hne H3.
    assert (Hlen : length positions = (length (markers_model self) - 2)%nat).
    { subst positions. clear - Ht0 Ht1 Hne.
      set (n := length (markers_model self)) in *.
      assert (G : forall len i,
                 length (filter (fun k => negb (k =? t0)%nat && negb (k =? t1)%nat) (seq i len))
                 = (len - (if (i <=? t0)%nat && (t0 <? i + len)%nat then 1 else 0)
                        - (if (i <=? t1)%nat && (t1 <? i + len)%nat then 1 else 0))%nat).
      { induction len as [|len IH]; intros i.
        - simpl. reflexivity.
        - cbn [seq filter]. specialize (IH (S i)).
          destruct (Nat.eqb_spec i t0), (Nat.eqb_spec i t1); cbn [negb andb length];
            rewrite IH;
            repeat match goal with
                   | |- context [(?a <=? ?b)%nat] => destruct (Nat.leb_spec a b)
                   | |- context [(?a <? ?b)%nat] => destruct (Nat.ltb_spec a b)
                   end; cbn [andb]; lia. }
      rewrite G.
      repeat match goal with
             | |- context [(?a <=? ?b)%nat] => destruct (Nat.leb_spec a b)
             | |- context [(?a <? ?b)%nat] => destruct (Nat.ltb_spec a b)
             end; cbn [andb]; lia. }
    split.
    + rewrite (flat_map_constant_length (c := 3%nat)) by (intros; reflexivity). lia.
    + rewrite (flat_map_constant_length (c := 3%nat))
        by (intros; rewrite length_map; exact H3).
      lia.
Qed.

(** X7. The penalty looks the experimental column of a marker up at the
    position of its name in [markers_model].  A marker that is not a table
    marker and whose position is not a column of the experimental array makes
    the penalty raise [IndexError]: so does, with an array of the open-loop
    markers only, a body marker listed after a table marker. *)
Theorem penalty_open_loop_markers_misplaced (model_markers_values : vec)
    (open_loop_markers : matrix) (name : string) (k : nat) :
  In name (markers_model self) ->
  list_index name (markers_model self) = Ok k ->
  (forall t, In t (firstn 2 (table_markers_idx self)) ->
             nth_error (markers_model self) t <> Some name) ->
  (exists row, In row open_loop_markers /\ (length row <= k)%nat) ->
  penalty_open_loop_markers self model_markers_values open_loop_markers = Raise IndexError.
Proof.
  intros Hin Hk Hnot Hrow. unfold penalty_open_loop_markers.
  apply (foldM_raises_at _ IndexError name); [exact Hin| |].
  - intros st. unfold getitem.
    destruct (nth_error (table_markers_idx self) 0) as [t0|] eqn:E0; cbn [bind]; [|reflexivity].
    destruct (nth_error (markers_model self) t0) as [name0|] eqn:N0; cbn [bind]; [|reflexivity].
    destruct (String.eqb_spec name name0) as [->|_].
    { exfalso. apply (Hnot t0); [|exact N0].
      destruct (table_markers_idx self) as [|a l]; [discriminate|].
      injection E0 as ->. left. reflexivity. }
    destruct (nth_error (table_markers_idx self) 1) as [t1|] eqn:E1; cbn [bind]; [|reflexivity].
    destruct (nth_error (markers_model self) t1) as [name1|] eqn:N1; cbn [bind]; [|reflexivity].
    destruct (String.eqb_spec name name1) as [->|_].
    { exfalso. apply (Hnot t1); [|exact N1].
      destruct (table_markers_idx self) as [|a [|b l]]; try discriminate.
      injection E1 as ->. right. left. reflexivity. }
    rewrite Hk. cbn [bind]. rewrite (column_short_row _ _ Hrow). reflexivity.
  - intros b st e' Hb E. unfold getitem in E.
    destruct (nth_error (table_markers_idx self) 0) as [t0|]; cbn [bind] in E; [|congruence].
    destruct (nth_error (markers_model self) t0) as [name0|]; cbn [bind] in E; [|congruence].
    destruct (String.eqb b name0); [discriminate|].
    destruct (nth_error (table_markers_idx self) 1) as [t1|]; cbn [bind] in E; [|congruence].
    destruct (nth_error (markers_model self) t1) as [name1|]; cbn [bind] in E; [|congruence].
    destruct (String.eqb b name1); [discriminate|].
    destruct (list_index_In b _ Hb) as (kb & Ekb). rewrite Ekb in E. cbn [bind] in E.
    unfold column in E.
    assert (G : forall (m : matrix) r, mapM (fun row => getitem row kb) m = Raise r ->
                r = IndexError).
    { induction m as [|row m IH]; intros r Er; simpl in Er; [discriminate|].
      unfold getitem in Er at 1. destruct (nth_error row kb); cbn [bind] in Er; [|congruence].
      destruct (mapM _ m) eqn:Em; cbn [bind] in Er; [discriminate|].
      apply IH. congruence. }
    destruct (mapM _ open_loop_markers) eqn:Em; cbn [bind] in E; [discriminate|].
    injection E as <-. apply (G open_loop_markers). exact Em.
Qed.

End OpenLoop.

Lemma penalty_open_loop_markers_layout_witness :
  penalty_open_loop_markers Toy.kcc (flatten_markers [(5, 6, 7); (0, 0, 0); (1, 0, 0)])
                            [[1]; [2]; [3]]
  = Ok ([5; 6; 7], [1; 2; 3]).
Proof.
  apply (penalty_open_loop_markers_layout Toy.kcc [(5, 6, 7); (0, 0, 0); (1, 0, 0)] [[1]; [2]; [3]]
           1 2 []).
  - repeat constructor; simpl; intuition discriminate.
  - reflexivity.
  - simpl; lia.
  - simpl; lia.
  - simpl; lia.
  - repeat constructor.
Defined.

Lemma penalty_open_loop_markers_misplaced_witness :
  penalty_open_loop_markers Cases.table_first
    (flatten_markers [(0, 0, 0); (5, 6, 7); (1, 0, 0)]) [[1]; [2]; [3]]
  = Raise IndexError.
Proof.
  apply (penalty_open_loop_markers_misplaced Cases.table_first _ _ "M0" 1).
  - simpl. auto.
  - reflexivity.
  - intros t [<-|[<-|[]]]; simpl; discriminate.
  - exists [1]. split; [left; reflexivity|simpl; lia].
Defined.
(** ** The pose matrix through step_2 *)

Lemma foldM_related {A S : Type} (body : A -> S -> result S) (rel : S -> S -> Prop)
    (l : list A) :
  (forall s, rel s s) ->
  (forall s1 s2 s3, rel s1 s2 -> rel s2 s3 -> rel s1 s3) ->
  (forall a s s', In a l -> body a s = Ok s' -> rel s s') ->
  forall s r, foldM body l s = Ok r -> rel s r.
Proof.
  intros Hrefl Htrans. induction l as [|a l IH]; intros Hstep s r E; simpl in E.
  - injection E as <-. apply Hrefl.
  - apply bind_Ok_inv in E as (s' & Ea & E).
    apply (Htrans s s' r); [apply (Hstep a); [left; reflexivity|exact Ea]|].
    apply IH; [|exact E]. intros b s1 s2 Hb. apply Hstep. right. exact Hb.
Qed.

Lemma set_nth_Ok {A : Type} (l l' : list A) (i : nat) (a : A) :
  set_nth l i a = Ok l' ->
  (i < length l)%nat /\ length l' = length l /\ nth_error l' i = Some a
  /\ forall j, j <> i -> nth_error l' j = nth_error l j.
Proof.
  unfold set_nth. destruct (Nat.ltb_spec i (length l)) as [Hi|Hi]; [|discriminate].
  intros E. assert (El : l' = firstn i l ++ a :: skipn (S i) l) by congruence.
  subst l'. clear E.
  assert (Hf : length (firstn i l) = i) by (rewrite length_firstn; lia).
  split; [exact Hi|]. split; [|split].
  - rewrite length_app, Hf. change (length (a :: skipn (S i) l)) with (S (length (skipn (S i) l))).
    rewrite length_skipn. lia.
  - rewrite nth_error_app2 by lia. rewrite Hf, Nat.sub_diag. reflexivity.
  - intros j Hj. destruct (Nat.lt_ge_cases j i) as [Hlt|Hge].
    + rewrite nth_error_app1 by lia. rewrite nth_error_firstn.
      destruct (Nat.ltb_spec j i); [reflexivity|lia].
    + rewrite nth_error_app2 by lia. rewrite Hf.
      destruct (j - i)%nat as [|d] eqn:Ed; [lia|]. cbn [nth_error].
      rewrite nth_error_skipn. f_equal. lia.
Qed.

Lemma same_outside_refl (idxs : list nat) (m : matrix) : same_outside idxs m m.
Proof. split; [reflexivity|]. intros; reflexivity. Qed.

Lemma same_outside_trans (idxs : list nat) (m1 m2 m3 : matrix) :
  same_outside idxs m1 m2 -> same_outside idxs m2 m3 -> same_outside idxs m1 m3.
Proof.
  intros [L1 H1] [L2 H2]. split; [congruence|].
  intros i Hi. rewrite (H2 i Hi). apply H1, Hi.
Qed.

Lemma map_length_set_row (m m' : matrix) (i : nat) (row row' : list R) :
  nth_error m i = Some row -> length row' = length row -> set_nth m i row' = Ok m' ->
  map (@length R) m' = map (@length R) m.
Proof.
  intros Hrow Hlen E. unfold set_nth in E.
  destruct (Nat.ltb_spec i (length m)) as [Hi|Hi]; [|discriminate].
  assert (El : m' = firstn i m ++ row' :: skipn (S i) m) by congruence. subst m'. clear E.
  rewrite <- (firstn_skipn i m) at 3. rewrite !map_app. f_equal.
  assert (Es : skipn i m = row :: skipn (S i) m)
    by (apply getitem_skipn; unfold getitem; rewrite Hrow; reflexivity).
  rewrite Es. cbn [map]. f_equal. exact Hlen.
Qed.

Lemma combine_fold_same_outside (m m' : matrix) (idxs : list nat) (j : nat) (vals : vec) :
  foldM (fun iv acc =>
           let* row := getitem acc (fst iv) in
           let* row' := set_nth row j (snd iv) in
           set_nth acc (fst iv) row')
        (combine idxs vals) m = Ok m' ->
  same_outside idxs m m'.
Proof.
  apply foldM_related.
  - apply same_outside_refl.
  - apply same_outside_trans.
  - intros [i v] s s' Hin Es. cbn [fst snd] in Es.
    apply bind_Ok_inv in Es as (row & Hrow & Es).
    apply bind_Ok_inv in Es as (row' & Hrow' & Es).
    unfold getitem in Hrow. destruct (nth_error s i) as [r|] eqn:Er; [|discriminate].
    injection Hrow as ->.
    destruct (set_nth_Ok _ _ _ _ Hrow') as (_ & Hlen & _).
    split.
    + apply (map_length_set_row s s' i row row' Er Hlen Es).
    + intros k Hk. destruct (set_nth_Ok _ _ _ _ Es) as (_ & _ & _ & Hother).
      apply Hother. intros ->. apply Hk. apply (in_combine_l _ _ _ _ Hin).
Qed.

Lemma set_rows_at_same_outside (m m' : matrix) (idxs : list nat) (j : nat) (vals : vec) :
  set_rows_at m idxs j vals = Ok m' -> same_outside idxs m m'.
Proof.
  unfold set_rows_at. intros E. apply bind_Ok_inv in E as (vals' & _ & E).
  apply (combine_fold_same_outside _ _ _ _ _ E).
Qed.

Section PoseMatrix.

Context `{Biorbd} `{Jacobians} `{Optimizers}.
Variable self : KinematicChainCalibration.

Lemma step_2_frame_writes (p : option vec) (bounds_without_p : vec * vec)
    (index_table_markers index_wu_markers : list nat) (f : nat) (st st' : step_2_locals) :
  step_2_frame self p bounds_without_p index_table_markers index_wu_markers f st = Ok st' ->
  exists x, set_rows_at (loc_q_output st) (q_kinematic_index self) f x = Ok (loc_q_output st').
Proof.
  unfold step_2_frame. intros E.
  apply bind_Ok_inv in E as (x0 & _ & E).
  apply bind_Ok_inv in E as (solved & Hsolved & E).
  apply bind_Ok_inv in E as (eps & _ & E). injection E as <-. cbn [loc_q_output].
  destruct (String.eqb (ik_solver self) "leastsquare").
  - apply bind_Ok_inv in Hsolved as (r & _ & Hacc). unfold accept_least_squares in Hacc.
    apply bind_Ok_inv in Hacc as (q' & Hq & Hacc). injection Hacc as <-.
    exists (opt_x r). exact Hq.
  - destruct (String.eqb (ik_solver self) "ipopt"); [|discriminate].
    apply bind_Ok_inv in Hsolved as (r & _ & Hacc). unfold accept_ipopt in Hacc.
    apply bind_Ok_inv in Hacc as (q' & Hq & Hacc).
    apply bind_Ok_inv in Hacc as (tm & _ & Hacc).
    apply bind_Ok_inv in Hacc as (th & _ & Hacc).
    apply bind_Ok_inv in Hacc as (jac & _ & Hacc).
    destruct (Bool.eqb (opt_success r) false); [discriminate|]. injection Hacc as <-.
    exists (opt_x r). exact Hq.
Qed.

Lemma step_2_same_outside (p : option vec) (bounds : vec * vec)
    (q_output q_out : matrix) (eps : R) (j : jacobian_used) :
  step_2 self p bounds q_output = Ok (q_out, eps, j) ->
  same_outside (q_kinematic_index self) q_output q_out.
Proof.
  unfold step_2. intros E.
  apply bind_Ok_inv in E as (bmin & _ & E).
  apply bind_Ok_inv in E as (bmax & _ & E).
  apply bind_Ok_inv in E as (st & Hfold & E).
  destruct (loc_espilon_markers st); [|discriminate].
  destruct (loc_jacobian st); [|discriminate].
  assert (Eq : q_out = loc_q_output st) by congruence. subst q_out.
  apply (foldM_related _ (fun s s' => same_outside (q_kinematic_index self)
                                        (loc_q_output s) (loc_q_output s'))) in Hfold.
  - exact Hfold.
  - intros s. apply same_outside_refl.
  - intros s1 s2 s3. apply same_outside_trans.
  - intros f s s' _ Ef. apply step_2_frame_writes in Ef as (x & Hx).
    apply (set_rows_at_same_outside _ _ _ _ _ Hx).
Qed.

(** X8. [step_2] writes the kinematic rows of the pose matrix and nothing
    else: the matrix it returns has the shape of the matrix it was given, and
    every row that is not a kinematic coordinate, the rows of the parameters
    among them, is the row it was given. *)
Theorem step_2_keeps_other_rows (p : option vec) (bounds : vec * vec)
    (q_output q_out : matrix) (eps : R) (j : jacobian_used) :
  step_2 self p bounds q_output = Ok (q_out, eps, j) ->
  map (@length R) q_out = map (@length R) q_output
  /\ forall i, ~ In i (q_kinematic_index self) -> nth_error q_out i = nth_error q_output i.
Proof.
  intros E. apply step_2_same_outside in E. exact E.
Qed.

End PoseMatrix.

Lemma toy_step_2_with_parameter :
  @step_2 Toy.biorbd Toy.jacobians Toy.optimizers Cases2.with_parameter
     (Some [7]) ([-10; -10], [10; 10]) [[0; 0]; [7; 7]]
  = Ok ([[0; 0]; [7; 7]], 0, JacMatrix []).
Proof.
  unfold step_2. cbn -[norm pow]. rewrite !norm_pow2. cbn.
  repeat f_equal. lra.
Qed.

Lemma step_2_keeps_other_rows_witness :
  exists q_out eps j,
    @step_2 Toy.biorbd Toy.jacobians Toy.optimizers Cases2.with_parameter
       (Some [7]) ([-10; -10], [10; 10]) [[0; 0]; [7; 7]] = Ok (q_out, eps, j)
    /\ nth_error q_out 1 = Some [7; 7].
Proof.
  exists [[0; 0]; [7; 7]], 0, (JacMatrix []).
  split; [exact toy_step_2_with_parameter|].
  destruct (@step_2_keeps_other_rows Toy.biorbd Toy.jacobians Toy.optimizers
              Cases2.with_parameter (Some [7]) ([-10; -10], [10; 10]) [[0; 0]; [7; 7]]
              _ _ _ toy_step_2_with_parameter) as [_ Hrows].
  apply (Hrows 1%nat). simpl. intros [E|[]]. discriminate.
Defined.

(** ** The warm start of the next frame *)

Lemma rows_at_set_rows_at (m m' : matrix) (idxs : list nat) (j : nat) (vals : vec) :
  NoDup idxs -> length vals = length idxs ->
  set_rows_at m idxs j vals = Ok m' -> rows_at m' idxs j = Ok vals.
Proof.
  intros Hnd Hlen. unfold set_rows_at, values_for.
  rewrite Hlen, Nat.eqb_refl. cbn [bind].
  revert vals Hlen m. induction Hnd as [|i idxs Hnotin Hnd IH]; intros vals Hlen m E.
  - destruct vals; [reflexivity|discriminate].
  - destruct vals as [|v vals]; [discriminate|].
    cbn [combine foldM fst snd] in E.
    apply bind_Ok_inv in E as (m1 & Hstep & E).
    apply bind_Ok_inv in Hstep as (row & Hrow & Hstep).
    apply bind_Ok_inv in Hstep as (row' & Hrow' & Hstep).
    destruct (set_nth_Ok _ _ _ _ Hrow') as (_ & _ & Hv & _).
    destruct (set_nth_Ok _ _ _ _ Hstep) as (_ & _ & Hi & _).
    pose proof (combine_fold_same_outside _ _ _ _ _ E) as [_ Hsame].
    unfold rows_at. cbn [mapM].
    unfold getitem at 1. rewrite (Hsame i Hnotin), Hi. cbn [bind].
    unfold getitem at 1. rewrite Hv. cbn [bind].
    fold (rows_at m' idxs j). rewrite (IH vals ltac:(simpl in Hlen; lia) m1 E). reflexivity.
Qed.

Section WarmStart.

Context `{Biorbd} `{Jacobians} `{Optimizers}.
Variable self : KinematicChainCalibration.

(** X9. A frame of [step_2] that goes through has read its warm start, has
    got an answer from the backend of the object, one that reports success
    when the backend is ipopt, and has written that answer in its column of
    the kinematic rows; when the kinematic indices are distinct and the answer
    has one value per index, the warm start of the next frame is that
    answer. *)
Theorem step_2_frame_warm_start_chain (p : option vec) (bounds_without_p : vec * vec)
    (index_table_markers index_wu_markers : list nat) (f : nat) (st st' : step_2_locals) :
  NoDup (q_kinematic_index self) ->
  step_2_frame self p bounds_without_p index_table_markers index_wu_markers f st = Ok st' ->
  exists x0 r,
    warm_start self (loc_q_output st) f = Ok x0
    /\ ((ik_solver self = "leastsquare"
         /\ call_least_squares self p bounds_without_p index_table_markers index_wu_markers f x0
            = Ok r)
        \/ (ik_solver self = "ipopt"
            /\ call_minimize_ipopt self p bounds_without_p index_table_markers index_wu_markers
                 f x0 = Ok r
            /\ opt_success r = true))
    /\ set_rows_at (loc_q_output st) (q_kinematic_index self) f (opt_x r)
       = Ok (loc_q_output st')
    /\ (length (opt_x r) = length (q_kinematic_index self) ->
        warm_start self (loc_q_output st') (S f) = Ok (opt_x r)).
Proof.
  intros Hnd E. unfold step_2_frame in E.
  apply bind_Ok_inv in E as (x0 & Hx0 & E).
  apply bind_Ok_inv in E as (solved & Hsolved & E).
  apply bind_Ok_inv in E as (eps & _ & E).
  assert (Eq : loc_q_output st' = fst solved) by (injection E as <-; reflexivity).
  rewrite Eq. clear E Eq.
  assert (G : exists r,
             ((ik_solver self = "leastsquare"
               /\ call_least_squares self p bounds_without_p index_table_markers
                    index_wu_markers f x0 = Ok r)
              \/ (ik_solver self = "ipopt"
                  /\ call_minimize_ipopt self p bounds_without_p index_table_markers
                       index_wu_markers f x0 = Ok r
                  /\ opt_success r = true))
             /\ set_rows_at (loc_q_output st) (q_kinematic_index self) f (opt_x r)
                = Ok (fst solved)).
  { destruct (String.eqb_spec (ik_solver self) "leastsquare") as [Els|_].
    - apply bind_Ok_inv in Hsolved as (r & Hr & Hacc). unfold accept_least_squares in Hacc.
      apply bind_Ok_inv in Hacc as (q' & Hq & Hacc).
      exists r. split; [left; split; [exact Els|exact Hr]|].
      rewrite Hq. f_equal. injection Hacc as <-. reflexivity.
    - destruct (String.eqb_spec (ik_solver self) "ipopt") as [Eip|_]; [|discriminate].
      apply bind_Ok_inv in Hsolved as (r & Hr & Hacc). unfold accept_ipopt in Hacc.
      apply bind_Ok_inv in Hacc as (q' & Hq & Hacc).
      apply bind_Ok_inv in Hacc as (tm & _ & Hacc).
      apply bind_Ok_inv in Hacc as (th & _ & Hacc).
      apply bind_Ok_inv in Hacc as (jac & _ & Hacc).
      destruct (opt_success r) eqn:Es; [|discriminate]. cbn [Bool.eqb] in Hacc.
      exists r. split; [right; split; [exact Eip|split; [exact Hr|exact Es]]|].
      rewrite Hq. f_equal. injection Hacc as <-. reflexivity. }
  destruct G as (r & Hcall & Hset).
  exists x0, r. split; [exact Hx0|]. split; [exact Hcall|]. split; [exact Hset|].
  intros Hlen. unfold warm_start. cbn [Nat.eqb].
  replace (S f - 1)%nat with f by lia.
  apply (rows_at_set_rows_at _ _ _ _ _ Hnd Hlen Hset).
Qed.

End WarmStart.

Lemma toy_first_frame :
  exists eps,
    @step_2_frame Toy.biorbd Toy.jacobians Toy.optimizers Toy.kcc
       (Some []) ([-10; -10], [10; 10]) [1; 2]%nat [0%nat] 0 Toy.first_frame
    = Ok {| loc_q_output := [[0; 0]; [0; 0]];
            loc_espilon_markers := Some eps;
            loc_jacobian := Some (JacMatrix []) |}.
Proof. eexists. reflexivity. Qed.

Lemma step_2_frame_warm_start_chain_witness :
  exists st',
    @step_2_frame Toy.biorbd Toy.jacobians Toy.optimizers Toy.kcc
       (Some []) ([-10; -10], [10; 10]) [1; 2]%nat [0%nat] 0 Toy.first_frame = Ok st'
    /\ warm_start Toy.kcc (loc_q_output st') 1 = Ok [0; 0].
Proof.
  destruct toy_first_frame as (eps & E).
  eexists. split; [exact E|].
  destruct (@step_2_frame_warm_start_chain Toy.biorbd Toy.jacobians Toy.optimizers Toy.kcc
              (Some []) ([-10; -10], [10; 10]) [1; 2]%nat [0%nat] 0 Toy.first_frame _
              ltac:(repeat constructor; simpl; intuition discriminate) E)
    as (x0 & r & Hx0 & Hcall & _ & Hnext).
  assert (Ex0 : x0 = [0; 0]) by (cbn in Hx0; congruence). subst x0.
  assert (Er : r = Toy.not_converged [0; 0]).
  { destruct Hcall as [[_ Hr]|[Hs _]]; [cbn in Hr; congruence|discriminate]. }
  subst r. apply Hnext. reflexivity.
Defined.
(** ** solve: what it returns *)

Lemma set_rows_broadcast_same_outside (m m' : matrix) (idxs : list nat) (vals : vec) (n : nat) :
  set_rows_broadcast m idxs vals n = Ok m' -> same_outside idxs m m'.
Proof.
  unfold set_rows_broadcast. intros E.
  apply bind_Ok_inv in E as (u & _ & E).
  apply bind_Ok_inv in E as (vals' & _ & E).
  destruct ((length (hd [] m) =? n)%nat || (n =? 1)%nat); [|discriminate].
  revert E. apply foldM_related.
  - apply same_outside_refl.
  - apply same_outside_trans.
  - intros [i v] s s' Hin Es. cbn [fst snd] in Es.
    apply bind_Ok_inv in Es as (row & Hrow & Es).
    unfold getitem in Hrow. destruct (nth_error s i) as [r|] eqn:Er; [|discriminate].
    injection Hrow as ->.
    split.
    + apply (map_length_set_row s s' i row _ Er (repeat_length v (length row)) Es).
    + intros k Hk. destruct (set_nth_Ok _ _ _ _ Es) as (_ & _ & _ & Hother).
      apply Hother. intros ->. apply Hk. apply (in_combine_l _ _ _ _ Hin).
Qed.

Lemma set_rows_const_same_outside (m m' : matrix) (idxs : list nat) (vals : vec) (n : nat) :
  set_rows_const m idxs vals n = Ok m' -> same_outside idxs m m'.
Proof.
  unfold set_rows_const. destruct (n =? 0)%nat.
  - intros E. apply bind_Ok_inv in E as (u & _ & E).
    destruct (length (hd [] m) =? 0)%nat; [|discriminate].
    injection E as <-. apply same_outside_refl.
  - apply set_rows_broadcast_same_outside.
Qed.

Lemma broadcast_fold_rows (idxs : list nat) :
  NoDup idxs ->
  forall (vals : vec) (m m' : matrix),
    length vals = length idxs ->
    foldM (fun iv acc =>
             let* row := getitem acc (fst iv) in
             set_nth acc (fst iv) (repeat (snd iv) (length row)))
          (combine idxs vals) m = Ok m' ->
    forall k i v,
      nth_error idxs k = Some i -> nth_error vals k = Some v ->
      exists row, nth_error m i = Some row /\ nth_error m' i = Some (repeat v (length row)).
Proof.
  induction 1 as [|i0 idxs Hnotin Hnd IH]; intros vals m m' Hlen E k i v Hi Hv.
  - destruct k; discriminate.
  - destruct vals as [|v0 vals]; [discriminate|].
    cbn [combine foldM fst snd] in E.
    apply bind_Ok_inv in E as (m1 & Hstep & E).
    apply bind_Ok_inv in Hstep as (row & Hrow & Hstep).
    unfold getitem in Hrow. destruct (nth_error m i0) as [r|] eqn:Er; [|discriminate].
    injection Hrow as ->.
    destruct (set_nth_Ok _ _ _ _ Hstep) as (_ & _ & Hnew & Hother).
    assert (Hsame : same_outside idxs m1 m').
    { revert E. apply foldM_related.
      - apply same_outside_refl.
      - apply same_outside_trans.
      - intros [a b] s s' Hin Es. cbn [fst snd] in Es.
        apply bind_Ok_inv in Es as (rw & Hrw & Es).
        unfold getitem in Hrw. destruct (nth_error s a) as [r'|] eqn:Er'; [|discriminate].
        injection Hrw as ->. split.
        + apply (map_length_set_row s s' a rw _ Er' (repeat_length b (length rw)) Es).
        + intros j Hj. destruct (set_nth_Ok _ _ _ _ Es) as (_ & _ & _ & Ho).
          apply Ho. intros ->. apply Hj. apply (in_combine_l _ _ _ _ Hin). }
    destruct k as [|k]; cbn [nth_error] in Hi, Hv.
    + injection Hi as <-. injection Hv as <-.
      exists row. split; [exact Er|]. rewrite (proj2 Hsame i0 Hnotin). exact Hnew.
    + assert (Hne : i <> i0) by (intros ->; apply Hnotin; apply (nth_error_In _ _ Hi)).
      destruct (IH vals m1 m' ltac:(simpl in Hlen; lia) E k i v Hi Hv) as (rw & Hrw & Hrw').
      exists rw. split; [rewrite <- (Hother i Hne); exact Hrw|exact Hrw'].
Qed.

Lemma set_rows_const_rows (m m' : matrix) (idxs : list nat) (vals : vec) (c : nat) :
  NoDup idxs -> length vals = length idxs ->
  Forall (fun r => length r = c) m ->
  set_rows_const m idxs vals (length (hd [] m)) = Ok m' ->
  forall k i v,
    nth_error idxs k = Some i -> nth_error vals k = Some v ->
    nth_error m' i = Some (repeat v c).
Proof.
  intros Hnd Hlen Hrect E k i v Hi Hv. rewrite Forall_forall in Hrect.
  unfold set_rows_const in E. destruct (Nat.eqb_spec (length (hd [] m)) 0) as [E0|E0].
  - apply bind_Ok_inv in E as (u & Hu & E).
    replace (length (hd [] m) =? 0)%nat with true in E
      by (symmetry; apply Nat.eqb_eq; exact E0).
    injection E as <-.
    assert (Hrow : exists row, nth_error m i = Some row).
    { clear - Hu Hi. revert k u Hu Hi. induction idxs as [|a idxs IH]; intros [|k] u Hu Hi;
        try discriminate; cbn [mapM] in Hu; apply bind_Ok_inv in Hu as (ra & Ha & Hu).
      - injection Hi as <-. unfold getitem in Ha. destruct (nth_error m a); [eauto|discriminate].
      - apply bind_Ok_inv in Hu as (u' & Hu' & _). apply (IH k u' Hu' Hi). }
    destruct Hrow as (row & Hrow). rewrite Hrow. f_equal.
    assert (Hc : c = 0%nat).
    { destruct m as [|r0 m0]; [destruct i; discriminate|].
      rewrite <- (Hrect r0 (or_introl eq_refl)). exact E0. }
    pose proof (Hrect row (nth_error_In _ _ Hrow)) as Hl. rewrite Hc in *.
    destruct row; [reflexivity|discriminate].
  - unfold set_rows_broadcast in E.
    apply bind_Ok_inv in E as (u & _ & E).
    unfold values_for in E. rewrite Hlen, Nat.eqb_refl in E. cbn [bind] in E.
    rewrite Nat.eqb_refl in E. cbn [orb] in E.
    destruct (broadcast_fold_rows idxs Hnd vals m m' Hlen E k i v Hi Hv) as (row & Hrow & Hrow').
    rewrite Hrow'. rewrite (Hrect row (nth_error_In _ _ Hrow)). reflexivity.
Qed.

Lemma same_outside_rect (idxs : list nat) (m m' : matrix) (c : nat) :
  same_outside idxs m m' -> Forall (fun r => length r = c) m -> Forall (fun r => length r = c) m'.
Proof.
  intros [Hmap _] Hrect.
  assert (G : forall l, Forall (fun r : list R => length r = c) l
                        <-> Forall (fun n => n = c) (map (@length R) l)).
  { intros l. rewrite Forall_map. reflexivity. }
  apply G. rewrite Hmap. apply G. exact Hrect.
Qed.

Section SolveResult.

Context `{Biorbd} `{Jacobians} `{Optimizers}.
Variable self : KinematicChainCalibration.

Lemma solve_init_values (st0 : solve_locals) :
  solve_init self = Ok st0 ->
  delta_epsilon_markers st0 = 10 - 0
  /\ iteration st0 = 0%nat
  /\ arr_q_output st0 = zeros2 nbQ (snd (shape3 (markers self)))
  /\ length (jacobians_used st0) = 1%nat.
Proof.
  unfold solve_init. intros E.
  apply bind_Ok_inv in E as (guess & _ & E).
  apply bind_Ok_inv in E as (first_ik & _ & E).
  apply bind_Ok_inv in E as (q0 & _ & E).
  apply bind_Ok_inv in E as (bmin & _ & E).
  apply bind_Ok_inv in E as (bmax & _ & E).
  apply bind_Ok_inv in E as (p & _ & E).
  assert (Est : st0 = _) by (symmetry; injection E as E; exact E).
  rewrite Est. repeat split.
Qed.

(** What a pair of steps leaves: the shape of the pose matrix, one more
    Jacobian, and the parameters written in their rows. *)
Lemma solve_body_result (st st' : solve_locals) :
  solve_body self st = Ok st' ->
  map (@length R) (arr_q_output st') = map (@length R) (arr_q_output st)
  /\ length (jacobians_used st') = S (length (jacobians_used st))
  /\ iteration st' = S (iteration st)
  /\ exists written,
       same_outside (q_parameter_index self) (arr_q_output st) written
       /\ exists broadcast,
            set_rows_const written (q_parameter_index self) (loc_p st')
                           (length (hd [] written)) = Ok broadcast
            /\ same_outside (q_kinematic_index self) broadcast (arr_q_output st').
Proof.
  unfold solve_body. intros E.
  apply bind_Ok_inv in E as (q_first & _ & E).
  apply bind_Ok_inv in E as (markers_xp & _ & E).
  apply bind_Ok_inv in E as (q0 & _ & E).
  apply bind_Ok_inv in E as (param_opt & _ & E).
  apply bind_Ok_inv in E as (written & Hw & E).
  apply bind_Ok_inv in E as (q_output & Hq & E).
  apply bind_Ok_inv in E as (second_ik & Hik & E).
  assert (Est : st' = _) by (symmetry; injection E as E; exact E).
  rewrite Est. cbn [arr_q_output jacobians_used iteration loc_p]. clear E Est.
  destruct second_ik as [[q_out eps] j]. cbn [fst snd].
  apply step_2_same_outside in Hik.
  assert (Hws : same_outside (q_parameter_index self) (arr_q_output st) (snd written)).
  { destruct (guess_is_q_output st).
    - apply bind_Ok_inv in Hw as (qo & Hqo & Hw). injection Hw as <-. cbn [snd].
      apply (set_rows_const_same_outside _ _ _ _ _ Hqo).
    - apply bind_Ok_inv in Hw as (g & _ & Hw). injection Hw as <-. cbn [snd].
      apply same_outside_refl. }
  pose proof (set_rows_const_same_outside _ _ _ _ _ Hq) as Hqs.
  split; [|split; [|split]].
  - rewrite (proj1 Hik), (proj1 Hqs), (proj1 Hws). reflexivity.
  - rewrite length_app. simpl. lia.
  - reflexivity.
  - exists (snd written). split; [exact Hws|]. exists q_output. split; [exact Hq|exact Hik].
Qed.

Lemma solve_Returned (threshold : R) (fuel : nat) (q_out : matrix) (p : vec)
    (js : list jacobian_used) :
  solve self threshold fuel = Returned (q_out, p, js) ->
  exists st0 st,
    solve_init self = Ok st0
    /\ solve_loop self threshold fuel st0 = Returned st
    /\ (0 < iteration st)%nat
    /\ q_out = arr_q_output st /\ p = loc_p st /\ js = jacobians_used st.
Proof.
  unfold solve. intros E.
  destruct (solve_init self) as [st0|e] eqn:Einit; [|discriminate].
  destruct (solve_loop self threshold fuel st0) as [st|e|] eqn:Eloop; try discriminate.
  destruct (Nat.eqb_spec (iteration st) 0) as [|Hne]; [discriminate|].
  exists st0, st. assert (Er : (q_out, p, js) = (arr_q_output st, loc_p st, jacobians_used st))
    by congruence.
  injection Er as -> -> ->.
  split; [reflexivity|]. split; [exact Eloop|]. split; [lia|]. repeat split.
Qed.

(** X10. The loop of [solve] starts from the difference [10 - 0]: with a
    threshold of 10 or more no pair of steps is run, and the call raises
    instead of returning, on the unbound name [q_out] when the lines before
    the loop go through. *)
Theorem solve_threshold_of_10_or_more (threshold : R) (fuel : nat) :
  10 <= threshold ->
  exists e,
    solve self threshold fuel = Raised e
    /\ (is_ok (solve_init self) = true -> e = UnboundLocalError).
Proof.
  intros Ht. unfold solve.
  destruct (solve_init self) as [st0|e] eqn:Einit.
  - destruct (solve_init_values st0 Einit) as (Hd & Hit & _).
    assert (El : solve_loop self threshold fuel st0 = Returned st0).
    { destruct fuel; simpl; rewrite Hd;
        destruct (Rgt_dec (Rabs (10 - 0)) threshold) as [Hgt|_]; try reflexivity;
        exfalso; rewrite Rabs_right in Hgt; lra. }
    rewrite El, Hit. exists UnboundLocalError. split; reflexivity.
  - exists e. split; [reflexivity|discriminate].
Qed.

Lemma solve_loop_shape (threshold : R) (st : solve_locals) :
  forall fuel st0,
    map (@length R) (arr_q_output st0) = repeat (snd (shape3 (markers self))) nbQ ->
    length (jacobians_used st0) = S (iteration st0) ->
    solve_loop self threshold fuel st0 = Returned st ->
    map (@length R) (arr_q_output st) = repeat (snd (shape3 (markers self))) nbQ
    /\ length (jacobians_used st) = S (iteration st)
    /\ (iteration st <= iteration st0 + fuel)%nat.
Proof.
  induction fuel as [|fuel IH]; intros st0 Hs Hj; simpl;
    destruct (Rgt_dec (Rabs (delta_epsilon_markers st0)) threshold); try discriminate.
  - intros E. injection E as <-. repeat split; auto; lia.
  - destruct (solve_body self st0) as [st1|e] eqn:Eb; [|discriminate].
    destruct (solve_body_result st0 st1 Eb) as (Hs1 & Hj1 & Hi1 & _).
    intros E. destruct (IH st1) as (R1 & R2 & R3); auto; try congruence.
    repeat split; auto; lia.
  - intros E. injection E as <-. repeat split; auto; lia.
Qed.

(** X11. When [solve] returns, at least one pair of steps has run: the pose
    matrix has one row per coordinate of the model and one column per frame of
    the marker series, and the list of Jacobians has one entry for the first
    IK step and one per pair, two at least. *)
Theorem solve_result_shape (threshold : R) (fuel : nat) (q_out : matrix) (p : vec)
    (js : list jacobian_used) :
  solve self threshold fuel = Returned (q_out, p, js) ->
  map (@length R) q_out = repeat (snd (shape3 (markers self))) nbQ
  /\ (2 <= length js)%nat
  /\ (length js <= S fuel)%nat.
Proof.
  intros E. apply solve_Returned in E as (st0 & st & Hinit & Hloop & Hit & -> & -> & ->).
  destruct (solve_init_values st0 Hinit) as (_ & Hit0 & Hq0 & Hj0).
  destruct (solve_loop_shape threshold st fuel st0) as (Hs & Hj & Hb); auto.
  - rewrite Hq0. unfold zeros2, zeros. rewrite map_repeat, repeat_length. reflexivity.
  - lia.
  - split; [exact Hs|]. lia.
Qed.

(** X12. When [solve] returns, the rows of the parameters hold the
    parameters it returns, each repeated over the frames, provided the
    parameter indices are distinct, none is a kinematic index and the
    parameter optimizer has answered one value per parameter. *)
Theorem solve_broadcasts_parameters (threshold : R) (fuel : nat) (q_out : matrix) (p : vec)
    (js : list jacobian_used) :
  NoDup (q_parameter_index self) ->
  (forall i, In i (q_parameter_index self) -> ~ In i (q_kinematic_index self)) ->
  solve self threshold fuel = Returned (q_out, p, js) ->
  length p = length (q_parameter_index self) ->
  forall k i v,
    nth_error (q_parameter_index self) k = Some i -> nth_error p k = Some v ->
    nth_error q_out i = Some (repeat v (snd (shape3 (markers self)))).
Proof.
  intros Hnd Hdisj E Hlen k i v Hi Hv.
  apply solve_Returned in E as (st0 & st & Hinit & Hloop & Hit & -> & -> & ->).
  destruct (solve_init_values st0 Hinit) as (_ & Hit0 & Hq0 & _).
  set (c := snd (shape3 (markers self))) in *.
  set (P := fun s : solve_locals =>
              Forall (fun r => length r = c) (arr_q_output s)
              /\ ((0 < iteration s)%nat ->
                  length (loc_p s) = length (q_parameter_index self) ->
                  forall k i v,
                    nth_error (q_parameter_index self) k = Some i ->
                    nth_error (loc_p s) k = Some v ->
                    nth_error (arr_q_output s) i = Some (repeat v c))).
  assert (HP : P st).
  { apply (solve_loop_invariant self P threshold) with (fuel := fuel) (st := st0);
      [|split|exact Hloop].
    - intros s s' [Hrect _] Eb.
      destruct (solve_body_result s s' Eb) as (_ & _ & _ & written & Hw & bc & Hbc & Hik).
      pose proof (same_outside_rect _ _ _ c Hw Hrect) as Hrw.
      pose proof (same_outside_rect _ _ _ c (set_rows_const_same_outside _ _ _ _ _ Hbc) Hrw)
        as Hrb.
      split; [apply (same_outside_rect _ _ _ c Hik Hrb)|].
      intros _ Hl k' i' v' Hi' Hv'.
      rewrite (proj2 Hik i') by (apply Hdisj; apply (nth_error_In _ _ Hi')).
      apply (set_rows_const_rows written bc _ _ c Hnd Hl Hrw Hbc k' i' v' Hi' Hv').
    - rewrite Hq0. unfold zeros2, zeros. apply Forall_forall. intros r Hr.
      apply repeat_spec in Hr. subst r. apply repeat_length.
    - rewrite Hit0. lia. }
  destruct HP as [_ HP]. apply (HP Hit Hlen k i v Hi Hv).
Qed.

End SolveResult.
(** ** Runs of solve on the small models *)

Lemma solve_loop_continue `{Biorbd} `{Jacobians} `{Optimizers} (self : KinematicChainCalibration)
    (threshold : R) (fuel : nat) (st st' : solve_locals) :
  Rabs (delta_epsilon_markers st) > threshold ->
  solve_body self st = Ok st' ->
  solve_loop self threshold (S fuel) st = solve_loop self threshold fuel st'.
Proof.
  intros Hgt Eb. simpl.
  destruct (Rgt_dec (Rabs (delta_epsilon_markers st)) threshold); [|contradiction].
  rewrite Eb. reflexivity.
Qed.

Lemma solve_loop_stop `{Biorbd} `{Jacobians} `{Optimizers} (self : KinematicChainCalibration)
    (threshold : R) (fuel : nat) (st : solve_locals) :
  Rabs (delta_epsilon_markers st) <= threshold ->
  solve_loop self threshold fuel st = Returned st.
Proof.
  intros Hle. destruct fuel; simpl;
    destruct (Rgt_dec (Rabs (delta_epsilon_markers st)) threshold); try lra; reflexivity.
Qed.

Lemma toy_solve_returns :
  @solve Toy.biorbd Toy.jacobians Toy.optimizers Toy.kcc 5e-5 2
  = Returned (Toy.seeded, [], [JacMatrix []; JacMatrix []; JacMatrix []]).
Proof.
  unfold solve. rewrite toy_solve_init.
  rewrite (@solve_loop_continue Toy.biorbd Toy.jacobians Toy.optimizers Toy.kcc 5e-5 1
             Toy.solve_start _ ltac:(simpl; rewrite Rabs_right; lra) toy_solve_first_pair).
  rewrite (@solve_loop_continue Toy.biorbd Toy.jacobians Toy.optimizers Toy.kcc 5e-5 0
             Toy.solve_after_first _ ltac:(simpl; rewrite Rabs_left; lra) toy_solve_second_pair).
  rewrite (@solve_loop_stop Toy.biorbd Toy.jacobians Toy.optimizers Toy.kcc 5e-5 0
             Toy.solve_after_second ltac:(simpl; rewrite Rabs_right; lra)).
  reflexivity.
Qed.

Lemma parameter_solve_init :
  @solve_init Toy.biorbd Toy.jacobians Cases2.optimizers Cases2.with_parameter
  = Ok Cases2.solve_start.
Proof.
  unfold solve_init. cbn -[where_zero step_2].
  rewrite !where_zero_zero by lra. cbn -[step_2].
  unfold step_2. cbn -[norm pow]. reflexivity.
Qed.

Lemma parameter_solve_first_pair :
  @solve_body Toy.biorbd Toy.jacobians Cases2.optimizers Cases2.with_parameter
     Cases2.solve_start
  = Ok Cases2.solve_after_first.
Proof.
  unfold solve_body. cbn -[step_2 norm pow]. unfold step_2. cbn -[norm pow].
  rewrite !norm_pow2. cbn. unfold Cases2.solve_after_first, Toy.mid.
  repeat f_equal; lra.
Qed.

Lemma parameter_solve_second_pair :
  @solve_body Toy.biorbd Toy.jacobians Cases2.optimizers Cases2.with_parameter
     Cases2.solve_after_first
  = Ok Cases2.solve_after_second.
Proof.
  unfold solve_body. cbn -[step_2 norm pow]. unfold step_2. cbn -[norm pow].
  rewrite !norm_pow2. cbn. unfold Cases2.solve_after_second, Toy.mid.
  repeat f_equal; lra.
Qed.

Lemma parameter_solve_returns :
  @solve Toy.biorbd Toy.jacobians Cases2.optimizers Cases2.with_parameter 5e-5 2
  = Returned ([[Toy.mid; Toy.mid]; [3; 3]], [3], [JacMatrix []; JacMatrix []; JacMatrix []]).
Proof.
  unfold solve. rewrite parameter_solve_init.
  rewrite (@solve_loop_continue Toy.biorbd Toy.jacobians Cases2.optimizers
             Cases2.with_parameter 5e-5 1 Cases2.solve_start _
             ltac:(simpl; rewrite Rabs_right; lra) parameter_solve_first_pair).
  rewrite (@solve_loop_continue Toy.biorbd Toy.jacobians Cases2.optimizers
             Cases2.with_parameter 5e-5 0 Cases2.solve_after_first _
             ltac:(simpl; rewrite Rabs_left; lra) parameter_solve_second_pair).
  rewrite (@solve_loop_stop Toy.biorbd Toy.jacobians Cases2.optimizers
             Cases2.with_parameter 5e-5 0 Cases2.solve_after_second
             ltac:(simpl; rewrite Rabs_right; lra)).
  reflexivity.
Qed.

Lemma solve_threshold_of_10_or_more_witness :
  exists e,
    @solve Toy.biorbd Toy.jacobians Toy.optimizers Toy.kcc 10 3 = Raised e
    /\ (is_ok (@solve_init Toy.biorbd Toy.jacobians Toy.optimizers Toy.kcc) = true ->
        e = UnboundLocalError).
Proof.
  apply (@solve_threshold_of_10_or_more Toy.biorbd Toy.jacobians Toy.optimizers Toy.kcc 10 3).
  lra.
Defined.

Lemma solve_result_shape_witness :
  map (@length R) Toy.seeded = repeat 2%nat 2
  /\ (2 <= length [JacMatrix []; JacMatrix []; JacMatrix []])%nat
  /\ (length [JacMatrix []; JacMatrix []; JacMatrix []] <= 3)%nat.
Proof.
  apply (@solve_result_shape Toy.biorbd Toy.jacobians Toy.optimizers Toy.kcc 5e-5 2
           Toy.seeded [] _ toy_solve_returns).
Defined.

Lemma solve_broadcasts_parameters_witness :
  nth_error [[Toy.mid; Toy.mid]; [3; 3]] 1 = Some (repeat 3 2).
Proof.
  apply (@solve_broadcasts_parameters Toy.biorbd Toy.jacobians Cases2.optimizers
           Cases2.with_parameter 5e-5 2 _ [3] _
           ltac:(repeat constructor; simpl; tauto)
           ltac:(simpl; intros i [<-|[]] [E|[]]; discriminate)
           parameter_solve_returns eq_refl 0%nat 1%nat 3 eq_refl eq_refl).
Defined.

(** ** The constructor: errors and what a construction guarantees *)

Lemma list_index_Ok (name : string) (names : list string) (k : nat) :
  list_index name names = Ok k ->
  nth_error names k = Some name
  /\ forall j, (j < k)%nat -> nth_error names j <> Some name.
Proof.
  revert k. induction names as [|n names IH]; intros k E; simpl in E; [discriminate|].
  destruct (String.eqb_spec n name) as [->|Hne].
  - injection E as <-. split; [reflexivity|]. intros j Hj. lia.
  - apply bind_Ok_inv in E as (i & Hi & E). injection E as <-.
    destruct (IH i Hi) as [Hn Hfirst]. split; [exact Hn|].
    intros [|j] Hj; simpl; [congruence|]. apply Hfirst. lia.
Qed.

Lemma mapM_Forall2 {A B : Type} (f : A -> result B) (rel : A -> B -> Prop) (l : list A)
    (r : list B) :
  (forall a b, f a = Ok b -> rel a b) -> mapM f l = Ok r -> Forall2 rel l r.
Proof.
  intros Hf. revert r. induction l as [|a l IH]; intros r E; simpl in E.
  - injection E as <-. constructor.
  - apply bind_Ok_inv in E as (b & Hb & E). apply bind_Ok_inv in E as (bs & Hbs & E).
    injection E as <-. constructor; [apply Hf, Hb|apply IH, Hbs].
Qed.

Lemma Forall2_Forall_right {A B : Type} (rel : A -> B -> Prop) (P : A -> Prop)
    (l : list A) (r : list B) :
  Forall2 rel l r -> Forall P l -> Forall (fun b => exists a, rel a b /\ P a) r.
Proof.
  induction 1 as [|a b l r Hab _ IH]; intros F; constructor.
  - exists a. split; [exact Hab|]. inversion F; assumption.
  - apply IH. inversion F; assumption.
Qed.

(** How a construction that goes through has gone. *)
Lemma init_Ok `{Biorbd} `{Random} (a : init_arguments) (g g' : rng)
    (k : KinematicChainCalibration) :
  __init__ a g = (Ok k, g') ->
  exists n np wl,
    init_indices a
    = Ok (markers_model k, n, (table_markers_idx k, model_markers_idx k),
          (q_parameter_index k, q_kinematic_index k))
    /\ arg_nb_frames_ik_step a = Some n /\ nb_frames_ik_step k = n
    /\ arg_nb_frames_param_step a = Some np /\ nb_frames_param_step k = np
    /\ frame_selector (arg_randomize_param_step_frames a) g np n
       = (Ok (list_frames_param_step k), g')
    /\ init_weight_lists a = Ok wl
    /\ weight_list_param k = fst wl /\ weight_list_ik k = snd wl
    /\ markers k = arg_markers a
    /\ parameter_dofs k = arg_parameter_dofs a /\ kinematic_dofs k = arg_kinematic_dofs a
    /\ model_dofs k = nameDof.
Proof.
  unfold __init__. intros E.
  destruct (init_indices a) as [[[[mm n] [ti mi]] [pi ki]]|e] eqn:Ei; [|discriminate].
  destruct (arg_nb_frames_param_step a) as [np|] eqn:Enp; [|discriminate].
  destruct (frame_selector (arg_randomize_param_step_frames a) g np n) as [selected g2] eqn:Ef.
  injection E as Ek Eg. subst g2.
  apply bind_Ok_inv in Ek as (frames & -> & Ek).
  apply bind_Ok_inv in Ek as (wl & Hwl & Ek).
  assert (Ek' : k = _) by (symmetry; injection Ek as Ek; exact Ek). rewrite Ek'. cbn.
  exists n, np, wl.
  assert (En : arg_nb_frames_ik_step a = Some n).
  { unfold init_indices in Ei.
    apply bind_Ok_inv in Ei as (smm & _ & Ei).
    apply bind_Ok_inv in Ei as (n' & Hn & Ei).
    apply bind_Ok_inv in Ei as (mm' & _ & Ei).
    apply bind_Ok_inv in Ei as (ti' & _ & Ei).
    apply bind_Ok_inv in Ei as (mi' & _ & Ei).
    apply bind_Ok_inv in Ei as (pi' & _ & Ei).
    apply bind_Ok_inv in Ei as (ki' & _ & Ei).
    assert (n' = n) by congruence. subst n'.
    destruct (shape_eqb _ _ _ _); [|discriminate].
    destruct (arg_nb_frames_ik_step a); [congruence|discriminate]. }
  repeat split; try reflexivity; assumption.
Qed.

Lemma init_indices_Ok `{Biorbd} (a : init_arguments) (mm : list string) (n : nat)
    (ti mi pi ki : list nat) :
  init_indices a = Ok (mm, n, (ti, mi), (pi, ki)) ->
  mm = arg_markers_model a
  /\ shape3 (arg_markers a) = (3%nat, length mm, n)
  /\ mapM (fun i => list_index i mm) (filter (str_contains "Table") mm) = Ok ti
  /\ mapM (fun dof => list_index dof nameDof) (arg_parameter_dofs a) = Ok pi
  /\ mapM (fun dof => list_index dof nameDof) (arg_kinematic_dofs a) = Ok ki.
Proof.
  unfold init_indices. intros Ei.
  apply bind_Ok_inv in Ei as (smm & Hcheck & Ei).
  apply bind_Ok_inv in Ei as (n' & Hn & Ei).
  apply bind_Ok_inv in Ei as (mm' & Hmm & Ei).
  apply bind_Ok_inv in Ei as (ti' & Hti & Ei).
  apply bind_Ok_inv in Ei as (mi' & _ & Ei).
  apply bind_Ok_inv in Ei as (pi' & Hpi & Ei).
  apply bind_Ok_inv in Ei as (ki' & Hki & Ei).
  assert (Eall : (mm', n', (ti', mi'), (pi', ki')) = (mm, n, (ti, mi), (pi, ki))) by congruence.
  injection Eall as -> -> -> -> -> ->.
  pose proof (check_markers_model_Ok _ _ Hcheck) as Hall.
  unfold check_markers_model in Hcheck.
  rewrite (check_markers_model_from (arg_markers_model a) (arg_markers_model a) None Hall)
    in Hcheck.
  assert (Emm : mm = arg_markers_model a).
  { destruct (arg_markers_model a) as [|m0 rest]; [injection Hcheck as <-; discriminate|].
    injection Hcheck as <-. injection Hmm as <-. reflexivity. }
  split; [exact Emm|]. split; [|repeat split; assumption].
  destruct (shape_eqb (shape3 (arg_markers a)) 3 (length (arg_markers_model a))
                      (arg_nb_frames_ik_step a)) eqn:Es; [|discriminate].
  destruct (arg_nb_frames_ik_step a) as [n0|]; [|discriminate]. injection Hn as ->.
  unfold shape_eqb in Es. apply andb_prop in Es as [Es E3]. apply andb_prop in Es as [E1 E2].
  apply Nat.eqb_eq in E1, E2, E3.
  destruct (shape3 (arg_markers a)) as [[s0 s1] s2]. cbn [fst snd] in *. subst. reflexivity.
Qed.

(** X13. When every name of [markers_model] is a marker of the model and the
    marker series has not the shape [(3, len(markers_model),
    nb_frames_ik_step)], or [nb_frames_ik_step] is left to [None], the
    construction raises [TypeError], not the [ValueError] the constructor
    means to raise: the message it builds calls the shape, a tuple. *)
Theorem init_shape_mismatch `{Biorbd} `{Random} (a : init_arguments) (g : rng) :
  (forall name, In name (arg_markers_model a) -> In name markerNames) ->
  shape_eqb (shape3 (arg_markers a)) 3 (length (arg_markers_model a))
            (arg_nb_frames_ik_step a) = false ->
  __init__ a g = (Raise TypeError, g).
Proof.
  intros Hall Hshape. unfold __init__, init_indices, check_markers_model.
  rewrite (check_markers_model_from (arg_markers_model a) (arg_markers_model a) None Hall).
  cbn [bind]. rewrite Hshape. reflexivity.
Qed.

Lemma init_shape_mismatch_witness :
  @__init__ Toy.biorbd Toy.random
     (Cases3.arguments_with (Some 3%nat) (Some 2%nat) [1; 1; 1; 1; 1] [] ["q0"; "q1"]) 0%nat
  = (Raise TypeError, 0%nat).
Proof.
  apply (@init_shape_mismatch Toy.biorbd Toy.random).
  - intros name Hin. exact Hin.
  - reflexivity.
Defined.

(** X14. When [random.sample] keeps its promise, asking for more calibration
    frames than there are frames makes the construction raise [ValueError],
    once the names and the shape have been accepted. *)
Theorem init_too_many_param_frames `{Biorbd} `{Random} (contract : sample_contract)
    (a : init_arguments) (g : rng) (n np : nat) :
  is_ok (init_indices a) = true ->
  arg_nb_frames_ik_step a = Some n ->
  arg_nb_frames_param_step a = Some np ->
  (n < np)%nat ->
  exists msg, fst (__init__ a g) = Raise (ValueError msg).
Proof.
  intros Hok Hn Hnp Hlt. unfold __init__.
  destruct (init_indices a) as [[[[mm n'] [ti mi]] [pi ki]]|e] eqn:Ei; [|discriminate].
  assert (n' = n).
  { destruct (init_indices_Ok a mm n' ti mi pi ki Ei) as (_ & Hs & _).
    unfold init_indices in Ei.
    apply bind_Ok_inv in Ei as (smm & _ & Ei).
    apply bind_Ok_inv in Ei as (n0 & Hn0 & Ei).
    apply bind_Ok_inv in Ei as (mm' & _ & Ei).
    apply bind_Ok_inv in Ei as (ti' & _ & Ei).
    apply bind_Ok_inv in Ei as (mi' & _ & Ei).
    apply bind_Ok_inv in Ei as (pi' & _ & Ei).
    apply bind_Ok_inv in Ei as (ki' & _ & Ei).
    assert (n0 = n') by congruence. subst n0.
    destruct (shape_eqb _ _ _ _); [|discriminate]. rewrite Hn in Hn0. congruence. }
  subst n'. rewrite Hnp. unfold frame_selector.
  destruct (contract g n np) as [_ Hout]. destruct (Hout Hlt) as (msg & Hmsg).
  destruct (sample g n np) as [drawn g2]. cbn [fst] in *. subst drawn.
  exists msg. reflexivity.
Qed.

Lemma init_too_many_param_frames_witness :
  exists msg,
    fst (@__init__ Toy.biorbd Toy.random
           (Cases3.arguments_with (Some 2%nat) (Some 5%nat) [1; 1; 1; 1; 1] [] ["q0"; "q1"])
           0%nat)
    = Raise (ValueError msg).
Proof.
  apply (@init_too_many_param_frames Toy.biorbd Toy.random toy_sample_contract _ 0%nat 2 5);
    [reflexivity|reflexivity|reflexivity|lia].
Defined.

Lemma init_weight_lists_short (a : init_arguments) :
  (length (arg_weights_param a) < 5)%nat \/ (length (arg_weights_ik a) < 5)%nat ->
  init_weight_lists a = Raise IndexError.
Proof.
  intros Hshort. unfold init_weight_lists.
  destruct (arg_weights_param a) as [|p0 [|p1 [|p2 [|p3 [|p4 pr]]]]];
    destruct (arg_weights_ik a) as [|i0 [|i1 [|i2 [|i3 [|i4 ir]]]]];
    try reflexivity; simpl in Hshort; lia.
Qed.

(** X15. Each list of weights is read at the indices 0 to 4: with fewer than
    five weights for either backend the construction raises [IndexError], once
    the names, the shape and the calibration frames have been accepted. *)
Theorem init_too_few_weights `{Biorbd} `{Random} (a : init_arguments) (g : rng)
    (n np : nat) (frames : list nat) :
  is_ok (init_indices a) = true ->
  arg_nb_frames_ik_step a = Some n ->
  arg_nb_frames_param_step a = Some np ->
  fst (sample g n np) = Ok frames ->
  (length (arg_weights_param a) < 5)%nat \/ (length (arg_weights_ik a) < 5)%nat ->
  fst (__init__ a g) = Raise IndexError.
Proof.
  intros Hok Hn Hnp Hs Hshort. unfold __init__.
  destruct (init_indices a) as [[[[mm n'] [ti mi]] [pi ki]]|e] eqn:Ei; [|discriminate].
  assert (n' = n).
  { unfold init_indices in Ei.
    apply bind_Ok_inv in Ei as (smm & _ & Ei).
    apply bind_Ok_inv in Ei as (n0 & Hn0 & Ei).
    apply bind_Ok_inv in Ei as (mm' & _ & Ei).
    apply bind_Ok_inv in Ei as (ti' & _ & Ei).
    apply bind_Ok_inv in Ei as (mi' & _ & Ei).
    apply bind_Ok_inv in Ei as (pi' & _ & Ei).
    apply bind_Ok_inv in Ei as (ki' & _ & Ei).
    assert (n0 = n') by congruence. subst n0.
    destruct (shape_eqb _ _ _ _); [|discriminate]. rewrite Hn in Hn0. congruence. }
  subst n'. rewrite Hnp. unfold frame_selector.
  destruct (sample g n np) as [drawn g2]. cbn [fst] in Hs. subst drawn.
  cbn [bind fst]. rewrite (init_weight_lists_short a Hshort). reflexivity.
Qed.

Lemma init_too_few_weights_witness :
  fst (@__init__ Toy.biorbd Toy.random
         (Cases3.arguments_with (Some 2%nat) (Some 2%nat) [1; 1; 1; 1] [] ["q0"; "q1"]) 0%nat)
  = Raise IndexError.
Proof.
  apply (@init_too_few_weights Toy.biorbd Toy.random _ 0%nat 2 2 [0; 1]%nat);
    [reflexivity|reflexivity|reflexivity|reflexivity|left; simpl; lia].
Defined.

(** X16. After a construction that goes through, every parameter index and
    every kinematic index is the position, in the names of the coordinates of
    the model, of the name it was looked up for; every table index is the
    position of a name of [markers_model] that contains "Table"; and the marker
    series has three rows, one column per name of [markers_model] and
    [nb_frames_ik_step] frames. *)
Theorem init_indices_point_at_names `{Biorbd} `{Random} (a : init_arguments) (g g' : rng)
    (k : KinematicChainCalibration) :
  __init__ a g = (Ok k, g') ->
  Forall2 (fun dof i => nth_error nameDof i = Some dof) (parameter_dofs k) (q_parameter_index k)
  /\ Forall2 (fun dof i => nth_error nameDof i = Some dof)
             (kinematic_dofs k) (q_kinematic_index k)
  /\ Forall (fun i => exists name, nth_error (markers_model k) i = Some name
                                   /\ str_contains "Table" name = true)
            (table_markers_idx k)
  /\ shape3 (markers k) = (3%nat, length (markers_model k), nb_frames_ik_step k).
Proof.
  intros E. destruct (init_Ok a g g' k E)
    as (n & np & wl & Hi & _ & Hn & _ & _ & _ & _ & _ & _ & Hm & Hp & Hk & _).
  destruct (init_indices_Ok _ _ _ _ _ _ _ Hi) as (_ & Hs & Hti & Hpi & Hki).
  rewrite Hm, Hp, Hk, Hn.
  split; [|split; [|split; [|exact Hs]]].
  - apply (mapM_Forall2 _ _ _ _ (fun d i Hd => proj1 (list_index_Ok d nameDof i Hd)) Hpi).
  - apply (mapM_Forall2 _ _ _ _ (fun d i Hd => proj1 (list_index_Ok d nameDof i Hd)) Hki).
  - assert (G : Forall2 (fun name i => nth_error (markers_model k) i = Some name)
                        (filter (str_contains "Table") (markers_model k)) (table_markers_idx k)).
    { apply (mapM_Forall2 _ _ _ _
               (fun d i Hd => proj1 (list_index_Ok d (markers_model k) i Hd)) Hti). }
    assert (F : Forall (fun name => str_contains "Table" name = true)
                       (filter (str_contains "Table") (markers_model k))).
    { apply Forall_forall. intros name Hin. apply filter_In in Hin. tauto. }
    apply (Forall2_Forall_right _ _ _ _ G F).
Qed.

Lemma init_indices_point_at_names_witness :
  Forall2 (fun dof i => nth_error (@nameDof Toy.biorbd) i = Some dof)
          (kinematic_dofs Toy.kcc) (q_kinematic_index Toy.kcc).
Proof.
  apply (@init_indices_point_at_names Toy.biorbd Toy.random Toy.arguments 0%nat 1%nat Toy.kcc
           toy_init).
Defined.

(** X17. When [random.sample] keeps its promise, a construction that goes
    through has drawn the calibration frames as the data model asks: as many
    as [nb_frames_param_step], which is at most [nb_frames_ik_step], strictly
    increasing, each a frame of the trial. *)
Theorem init_calibration_frames `{Biorbd} `{Random} (contract : sample_contract)
    (a : init_arguments) (g g' : rng) (k : KinematicChainCalibration) :
  __init__ a g = (Ok k, g') ->
  length (list_frames_param_step k) = nb_frames_param_step k
  /\ (nb_frames_param_step k <= nb_frames_ik_step k)%nat
  /\ StronglySorted lt (list_frames_param_step k)
  /\ Forall (fun f => (f < nb_frames_ik_step k)%nat) (list_frames_param_step k).
Proof.
  intros E. destruct (init_Ok a g g' k E)
    as (n & np & wl & _ & _ & Hn & _ & Hnp & Hf & _).
  rewrite Hn, Hnp. unfold frame_selector in Hf.
  destruct (contract g n np) as [Hin Hout].
  destruct (sample g n np) as [drawn g2] eqn:Es. cbn [fst] in *.
  assert (Hd : (let* list_frames := drawn in Ok (sort list_frames))
               = Ok (list_frames_param_step k)) by congruence.
  apply bind_Ok_inv in Hd as (l & -> & Hl). injection Hl as Hl.
  destruct (Nat.le_gt_cases np n) as [Hle|Hgt].
  - destruct (Hin Hle) as (l' & El & Hlen & Hnd & Hrange).
    injection El as <-. rewrite <- Hl.
    pose proof (sort_perm l) as Hp.
    split; [rewrite (Permutation_length Hp); exact Hlen|].
    split; [exact Hle|]. split; [apply sort_strictly_increasing, Hnd|].
    rewrite Forall_forall in *. intros f Hfin. apply Hrange.
    apply (Permutation_in _ Hp), Hfin.
  - destruct (Hout Hgt) as (msg & Hmsg). discriminate.
Qed.

Lemma init_calibration_frames_witness :
  length (list_frames_param_step Toy.kcc) = nb_frames_param_step Toy.kcc
  /\ (nb_frames_param_step Toy.kcc <= nb_frames_ik_step Toy.kcc)%nat
  /\ StronglySorted lt (list_frames_param_step Toy.kcc)
  /\ Forall (fun f => (f < nb_frames_ik_step Toy.kcc)%nat) (list_frames_param_step Toy.kcc).
Proof.
  apply (@init_calibration_frames Toy.biorbd Toy.random toy_sample_contract Toy.arguments
           0%nat 1%nat Toy.kcc toy_init).
Defined.

(** X18. After a construction that goes through, the two weight lists have
    the same length: five entries for the rotation block, one for the pivot,
    [3 * len(closed_loop_markers) - 1] for the closed loop, three per tracked
    marker that is not a closed-loop marker, and one per row of the initial
    guess beyond the number of parameters. *)
Theorem init_weight_list_lengths `{Biorbd} `{Random} (a : init_arguments) (g g' : rng)
    (k : KinematicChainCalibration) :
  __init__ a g = (Ok k, g') ->
  let nb_closed := (length (arg_closed_loop_markers a) * 3 - 1)%nat in
  let nb_open :=
    (length (filter (fun i => negb (py_in i (arg_closed_loop_markers a))) (arg_tracked_markers a))
     * 3)%nat in
  let nb_continuity := (length (arg_q_ik_initial_guess a) - length (arg_parameter_dofs a))%nat in
  length (weight_list_param k) = (nb_closed + nb_open + nb_continuity + 1 + 5)%nat
  /\ length (weight_list_ik k) = length (weight_list_param k).
Proof.
  intros E nb_closed nb_open nb_continuity.
  destruct (init_Ok a g g' k E)
    as (n & np & wl & _ & _ & _ & _ & _ & _ & Hwl & Hp & Hi & _).
  rewrite Hp, Hi. unfold init_weight_lists in Hwl.
  fold nb_closed nb_open nb_continuity in Hwl.
  apply bind_Ok_inv in Hwl as (wp0 & _ & Hwl).
  apply bind_Ok_inv in Hwl as (wi0 & _ & Hwl).
  apply bind_Ok_inv in Hwl as (wp1 & _ & Hwl).
  apply bind_Ok_inv in Hwl as (wi1 & _ & Hwl).
  apply bind_Ok_inv in Hwl as (wp4 & _ & Hwl).
  apply bind_Ok_inv in Hwl as (wi4 & _ & Hwl).
  apply bind_Ok_inv in Hwl as (wp2 & _ & Hwl).
  apply bind_Ok_inv in Hwl as (wi2 & _ & Hwl).
  apply bind_Ok_inv in Hwl as (wp3 & _ & Hwl).
  apply bind_Ok_inv in Hwl as (wi3 & _ & Hwl).
  assert (Ew : wl = _) by (symmetry; injection Hwl as Hwl; exact Hwl).
  rewrite Ew. cbn [fst snd]. unfold replicate.
  rewrite !length_app, !repeat_length. cbn [length]. lia.
Qed.

Lemma init_weight_list_lengths_witness :
  length (weight_list_param Toy.kcc) = (5 + 3 + 2 + 1 + 5)%nat
  /\ length (weight_list_ik Toy.kcc) = length (weight_list_param Toy.kcc).
Proof.
  apply (@init_weight_list_lengths Toy.biorbd Toy.random Toy.arguments 0%nat 1%nat Toy.kcc
           toy_init).
Defined.

(** ** frame_selector: all the frames *)

Lemma strictly_increasing_bound (l : list nat) (lo hi : nat) :
  StronglySorted lt l -> Forall (fun i => (lo <= i < hi)%nat) l -> (length l <= hi - lo)%nat.
Proof.
  intros Hs. revert lo. induction Hs as [|i l Hs IH Hall]; intros lo Hr; [simpl; lia|].
  inversion Hr as [|? ? Hi Hr']; subst.
  assert (Hl : Forall (fun j => (S i <= j < hi)%nat) l).
  { rewrite Forall_forall in *. intros j Hj. specialize (Hall j Hj). specialize (Hr' j Hj). lia. }
  specialize (IH (S i) Hl). simpl. lia.
Qed.

Lemma strictly_increasing_full (l : list nat) (lo : nat) :
  StronglySorted lt l -> Forall (fun i => (lo <= i < lo + length l)%nat) l ->
  l = seq lo (length l).
Proof.
  intros Hs. revert lo. induction Hs as [|i l Hs IH Hall]; intros lo Hr; [reflexivity|].
  inversion Hr as [|? ? Hi Hr']; subst. cbn [length] in *.
  assert (Hl : Forall (fun j => (S i <= j < lo + S (length l))%nat) l).
  { rewrite Forall_forall in *. intros j Hj. specialize (Hall j Hj). specialize (Hr' j Hj). lia. }
  pose proof (strictly_increasing_bound l (S i) (lo + S (length l)) Hs Hl) as Hb.
  assert (i = lo) by lia. subst i.
  cbn [seq]. f_equal. apply IH.
  rewrite Forall_forall in *. intros j Hj. specialize (Hl j Hj). lia.
Qed.

(** X19. When [random.sample] keeps its promise, selecting as many frames as
    there are returns every frame, in order, whatever the generator draws. *)
Theorem frame_selector_all_frames `{Random} (contract : sample_contract)
    (flag : bool) (g : rng) (frames : nat) :
  fst (frame_selector flag g frames frames) = Ok (seq 0 frames).
Proof.
  unfold frame_selector. destruct (contract g frames frames) as [Hin _].
  destruct (Hin (Nat.le_refl frames)) as (l & El & Hlen & Hnd & Hrange).
  destruct (sample g frames frames) as [drawn g']. cbn [fst] in *. subst drawn.
  cbn [bind]. f_equal.
  pose proof (sort_perm l) as Hp.
  assert (Hl : length (sort l) = frames) by (rewrite (Permutation_length Hp); exact Hlen).
  rewrite <- Hl. apply strictly_increasing_full.
  - apply sort_strictly_increasing, Hnd.
  - rewrite Forall_forall in *. intros i Hi. rewrite Hl.
    specialize (Hrange i (Permutation_in _ Hp Hi)). lia.
Qed.

Lemma frame_selector_all_frames_witness :
  fst (@frame_selector Toy.random false 7%nat 5 5) = Ok [0; 1; 2; 3; 4]%nat.
Proof.
  apply (@frame_selector_all_frames Toy.random toy_sample_contract false 7%nat 5).
Defined.

(** ** objective_function_param: what the returned value is made of *)

Lemma Ok_inj {A : Type} (a b : A) : Ok a = Ok b -> a = b.
Proof. congruence. Qed.

Lemma fold_squares_from (l : vec) (a : R) : a <= fold_left (fun acc i => acc + i ^ 2) l a.
Proof.
  revert a. induction l as [|i l IH]; intros a; [simpl; lra|].
  simpl fold_left. etransitivity; [|apply IH]. pose proof (pow2_ge_0 i). lra.
Qed.

Lemma foldM_nondecreasing {A : Type} (body : A -> R -> result R) (l : list A) :
  (forall a s s', body a s = Ok s' -> s <= s') ->
  forall s r, foldM body l s = Ok r -> s <= r.
Proof.
  intros Hbody. induction l as [|a l IH]; intros s r E.
  - injection E as <-. lra.
  - simpl in E. apply bind_Ok_inv in E as (s' & E1 & E2).
    specialize (Hbody a s s' E1). specialize (IH s' r E2). lra.
Qed.

Section ParamFrames.

Context `{Biorbd}.
Variable self : KinematicChainCalibration.
Variable x : matrix.
Variable markers_calibration : array3.
Variable index_wu_markers : list nat.

Lemma param_frame_Ok (f : nat) (st st' : param_locals) :
  param_frame self x markers_calibration index_wu_markers f st = Ok st' ->
  loc_x0 st' = SameArrayAsQ
  /\ table5_xyz_all_frames st <= table5_xyz_all_frames st'
  /\ table6_xy_all_frames st <= table6_xy_all_frames st'
  /\ mark_out_all_frames st <= mark_out_all_frames st'
  /\ rotation_matrix_all_frames st <= rotation_matrix_all_frames st'
  /\ (exists v, loc_q_continuity st' = Some v /\ 0 <= v)
  /\ (exists v, loc_pivot st' = Some v /\ 0 <= v).
Proof.
  intros E. unfold param_frame in E.
  apply bind_Ok_inv in E as (wu_first & _ & E).
  apply bind_Ok_inv in E as (wu_last & _ & E).
  apply bind_Ok_inv in E as (thorax_markers & _ & E).
  apply bind_Ok_inv in E as (table_markers & _ & E).
  apply bind_Ok_inv in E as (x_f & _ & E).
  apply bind_Ok_inv in E as (Q & _ & E).
  apply bind_Ok_inv in E as (table & _ & E).
  apply bind_Ok_inv in E as (d5 & _ & E).
  apply bind_Ok_inv in E as (d6 & _ & E).
  apply bind_Ok_inv in E as (thorax & _ & E).
  apply bind_Ok_inv in E as (row0 & _ & E).
  apply bind_Ok_inv in E as (mark_out & Hmark & E).
  apply bind_Ok_inv in E as (diff & _ & E).
  apply bind_Ok_inv in E as (dq & _ & E).
  apply bind_Ok_inv in E as (pivot & _ & E).
  apply bind_Ok_inv in E as (pm & _ & E).
  apply bind_Ok_inv in E as (px & _ & E).
  apply Ok_inj in E. rewrite <- E. cbn [loc_x0 table5_xyz_all_frames table6_xy_all_frames mark_out_all_frames
                    rotation_matrix_all_frames loc_q_continuity loc_pivot].
  split; [reflexivity|].
  split; [pose proof (pow2_ge_0 (norm d5)); lra|].
  split; [pose proof (pow2_ge_0 (norm d6)); lra|].
  split.
  { assert (0 <= mark_out); [|lra].
    apply (fun Hb => foldM_nondecreasing _ _ Hb _ _ Hmark).
    intros j s s' E'. cbv beta in E'. apply bind_Ok_inv in E' as (d & _ & E').
    assert (s' = s + norm d ^ 2) by congruence. pose proof (pow2_ge_0 (norm d)). lra. }
  split.
  { match goal with |- _ <= _ + ?r => assert (0 <= r); [|lra] end.
    apply fold_squares_from. }
  split; [eexists; split; [reflexivity|apply sum_squares_nonneg]|].
  eexists; split; [reflexivity|apply pow2_ge_0].
Qed.

Lemma param_frames_Ok (l : list nat) (st st' : param_locals) :
  foldM (param_frame self x markers_calibration index_wu_markers) l st = Ok st' ->
  table5_xyz_all_frames st <= table5_xyz_all_frames st'
  /\ table6_xy_all_frames st <= table6_xy_all_frames st'
  /\ mark_out_all_frames st <= mark_out_all_frames st'
  /\ rotation_matrix_all_frames st <= rotation_matrix_all_frames st'
  /\ (l = [] -> st' = st)
  /\ (l <> [] ->
      loc_x0 st' = SameArrayAsQ
      /\ (exists v, loc_q_continuity st' = Some v /\ 0 <= v)
      /\ (exists v, loc_pivot st' = Some v /\ 0 <= v)).
Proof.
  revert st. induction l as [|f l IH]; intros st E.
  - injection E as <-. repeat split; try lra; congruence.
  - simpl in E. apply bind_Ok_inv in E as (st1 & E1 & E2).
    destruct (param_frame_Ok f st st1 E1) as (Hx & H5 & H6 & Hm & Hr & Hq & Hp).
    destruct (IH st1 E2) as (H5' & H6' & Hm' & Hr' & Hnil & Hcons).
    repeat split; try lra; try discriminate.
    all: destruct l as [|f' l]; [rewrite (Hnil eq_refl); assumption|].
    all: apply Hcons; discriminate.
Qed.

(** With two frames or more, the last iteration compares [Q] with itself. *)
Lemma param_frames_continuity (l : list nat) (st st' : param_locals) :
  (2 <= length l)%nat ->
  foldM (param_frame self x markers_calibration index_wu_markers) l st = Ok st' ->
  loc_q_continuity st' = Some 0.
Proof.
  intros Hl E. destruct (exists_last (l := l)) as (l1 & f & ->).
  { intros ->. simpl in Hl. lia. }
  rewrite foldM_app in E. apply bind_Ok_inv in E as (st1 & E1 & E2).
  simpl in E2. apply bind_Ok_inv in E2 as (st2 & E2 & E3). injection E3 as <-.
  destruct (param_frames_Ok l1 st st1 E1) as (_ & _ & _ & _ & _ & Hcons).
  destruct Hcons as (Hx & _).
  { intros ->. rewrite length_app in Hl. simpl in Hl. lia. }
  apply (param_frame_continuity_of_aliased_x0 _ _ _ _ _ _ _ Hx E2).
Qed.

Lemma param_frame_reads (f : nat) (st1 st2 : param_locals) :
  without_q_continuity st1 = without_q_continuity st2 ->
  param_frame self x markers_calibration index_wu_markers f st1
  = param_frame self x markers_calibration index_wu_markers f st2.
Proof.
  destruct st1 as [Q1 b1 t5a t6a ma ra qa pa], st2 as [Q2 b2 t5b t6b mb rb qb pb].
  unfold without_q_continuity. cbn. intros E.
  assert (Q1 = Q2) by congruence.
  assert (b1 = b2) by congruence.
  assert (t5a = t5b) by congruence.
  assert (t6a = t6b) by congruence.
  assert (ma = mb) by congruence.
  assert (ra = rb) by congruence.
  subst. reflexivity.
Qed.

Lemma penalty_q_open_loop_length (q x0 x0' : vec) :
  length x0 = length x0' ->
  match penalty_q_open_loop q x0, penalty_q_open_loop q x0' with
  | Ok a, Ok b => fst a = q /\ fst b = q /\ length (snd a) = length q /\ length (snd b) = length q
  | Raise e, Raise e' => e = e'
  | _, _ => False
  end.
Proof.
  intros E. unfold penalty_q_open_loop.
  destruct (Nat.le_gt_cases (length q) (length x0)) as [Hle|Hgt].
  - destruct (penalty_q_open_loop_from x0 q 0 ([], [])) as [Hok _].
    destruct (penalty_q_open_loop_from x0' q 0 ([], [])) as [Hok' _].
    unfold vec in *. rewrite (Hok Hle), (Hok' ltac:(lia)). cbn [fst snd app skipn].
    rewrite !length_firstn. repeat split; lia.
  - destruct (penalty_q_open_loop_from x0 q 0 ([], [])) as [_ Hko].
    destruct (penalty_q_open_loop_from x0' q 0 ([], [])) as [_ Hko'].
    unfold vec in *. rewrite (Hko ltac:(lia) ltac:(lia)), (Hko' ltac:(lia) ltac:(lia)).
    reflexivity.
Qed.

Lemma param_frame_supplied_x0 (f : nat) (st : param_locals) (x0 x0' : vec) :
  length x0 = length x0' ->
  match
    param_frame self x markers_calibration index_wu_markers f
      {| loc_Q := loc_Q st; loc_x0 := Supplied x0;
         table5_xyz_all_frames := table5_xyz_all_frames st;
         table6_xy_all_frames := table6_xy_all_frames st;
         mark_out_all_frames := mark_out_all_frames st;
         rotation_matrix_all_frames := rotation_matrix_all_frames st;
         loc_q_continuity := loc_q_continuity st; loc_pivot := loc_pivot st |},
    param_frame self x markers_calibration index_wu_markers f
      {| loc_Q := loc_Q st; loc_x0 := Supplied x0';
         table5_xyz_all_frames := table5_xyz_all_frames st;
         table6_xy_all_frames := table6_xy_all_frames st;
         mark_out_all_frames := mark_out_all_frames st;
         rotation_matrix_all_frames := rotation_matrix_all_frames st;
         loc_q_continuity := loc_q_continuity st; loc_pivot := loc_pivot st |}
  with
  | Ok a, Ok b => without_q_continuity a = without_q_continuity b
  | Raise e, Raise e' => e = e'
  | _, _ => False
  end.
Proof.
  intros Elen. unfold param_frame, read_x0.
  cbn [loc_Q loc_x0 table5_xyz_all_frames table6_xy_all_frames mark_out_all_frames
       rotation_matrix_all_frames loc_q_continuity loc_pivot].
  destruct (getitem index_wu_markers 0) as [wu_first|]; cbn [bind]; [|reflexivity].
  destruct (getitem_neg index_wu_markers 1) as [wu_last|]; cbn [bind]; [|reflexivity].
  destruct (markers_slice_at _ _ _ _) as [thorax_markers|]; cbn [bind]; [|reflexivity].
  destruct (markers_from_at _ _ _) as [table_markers|]; cbn [bind]; [|reflexivity].
  destruct (rows_at _ _ _) as [x_f|]; cbn [bind]; [|reflexivity].
  destruct (set_at _ _ _) as [Q|]; cbn [bind]; [|reflexivity].
  destruct (penalty_table_markers _ _ _) as [table|]; cbn [bind]; [|reflexivity].
  destruct (np_sub (firstn 3 _) _) as [d5|]; cbn [bind]; [|reflexivity].
  destruct (np_sub (skipn 3 _) _) as [d6|]; cbn [bind]; [|reflexivity].
  destruct (penalty_open_loop_markers _ _ _) as [thorax|]; cbn [bind]; [|reflexivity].
  destruct (getitem thorax_markers 0) as [row0|]; cbn [bind]; [|reflexivity].
  destruct (foldM _ (seq 0 (length row0)) 0) as [mark_out|]; cbn [bind]; [|reflexivity].
  pose proof (penalty_q_open_loop_length Q x0 x0' Elen) as Hq.
  destruct (penalty_q_open_loop Q x0) as [a|e], (penalty_q_open_loop Q x0') as [b|e'];
    cbn [bind]; try contradiction; [|congruence].
  destruct Hq as (Ha & Hb & Hla & Hlb).
  unfold np_sub. rewrite !broadcast2_same_length by congruence. cbn [bind].
  destruct (theta_pivot_penalty Q) as [pivot|]; cbn [bind]; [|reflexivity].
  destruct (getitem (fst pivot) 0) as [pm|]; cbn [bind]; [|reflexivity].
  destruct (getitem (snd pivot) 0) as [px|]; cbn [bind]; [|reflexivity].
  reflexivity.
Qed.

End ParamFrames.

Section ParamObjective.

Context `{Biorbd}.
Variable self : KinematicChainCalibration.

(** X20. Under weights that are not negative, a value returned by
    [objective_function_param] is not negative. *)
Theorem objective_function_param_nonnegative (p0 : vec) (x : matrix) (x0 : vec)
    (markers_calibration : array3) (weight : vec) (v : R) :
  Forall (fun w => 0 <= w) weight ->
  objective_function_param self p0 x x0 markers_calibration weight = Ok v ->
  0 <= v.
Proof.
  intros Hw E. unfold objective_function_param in E.
  apply bind_Ok_inv in E as (Q & _ & E).
  apply bind_Ok_inv in E as (st & Hst & E).
  apply bind_Ok_inv in E as (w0 & Hw0 & E).
  apply bind_Ok_inv in E as (w1 & Hw1 & E).
  apply bind_Ok_inv in E as (w2 & Hw2 & E).
  apply bind_Ok_inv in E as (pivot & Hpivot & E).
  apply bind_Ok_inv in E as (w3 & Hw3 & E).
  apply bind_Ok_inv in E as (q_continuity & Hqc & E).
  apply bind_Ok_inv in E as (w4 & Hw4 & E).
  apply Ok_inj in E. subst v.
  assert (Hget : forall i w, getitem weight i = Ok w -> 0 <= w).
  { intros i w Ei. unfold getitem in Ei. destruct (nth_error weight i) as [w'|] eqn:En;
      [|discriminate]. apply Ok_inj in Ei. subst w'.
    rewrite Forall_forall in Hw. apply Hw. apply (nth_error_In _ _ En). }
  pose proof (Hget _ _ Hw0). pose proof (Hget _ _ Hw1). pose proof (Hget _ _ Hw2).
  pose proof (Hget _ _ Hw3). pose proof (Hget _ _ Hw4).
  destruct (param_frames_Ok self x markers_calibration _ _ _ _ Hst)
    as (H5 & H6 & Hm & Hr & Hnil & Hcons).
  cbn [table5_xyz_all_frames table6_xy_all_frames mark_out_all_frames
       rotation_matrix_all_frames] in H5, H6, Hm, Hr.
  destruct (seq 0 (length (list_frames_param_step self))) as [|f l] eqn:El.
  { rewrite (Hnil eq_refl) in Hpivot. discriminate. }
  destruct Hcons as (_ & (qc & Eqc & Hqc0) & (pv & Epv & Hpv0)); [discriminate|].
  rewrite Epv in Hpivot. rewrite Eqc in Hqc.
  apply Ok_inj in Hpivot. apply Ok_inj in Hqc. subst pivot q_continuity.
  assert (0 <= w0 * (table5_xyz_all_frames st + table6_xy_all_frames st)) by nra.
  assert (0 <= w1 * mark_out_all_frames st) by nra.
  assert (0 <= w2 * pv) by nra.
  assert (0 <= w3 * qc) by nra.
  assert (0 <= w4 * rotation_matrix_all_frames st) by nra.
  lra.
Qed.

(** X21. Without a calibration frame, [objective_function_param] returns no
    value: the loop body never binds [pivot], and the [return] raises
    [UnboundLocalError] once the parameters are placed and three weights are
    read. *)
Theorem objective_function_param_without_frames (p0 : vec) (x : matrix) (x0 : vec)
    (markers_calibration : array3) (weight : vec) :
  list_frames_param_step self = [] ->
  (forall v, objective_function_param self p0 x x0 markers_calibration weight <> Ok v)
  /\ (is_ok (set_at (zeros (length x)) (q_parameter_index self) p0) = true ->
      (3 <= length weight)%nat ->
      objective_function_param self p0 x x0 markers_calibration weight
      = Raise UnboundLocalError).
Proof.
  intros Hnil. unfold objective_function_param. rewrite Hnil. cbn [length seq foldM].
  destruct (set_at _ _ _) as [Q|e]; cbn [bind is_ok].
  - split.
    + intros v. destruct weight as [|w0 [|w1 [|w2 rest]]]; cbn; discriminate.
    + intros _ Hlen. destruct weight as [|w0 [|w1 [|w2 rest]]]; cbn in Hlen; try lia.
      reflexivity.
  - split; [discriminate|]. intros Hf. discriminate.
Qed.

(** X22. With two calibration frames or more, the value of
    [objective_function_param] depends neither on the initial pose [x0] (given
    its length) nor on the weight of the continuity term: only the last
    frame's continuity term is returned, and it compares [Q] with itself. *)
Theorem objective_function_param_ignores_x0 (p0 : vec) (x : matrix) (x0 x0' : vec)
    (markers_calibration : array3) (w0 w1 w2 w3 w3' w4 : R) (rest : vec) :
  (2 <= length (list_frames_param_step self))%nat ->
  length x0 = length x0' ->
  objective_function_param self p0 x x0 markers_calibration
    (w0 :: w1 :: w2 :: w3 :: w4 :: rest)
  = objective_function_param self p0 x x0' markers_calibration
      (w0 :: w1 :: w2 :: w3' :: w4 :: rest).
Proof.
  intros Hl Elen. unfold objective_function_param.
  destruct (set_at _ _ _) as [Q|e]; cbn [bind]; [|reflexivity].
  set (wu := indices_where _ _ _).
  set (st0 := {| loc_Q := Q; loc_x0 := Supplied x0;
                 table5_xyz_all_frames := 0; table6_xy_all_frames := 0;
                 mark_out_all_frames := 0; rotation_matrix_all_frames := 0;
                 loc_q_continuity := None; loc_pivot := None |}).
  set (st0' := {| loc_Q := Q; loc_x0 := Supplied x0';
                  table5_xyz_all_frames := 0; table6_xy_all_frames := 0;
                  mark_out_all_frames := 0; rotation_matrix_all_frames := 0;
                  loc_q_continuity := None; loc_pivot := None |}).
  set (frames := seq 0 (length (list_frames_param_step self))).
  assert (Hframes : (2 <= length frames)%nat) by (unfold frames; rewrite length_seq; exact Hl).
  assert (Esame : foldM (param_frame self x markers_calibration wu) frames st0
                  = foldM (param_frame self x markers_calibration wu) frames st0').
  { destruct frames as [|f0 [|f1 l]]; cbn [length] in Hframes; try lia.
    cbn [foldM].
    pose proof (param_frame_supplied_x0 self x markers_calibration wu f0 st0 x0 x0' Elen) as H0.
    cbn [loc_Q table5_xyz_all_frames table6_xy_all_frames mark_out_all_frames
         rotation_matrix_all_frames loc_q_continuity loc_pivot st0] in H0.
    fold st0 st0' in H0.
    destruct (param_frame self x markers_calibration wu f0 st0) as [a|e],
             (param_frame self x markers_calibration wu f0 st0') as [b|e'];
      cbn [bind]; try contradiction; [|congruence].
    rewrite (param_frame_reads self x markers_calibration wu f1 a b H0). reflexivity. }
  rewrite <- Esame.
  destruct (foldM _ frames st0) as [st|e] eqn:Est; cbn [bind]; [|reflexivity].
  rewrite (param_frames_continuity self x markers_calibration wu frames st0 st Hframes Est).
  cbn [getitem nth_error bind]. destruct (loc_pivot st) as [pv|]; cbn [bind]; [|reflexivity].
  f_equal. lra.
Qed.

End ParamObjective.

Lemma toy_objective_function_param (w0 w1 w2 w3 w4 : R) :
  @objective_function_param Toy.biorbd Toy.kcc [] Toy.sampled_poses [0; 0] Toy.xp_markers
     [w0; w1; w2; w3; w4]
  = Ok (w0 * (0 + 0) + w1 * 4 + w2 * 0 + w3 * 0 + w4 * 0).
Proof.
  unfold objective_function_param. cbn -[param_frame].
  change (param_frame Toy.kcc Toy.sampled_poses Toy.xp_markers [0%nat] 0 _)
    with (@param_frame Toy.biorbd Toy.kcc Toy.sampled_poses Toy.xp_markers [0%nat] 0
            Toy.param_before).
  rewrite toy_param_first_frame. cbn -[param_frame].
  rewrite toy_param_second_frame. reflexivity.
Qed.

Lemma objective_function_param_nonnegative_witness :
  exists v,
    @objective_function_param Toy.biorbd Toy.kcc [] Toy.sampled_poses [0; 0] Toy.xp_markers
       [1; 1; 1; 1; 1] = Ok v
    /\ 0 <= v.
Proof.
  eexists. split; [apply toy_objective_function_param|].
  apply (@objective_function_param_nonnegative Toy.biorbd Toy.kcc [] Toy.sampled_poses [0; 0]
           Toy.xp_markers [1; 1; 1; 1; 1]).
  - repeat constructor; lra.
  - apply toy_objective_function_param.
Defined.

Lemma objective_function_param_without_frames_witness :
  (forall v,
     @objective_function_param Toy.biorbd Cases4.no_calibration_frame [] Toy.sampled_poses
        [0; 0] Toy.xp_markers [1; 1; 1; 1; 1] <> Ok v)
  /\ @objective_function_param Toy.biorbd Cases4.no_calibration_frame [] Toy.sampled_poses
       [0; 0] Toy.xp_markers [1; 1; 1; 1; 1] = Raise UnboundLocalError.
Proof.
  destruct (@objective_function_param_without_frames Toy.biorbd Cases4.no_calibration_frame []
              Toy.sampled_poses [0; 0] Toy.xp_markers [1; 1; 1; 1; 1] eq_refl)
    as [Hno Hraise].
  split; [exact Hno|]. apply Hraise; [reflexivity|simpl; lia].
Defined.

Lemma objective_function_param_ignores_x0_witness :
  @objective_function_param Toy.biorbd Toy.kcc [] Toy.sampled_poses [0; 0] Toy.xp_markers
     [1; 1; 1; 1; 1]
  = @objective_function_param Toy.biorbd Toy.kcc [] Toy.sampled_poses [5; 5] Toy.xp_markers
      [1; 1; 1; 7; 1].
Proof.
  apply (@objective_function_param_ignores_x0 Toy.biorbd Toy.kcc [] Toy.sampled_poses
           [0; 0] [5; 5] Toy.xp_markers 1 1 1 1 7 1 []).
  - simpl. lia.
  - reflexivity.
Defined.

(** ** solution: the RMS report *)

Lemma mapM_length {A B : Type} (f : A -> result B) (l : list A) (r : list B) :
  mapM f l = Ok r -> length r = length l.
Proof.
  revert r. induction l as [|a l IH]; intros r E.
  - apply Ok_inj in E. subst r. reflexivity.
  - simpl in E. apply bind_Ok_inv in E as (b & _ & E).
    apply bind_Ok_inv in E as (bs & Ebs & E). apply Ok_inj in E. subst r.
    simpl. f_equal. apply IH, Ebs.
Qed.

Lemma mapM_nth_error {A B : Type} (f : A -> result B) (l : list A) (r : list B) (i : nat) (b : B) :
  mapM f l = Ok r -> nth_error r i = Some b ->
  exists a, nth_error l i = Some a /\ f a = Ok b.
Proof.
  revert r i. induction l as [|a l IH]; intros r i E Hi.
  - apply Ok_inj in E. subst r. destruct i; discriminate.
  - simpl in E. apply bind_Ok_inv in E as (b' & Eb & E).
    apply bind_Ok_inv in E as (bs & Ebs & E). apply Ok_inj in E. subst r.
    destruct i as [|i]; simpl in Hi.
    + exists a. split; [reflexivity|]. congruence.
    + apply (IH bs i Ebs Hi).
Qed.

Lemma broadcast2_length (op : R -> R -> R) (a b c : vec) :
  a <> [] -> b <> [] ->
  broadcast2 op a b = Ok c -> length c = Nat.max (length a) (length b).
Proof.
  intros Ha Hb. unfold broadcast2. destruct (Nat.eqb_spec (length a) (length b)) as [E|E].
  - intros Ec. apply Ok_inj in Ec. subst c. rewrite zip_with_length by exact E. lia.
  - destruct a as [|x [|x' a]], b as [|y [|y' b]]; intros Ec; try discriminate;
      try contradiction; apply Ok_inj in Ec; subst c; rewrite length_map; cbn [length] in *; lia.
Qed.

Lemma reshape_F_Ok (a : vec) (n : nat) (res : matrix) :
  reshape_F a n = Ok res ->
  length a = (3 * n)%nat
  /\ res = [ map (fun j => nth (0 + 3 * j) a 0) (seq 0 n);
             map (fun j => nth (1 + 3 * j) a 0) (seq 0 n);
             map (fun j => nth (2 + 3 * j) a 0) (seq 0 n) ].
Proof.
  unfold reshape_F. destruct (Nat.eqb_spec (length a) (3 * n)) as [E|E]; [|discriminate].
  intros Eres. apply Ok_inj in Eres. subst res. split; [exact E|reflexivity].
Qed.

Lemma norms_axis0_rows (f0 f1 f2 : nat -> R) (n : nat) :
  norms_axis0 [map f0 (seq 0 n); map f1 (seq 0 n); map f2 (seq 0 n)]
  = map (fun j => norm [f0 j; f1 j; f2 j]) (seq 0 n).
Proof.
  unfold norms_axis0. cbn [hd]. rewrite length_map, length_seq.
  apply map_ext_in. intros j Hj. apply in_seq in Hj. cbn [map].
  assert (Hnth : forall g : nat -> R, nth j (map g (seq 0 n)) 0 = g j).
  { intros g. rewrite (nth_indep _ 0 (g 0%nat)) by (rewrite length_map, length_seq; lia).
    rewrite map_nth, seq_nth by lia. reflexivity. }
  rewrite !Hnth. reflexivity.
Qed.

Lemma sum_squares_of_norms (f0 f1 f2 : nat -> R) (s : list nat) :
  sum (map (fun v => v ^ 2) (map (fun j => norm [f0 j; f1 j; f2 j]) s))
  = sum (map (fun v => v ^ 2) (map f0 s)) + sum (map (fun v => v ^ 2) (map f1 s))
    + sum (map (fun v => v ^ 2) (map f2 s)).
Proof.
  induction s as [|j s IH]; [simpl; lra|].
  cbn [map sum fold_right]. fold (sum (map (fun v => v ^ 2) (map f0 s))).
  unfold sum in *. rewrite IH. rewrite norm_pow2. unfold sum. cbn [map fold_right]. lra.
Qed.

(** The RMS of the three axes of a frame and the RMS of the norms. *)
Lemma rmse_of_slice (f0 f1 f2 : nat -> R) (n : nat) (t : R) :
  rmse (norms_axis0 [map f0 (seq 0 n); map f1 (seq 0 n); map f2 (seq 0 n)]) = Some t ->
  exists x y z,
    rmse (map f0 (seq 0 n)) = Some x /\ rmse (map f1 (seq 0 n)) = Some y
    /\ rmse (map f2 (seq 0 n)) = Some z
    /\ 0 <= x /\ 0 <= y /\ 0 <= z /\ 0 <= t
    /\ t ^ 2 = x ^ 2 + y ^ 2 + z ^ 2.
Proof.
  rewrite norms_axis0_rows. unfold rmse, mean. intros Et.
  destruct n as [|n]; [discriminate|].
  set (s := seq 0 (S n)) in *.
  assert (Hs : exists j s', s = j :: s') by (unfold s; simpl; eauto).
  destruct Hs as (j & s' & Es).
  pose proof (sum_squares_of_norms f0 f1 f2 s) as Hsum.
  pose proof (sum_squares_nonneg (map f0 s)) as H0.
  pose proof (sum_squares_nonneg (map f1 s)) as H1.
  pose proof (sum_squares_nonneg (map f2 s)) as H2.
  assert (Hlen : forall g : nat -> R, length (map (fun v => v ^ 2) (map g s)) = S (length s')).
  { intros g. rewrite !length_map, Es. reflexivity. }
  assert (Hn : 0 < INR (S (length s'))) by (apply lt_0_INR; lia).
  assert (Hform : forall l : vec, length l = S (length s') ->
            option_map sqrt (match l with [] => None | _ :: _ => Some (sum l / INR (length l)) end)
            = Some (sqrt (sum l / INR (S (length s'))))).
  { intros l Hl. destruct l as [|v l]; [discriminate|]. rewrite Hl. reflexivity. }
  rewrite Hform in Et by (rewrite !length_map, Es; reflexivity).
  rewrite !Hform by apply Hlen.
  apply (f_equal (fun o => match o with Some v => v | None => 0 end)) in Et. subst t.
  do 3 eexists. repeat split; try apply sqrt_pos.
  assert (Hdiv : forall a, 0 <= a -> 0 <= a / INR (S (length s'))).
  { intros a Ha. apply Rmult_le_pos; [exact Ha|]. left. apply Rinv_0_lt_compat, Hn. }
  rewrite !pow2_sqrt.
  - rewrite Hsum. field. lra.
  - apply Hdiv, H2.
  - apply Hdiv, H1.
  - apply Hdiv, H0.
  - apply Hdiv. rewrite Hsum. lra.
Qed.

Section Solution.

Context `{Biorbd}.
Variable self : KinematicChainCalibration.

Lemma solution_Ok (self_gain : option vec) (out : rmse_report) :
  solution self self_gain = Ok out ->
  exists residuals gain,
    mapM (solution_frame self) (seq 0 (nb_frames self)) = Ok residuals
    /\ self_gain = Some gain
    /\ rmse_x out = map (fun res => rmse (nth 0 res [])) (map fst residuals)
    /\ rmse_y out = map (fun res => rmse (nth 1 res [])) (map fst residuals)
    /\ rmse_z out = map (fun res => rmse (nth 2 res [])) (map fst residuals)
    /\ rmse_tot out = map rmse (map norms_axis0 (map fst residuals))
    /\ rmse_x_table out = map (fun res => rmse (nth 0 res [])) (map snd residuals)
    /\ rmse_y_table out = map (fun res => rmse (nth 1 res [])) (map snd residuals)
    /\ rmse_z_table out = map (fun res => rmse (nth 2 res [])) (map snd residuals)
    /\ rmse_tot_table out = map rmse (map norms_axis0 (map snd residuals))
    /\ gain_time out = gain.
Proof.
  unfold solution. intros E. apply bind_Ok_inv in E as (residuals & Hres & E).
  apply bind_Ok_inv in E as (gain & Hgain & E). apply Ok_inj in E. subst out.
  exists residuals, gain. cbn. destruct self_gain as [g|]; [|discriminate].
  apply Ok_inj in Hgain. subst g. repeat split; auto.
Qed.

Lemma solution_frame_Ok (f : nat) (res : matrix * matrix) :
  solution_frame self f = Ok res ->
  exists qi mi open_loop table a b,
    column (q self) f = Ok qi
    /\ frame_at (markers self) f = Ok mi
    /\ penalty_open_loop_markers self (flatten_markers (biorbd_markers qi)) mi = Ok open_loop
    /\ penalty_table_markers self (flatten_markers (biorbd_markers qi)) (map (slice 14 16) mi)
       = Ok table
    /\ np_sub (fst open_loop) (snd open_loop) = Ok a
    /\ np_sub (fst table ++ [0]) (snd table ++ [0]) = Ok b
    /\ reshape_F a (nb_markers_model self) = Ok (fst res)
    /\ reshape_F b (nb_markers_table self) = Ok (snd res).
Proof.
  unfold solution_frame. intros E.
  apply bind_Ok_inv in E as (qi & Hqi & E).
  apply bind_Ok_inv in E as (mi & Hmi & E).
  apply bind_Ok_inv in E as (open_loop & Hopen & E).
  apply bind_Ok_inv in E as (table & Htable & E).
  apply bind_Ok_inv in E as (u & _ & E).
  apply bind_Ok_inv in E as (a & Ha & E).
  apply bind_Ok_inv in E as (b & Hb & E).
  apply bind_Ok_inv in E as (rm & Hrm & E).
  apply bind_Ok_inv in E as (rt & Hrt & E).
  apply Ok_inj in E. subst res. cbn [fst snd].
  exists qi, mi, open_loop, table, a, b. repeat split; assumption.
Qed.

(** X23. In the report of [solution], for the body markers as for the table,
    the total RMS of a frame and the RMS of its three axes satisfy
    [rmse_tot ^ 2 = rmse_x ^ 2 + rmse_y ^ 2 + rmse_z ^ 2]; each list has one
    entry per frame. *)
Theorem solution_rmse_tot_squares (self_gain : option vec) (out : rmse_report) :
  solution self self_gain = Ok out ->
  length (rmse_tot out) = nb_frames self
  /\ length (rmse_tot_table out) = nb_frames self
  /\ (forall f t,
        nth_error (rmse_tot out) f = Some (Some t) ->
        exists x y z,
          nth_error (rmse_x out) f = Some (Some x)
          /\ nth_error (rmse_y out) f = Some (Some y)
          /\ nth_error (rmse_z out) f = Some (Some z)
          /\ t ^ 2 = x ^ 2 + y ^ 2 + z ^ 2)
  /\ (forall f t,
        nth_error (rmse_tot_table out) f = Some (Some t) ->
        exists x y z,
          nth_error (rmse_x_table out) f = Some (Some x)
          /\ nth_error (rmse_y_table out) f = Some (Some y)
          /\ nth_error (rmse_z_table out) f = Some (Some z)
          /\ t ^ 2 = x ^ 2 + y ^ 2 + z ^ 2).
Proof.
  intros E.
  destruct (solution_Ok _ _ E)
    as (residuals & gain & Hres & _ & Ex & Ey & Ez & Et & Ext & Eyt & Ezt & Ett & _).
  rewrite Et, Ett, Ex, Ey, Ez, Ext, Eyt, Ezt. rewrite !length_map.
  rewrite (mapM_length _ _ _ Hres), length_seq.
  split; [reflexivity|]. split; [reflexivity|].
  assert (Hslice : forall (pick : matrix * matrix -> matrix) (n : nat),
            (forall f res, solution_frame self f = Ok res ->
                           exists a, reshape_F a n = Ok (pick res)) ->
            forall f t,
              nth_error (map rmse (map norms_axis0 (map pick residuals))) f = Some (Some t) ->
              exists x y z,
                nth_error (map (fun res => rmse (nth 0 res [])) (map pick residuals)) f
                = Some (Some x)
                /\ nth_error (map (fun res => rmse (nth 1 res [])) (map pick residuals)) f
                   = Some (Some y)
                /\ nth_error (map (fun res => rmse (nth 2 res [])) (map pick residuals)) f
                   = Some (Some z)
                /\ t ^ 2 = x ^ 2 + y ^ 2 + z ^ 2).
  { intros pick n Hpick f t Hf. rewrite !map_map in *. rewrite nth_error_map in Hf.
    destruct (nth_error residuals f) as [res|] eqn:Hnth; [|discriminate].
    cbn [option_map] in Hf.
    destruct (mapM_nth_error _ _ _ _ _ Hres Hnth) as (f' & _ & Hframe).
    destruct (Hpick f' res Hframe) as (a & Ha).
    destruct (reshape_F_Ok _ _ _ Ha) as (_ & Epick).
    rewrite Epick in Hf.
    assert (Ht : rmse (norms_axis0
                   [map (fun j => nth (0 + 3 * j) a 0) (seq 0 n);
                    map (fun j => nth (1 + 3 * j) a 0) (seq 0 n);
                    map (fun j => nth (2 + 3 * j) a 0) (seq 0 n)]) = Some t) by congruence.
    destruct (rmse_of_slice _ _ _ _ _ Ht) as (x & y & z & Hx & Hy & Hz & _ & _ & _ & _ & Hsq).
    exists x, y, z. rewrite !nth_error_map, Hnth. cbn [option_map]. rewrite Epick.
    change (nth 0 [?r0; ?r1; ?r2] []) with r0.
    cbn [nth]. rewrite Hx, Hy, Hz. repeat split; (reflexivity || exact Hsq). }
  split.
  - apply (Hslice fst (nb_markers_model self)). intros f res Hframe.
    destruct (solution_frame_Ok f res Hframe) as (? & ? & ? & ? & a & b & ? & ? & ? & ? & ? & ? & Ha & Hb).
    exists a. exact Ha.
  - apply (Hslice snd (nb_markers_table self)). intros f res Hframe.
    destruct (solution_frame_Ok f res Hframe) as (? & ? & ? & ? & a & b & ? & ? & ? & ? & ? & ? & Ha & Hb).
    exists b. exact Hb.
Qed.

(** X24. [solution] reads the table at the columns 14 and 15 of the marker
    series and reshapes its six residuals into [(3, nb_markers_table)]: when it
    returns a report over one frame or more of a three-row series, the series
    has sixteen markers at least, the object has exactly two table markers,
    and [solve] has set [self.gain]. *)
Theorem solution_requirements (self_gain : option vec) (out : rmse_report) (n k : nat) :
  solution self self_gain = Ok out ->
  (0 < nb_frames self)%nat ->
  shape3 (markers self) = (3, n, k)%nat ->
  (16 <= n)%nat /\ nb_markers_table self = 2%nat /\ self_gain = Some (gain_time out).
Proof.
  intros E Hframes Hshape.
  destruct (solution_Ok _ _ E) as (residuals & gain & Hres & Hgain & _ & _ & _ & _ & _ & _ & _ & _ & Eg).
  destruct (nb_frames self) as [|nf]; [lia|]. cbn [seq mapM] in Hres.
  apply bind_Ok_inv in Hres as (res & Hframe & _).
  destruct (solution_frame_Ok 0 res Hframe)
    as (qi & mi & open_loop & table & a & b & _ & Hmi & _ & Htable & _ & Hb & _ & Hrt).
  unfold shape3 in Hshape.
  destruct (markers self) as [|p0 [|p1 [|p2 [|p3 rest]]]]; try discriminate.
  cbn [hd length] in Hshape. assert (Hn : length p0 = n) by congruence.
  unfold frame_at in Hmi. cbn [mapM] in Hmi.
  apply bind_Ok_inv in Hmi as (m0 & Hm0 & Hmi).
  apply bind_Ok_inv in Hmi as (ms & Hms & Hmi). apply Ok_inj in Hmi. subst mi.
  apply bind_Ok_inv in Hms as (m1 & Hm1 & Hms).
  apply bind_Ok_inv in Hms as (ms' & Hms' & Hms). apply Ok_inj in Hms. subst ms.
  apply bind_Ok_inv in Hms' as (m2 & Hm2 & Hms').
  apply bind_Ok_inv in Hms' as (ms & Hms & Hms'). apply Ok_inj in Hms'. subst ms'.
  apply Ok_inj in Hms. subst ms.
  pose proof (mapM_length _ _ _ Hm0) as Hl0.
  unfold penalty_table_markers in Htable.
  apply bind_Ok_inv in Htable as (i0 & _ & Htable).
  apply bind_Ok_inv in Htable as (table_xp & Hxp & Htable).
  apply bind_Ok_inv in Htable as (i1 & _ & Htable).
  apply bind_Ok_inv in Htable as (table_xp6 & Hxp6 & Htable).
  apply Ok_inj in Htable. subst table. cbn [fst snd] in Hb.
  pose proof (mapM_length _ _ _ Hxp) as Hlxp.
  pose proof (mapM_length _ _ _ Hxp6) as Hlxp6.
  cbn [map firstn length] in Hlxp, Hlxp6.
  split; [|split].
  - unfold column in Hxp6. cbn [map firstn mapM] in Hxp6.
    apply bind_Ok_inv in Hxp6 as (v & Hv & _).
    unfold getitem in Hv. destruct (nth_error (slice 14 16 m0) 1) as [v'|] eqn:Hnth; [|discriminate].
    assert (Hlt : (1 < length (slice 14 16 m0))%nat) by (apply nth_error_Some; congruence).
    unfold slice in Hlt. rewrite length_firstn, length_skipn in Hlt. lia.
  - destruct (reshape_F_Ok _ _ _ Hrt) as (Hlen & _).
    apply broadcast2_length in Hb; [| intros Ea; apply app_eq_nil in Ea as [_ Ea]; discriminate ..].
    rewrite !length_app in Hb. cbn [length] in Hb. unfold slice in Hb.
    rewrite !length_firstn in Hb. unfold vec in *. lia.
  - congruence.
Qed.

End Solution.

Lemma sixteen_solution :
  exists out, @solution Sixteen.biorbd Sixteen.kcc (Some [1]) = Ok out.
Proof.
  eexists. unfold solution.
  lazy -[sqrt Rdiv INR pow Rminus rmse norms_axis0 Rplus Rmult Ropp Rinv IZR]. reflexivity.
Qed.

Lemma solution_rmse_tot_squares_witness :
  exists out,
    @solution Sixteen.biorbd Sixteen.kcc (Some [1]) = Ok out
    /\ length (rmse_tot out) = 1%nat
    /\ forall t, nth_error (rmse_tot out) 0 = Some (Some t) ->
         exists x y z,
           nth_error (rmse_x out) 0 = Some (Some x)
           /\ nth_error (rmse_y out) 0 = Some (Some y)
           /\ nth_error (rmse_z out) 0 = Some (Some z)
           /\ t ^ 2 = x ^ 2 + y ^ 2 + z ^ 2.
Proof.
  destruct sixteen_solution as (out & E). exists out.
  destruct (@solution_rmse_tot_squares Sixteen.biorbd Sixteen.kcc (Some [1]) out E)
    as (Hlen & _ & Hmodel & _).
  split; [exact E|]. split; [exact Hlen|]. intros t. apply Hmodel.
Defined.

Lemma solution_requirements_witness :
  exists out,
    @solution Sixteen.biorbd Sixteen.kcc (Some [1]) = Ok out
    /\ (16 <= 16)%nat /\ nb_markers_table Sixteen.kcc = 2%nat
    /\ Some [1] = Some (gain_time out).
Proof.
  destruct sixteen_solution as (out & E). exists out. split; [exact E|].
  apply (@solution_requirements Sixteen.biorbd Sixteen.kcc (Some [1]) out 16 1 E).
  - simpl. lia.
  - reflexivity.
Defined.

(** ** pivot and plot_param_value: what is printed *)

Lemma float_index_Ok (h : R) (l : vec) (i : nat) :
  float_index h l = Ok i ->
  nth_error l i = Some h /\ forall j, (j < i)%nat -> nth_error l j <> Some h.
Proof.
  revert i. induction l as [|v l IH]; intros i E; [discriminate|].
  simpl in E. destruct (Req_dec_T v h) as [Ev|Ev].
  - apply Ok_inj in E. subst i v. split; [reflexivity|]. intros j Hj. lia.
  - apply bind_Ok_inv in E as (i' & Ei' & E). apply Ok_inj in E. subst i.
    destruct (IH i' Ei') as [Hnth Hfirst]. split; [exact Hnth|].
    intros [|j] Hj; simpl; [congruence|]. apply Hfirst. lia.
Qed.

Lemma getitem_nth {A : Type} (l : list A) (i : nat) (a d : A) :
  getitem l i = Ok a -> nth i l d = a /\ (i < length l)%nat.
Proof.
  unfold getitem. destruct (nth_error l i) as [a'|] eqn:E; [|discriminate].
  intros Ea. apply Ok_inj in Ea. subst a'. split; [apply nth_error_nth, E|].
  apply nth_error_Some. congruence.
Qed.

Section Printed.

Context `{Biorbd}.
Variable self : KinematicChainCalibration.

Lemma pivot_fold (values l : vec) (acc r : list nat) :
  foldM (fun h index_not_zero =>
           if Req_dec_T h 0 then Ok index_not_zero
           else
             let* i := float_index h values in
             Ok (index_not_zero ++ [i]))
        l acc = Ok r ->
  exists found,
    r = acc ++ found
    /\ length found = length (filter (fun h => if Req_dec_T h 0 then false else true) l)
    /\ Forall (fun i => exists v, nth_error values i = Some v /\ v <> 0
                                  /\ forall j, (j < i)%nat -> nth_error values j <> Some v)
              found.
Proof.
  revert acc. induction l as [|h l IH]; intros acc E.
  - apply Ok_inj in E. subst r. exists []. rewrite app_nil_r. repeat split. constructor.
  - simpl in E. apply bind_Ok_inv in E as (acc' & Eh & E).
    destruct (IH acc' E) as (found & Er & Hlen & Hall). simpl filter.
    destruct (Req_dec_T h 0) as [Eh0|Eh0].
    + apply Ok_inj in Eh. subst acc'. exists found. repeat split; assumption.
    + apply bind_Ok_inv in Eh as (i & Ei & Eh). apply Ok_inj in Eh. subst acc'.
      exists (i :: found). rewrite <- app_assoc in Er. split; [exact Er|].
      split; [simpl; f_equal; exact Hlen|]. constructor; [|exact Hall].
      destruct (float_index_Ok _ _ _ Ei) as [Hnth Hfirst]. exists h. repeat split; assumption.
Qed.

(** X25. The list [pivot] prints has one entry per frame whose pivot value is
    not 0, and every entry is the first frame that has the value: a frame over
    the limit whose angle an earlier frame already has is reported under the
    number of that earlier frame, not its own. *)
Theorem pivot_reports_first_occurrences (index_not_zero : list nat) :
  pivot self = Ok index_not_zero ->
  exists values,
    length values = nb_frames self
    /\ (forall i v, nth_error values i = Some v ->
          exists q_i target, column (q self) i = Ok q_i
                             /\ theta_pivot_penalty q_i = Ok ([v], target))
    /\ length index_not_zero
       = length (filter (fun h => if Req_dec_T h 0 then false else true) values)
    /\ Forall (fun i => exists v, nth_error values i = Some v /\ v <> 0
                                  /\ forall j, (j < i)%nat -> nth_error values j <> Some v)
              index_not_zero.
Proof.
  unfold pivot. intros E. apply bind_Ok_inv in E as (pivot_value & Hvalues & E).
  assert (Hsingle : forall frames pv,
            mapM (fun i => let* q_i := column (q self) i in
                           let* pivot_diff := theta_pivot_penalty q_i in
                           Ok (fst pivot_diff)) frames = Ok pv ->
            length (concat pv) = length frames
            /\ forall k v, nth_error (concat pv) k = Some v ->
                 exists i q_i target, nth_error frames k = Some i /\ column (q self) i = Ok q_i
                                      /\ theta_pivot_penalty q_i = Ok ([v], target)).
  { induction frames as [|i frames IH]; intros pv Epv.
    - apply Ok_inj in Epv. subst pv. split; [reflexivity|]. intros [|k] v Hk; discriminate.
    - simpl in Epv. apply bind_Ok_inv in Epv as (first & Efirst & Epv).
      apply bind_Ok_inv in Epv as (pv' & Epv' & Epv). apply Ok_inj in Epv. subst pv.
      apply bind_Ok_inv in Efirst as (q_i & Hq & Efirst).
      apply bind_Ok_inv in Efirst as (d & Hd & Efirst). apply Ok_inj in Efirst. subst first.
      destruct (theta_pivot_penalty_shape _ _ Hd) as [Hl1 Hl2].
      destruct d as [[|v0 [|? ?]] target]; try discriminate. cbn [fst concat app].
      destruct (IH pv' Epv') as [Hlen Hnth]. split; [simpl; f_equal; exact Hlen|].
      intros [|k] v Hk.
      + simpl in Hk. assert (v0 = v) by congruence. subst v0.
        exists i, q_i, target. repeat split; assumption.
      + simpl in Hk. destruct (Hnth k v Hk) as (i' & q' & t' & Hi' & Hq' & Hd').
        exists i', q', t'. repeat split; assumption. }
  destruct (Hsingle _ _ Hvalues) as [Hlen Hnth]. rewrite length_seq in Hlen.
  exists (concat pivot_value). split; [exact Hlen|]. split.
  - intros i v Hi. destruct (Hnth i v Hi) as (i' & q_i & target & Hi' & Hq & Hd).
    assert (i' = i).
    { assert (Hlt : (i < nb_frames self)%nat).
      { rewrite <- Hlen. apply nth_error_Some. congruence. }
      rewrite (nth_error_nth' _ 0%nat) in Hi' by (rewrite length_seq; exact Hlt).
      rewrite seq_nth in Hi' by exact Hlt. simpl in Hi'. congruence. }
    subst i'. exists q_i, target. split; assumption.
  - destruct (pivot_fold _ _ _ _ E) as (found & Er & Hcount & Hall).
    simpl in Er. subst found. split; assumption.
Qed.

(** X26. The loop of [plot_param_value] reports the parameter [i] exactly
    when its value is its own lower bound or the upper bound of the FIRST
    parameter, [bound_param[1][0]]: the upper bound of another parameter is
    never read. *)
Theorem plot_param_value_reports (lower upper param_value : vec) (reported : list nat) :
  plot_param_value self [lower; upper] param_value = Ok reported ->
  forall i,
    In i reported
    <-> (i < nb_parameters_dofs self)%nat
        /\ (nth i param_value 0 = nth i lower 0 \/ nth i param_value 0 = nth 0 upper 0).
Proof.
  unfold plot_param_value. revert reported.
  induction (nb_parameters_dofs self) as [|n IH]; intros reported E i.
  - apply Ok_inj in E. subst reported. simpl. split; [contradiction|]. intros [Hi _]. lia.
  - rewrite seq_S, foldM_app in E. apply bind_Ok_inv in E as (before & Ebefore & E).
    specialize (IH before Ebefore). cbn [Nat.add foldM] in E.
    apply bind_Ok_inv in E as (after & Estep & E). apply Ok_inj in E. subst after.
    apply bind_Ok_inv in Estep as (value & Hvalue & Estep).
    apply bind_Ok_inv in Estep as (lower' & Hlower & Estep).
    apply Ok_inj in Hlower. subst lower'.
    apply bind_Ok_inv in Estep as (lower_i & Hlower_i & Estep).
    destruct (getitem_nth _ _ _ 0 Hvalue) as [Hv _].
    destruct (getitem_nth _ _ _ 0 Hlower_i) as [Hl _].
    assert (Hn : In i (before ++ [n]) <->
                 (i < S n)%nat /\ ((i < n)%nat /\ (nth i param_value 0 = nth i lower 0
                                     \/ nth i param_value 0 = nth 0 upper 0) \/ i = n)).
    { rewrite in_app_iff, IH. simpl. split.
      - intros [[Hi Hc]|[Hi|[]]]; [split; [lia|left; split; assumption]|split; [lia|right; lia]].
      - intros [_ [[Hi Hc]|Hi]]; [left; split; assumption|right; left; lia]. }
    destruct (Req_dec_T value lower_i) as [Eq|Neq].
    + apply Ok_inj in Estep. subst reported. rewrite Hn. split.
      * intros [Hi [[_ Hc]|Hi']]; split; try lia; [exact Hc|]. subst i. left. congruence.
      * intros [Hi Hc]. split; [exact Hi|]. destruct (Nat.eq_dec i n); [right; assumption|].
        left. split; [lia|exact Hc].
    + apply bind_Ok_inv in Estep as (upper' & Hupper & Estep).
      apply Ok_inj in Hupper. subst upper'.
      apply bind_Ok_inv in Estep as (upper_0 & Hupper_0 & Estep).
      destruct (getitem_nth _ _ _ 0 Hupper_0) as [Hu _].
      destruct (Req_dec_T value upper_0) as [Eq'|Neq']; apply Ok_inj in Estep; subst reported.
      * rewrite Hn. split.
        -- intros [Hi [[_ Hc]|Hi']]; split; try lia; [exact Hc|]. subst i. right. congruence.
        -- intros [Hi Hc]. split; [exact Hi|]. destruct (Nat.eq_dec i n); [right; assumption|].
           left. split; [lia|exact Hc].
      * rewrite IH. split.
        -- intros [Hi Hc]. split; [lia|exact Hc].
        -- intros [Hi Hc]. split; [|exact Hc]. destruct (Nat.eq_dec i n) as [->|]; [|lia].
           exfalso. destruct Hc as [Hc|Hc]; congruence.
Qed.

End Printed.

Lemma theta_pivot_penalty_above (front : vec) (a b : R) :
  3 <= a + b -> theta_pivot_penalty (front ++ [a; b]) = Ok ([a + b], [theta_part1_3_lim]).
Proof.
  intros Hs. unfold theta_pivot_penalty.
  rewrite (getitem_neg_app front [a; b] 2 eq_refl), getitem_neg_last. simpl.
  unfold theta_part1_3_lim. pose proof PI_4.
  destruct (Rgt_dec (a + b) (7 * PI / 10)); [reflexivity|lra].
Qed.

Lemma three_frames_pivot : @pivot Reported.three_frames = Ok [0; 0]%nat.
Proof.
  unfold pivot. cbn -[theta_pivot_penalty Req_dec_T].
  rewrite (theta_pivot_penalty_above [] 1 2 ltac:(lra) : theta_pivot_penalty [1; 2] = _).
  rewrite (theta_pivot_penalty_below [] 0 0 ltac:(lra) : theta_pivot_penalty [0; 0] = _).
  cbn -[Req_dec_T].
  repeat match goal with
         | |- context [Req_dec_T ?a ?b] => destruct (Req_dec_T a b); try lra; cbn -[Req_dec_T]
         end.
  reflexivity.
Qed.

Lemma pivot_reports_first_occurrences_witness :
  exists values,
    length values = 3%nat
    /\ (forall i v, nth_error values i = Some v ->
          exists q_i target, column (q Reported.three_frames) i = Ok q_i
                             /\ theta_pivot_penalty q_i = Ok ([v], target))
    /\ length [0; 0]%nat
       = length (filter (fun h => if Req_dec_T h 0 then false else true) values)
    /\ Forall (fun i => exists v, nth_error values i = Some v /\ v <> 0
                                  /\ forall j, (j < i)%nat -> nth_error values j <> Some v)
              [0; 0]%nat.
Proof.
  apply (pivot_reports_first_occurrences Reported.three_frames [0; 0]%nat three_frames_pivot).
Defined.

Lemma two_parameters_report :
  plot_param_value Reported.two_parameters [[-1; -2]; [1; 2]] [1 / 2; 2] = Ok [].
Proof.
  unfold plot_param_value. cbn -[Req_dec_T].
  repeat match goal with
         | |- context [Req_dec_T ?a ?b] => destruct (Req_dec_T a b); try lra; cbn -[Req_dec_T]
         end.
  reflexivity.
Qed.

Lemma plot_param_value_reports_witness :
  plot_param_value Reported.two_parameters [[-1; -2]; [1; 2]] [1 / 2; 2] = Ok []
  /\ (In 1%nat []
      <-> (1 < nb_parameters_dofs Reported.two_parameters)%nat
          /\ (nth 1 [1 / 2; 2] 0 = nth 1 [-1; -2] 0 \/ nth 1 [1 / 2; 2] 0 = nth 0 [1; 2] 0)).
Proof.
  split; [exact two_parameters_report|].
  apply (plot_param_value_reports Reported.two_parameters [-1; -2] [1; 2] [1 / 2; 2] []
           two_parameters_report 1%nat).
Defined.

(** ** IK_Kinova *)

Lemma column_by_entries (m : matrix) (j : nat) :
  column m j
  = mapM (fun o : option R => match o with Some a => Ok a | None => Raise IndexError end)
         (map (fun row => nth_error row j) m).
Proof.
  unfold column. induction m as [|row m IH]; [reflexivity|].
  simpl. rewrite IH. reflexivity.
Qed.

Lemma set_rows_at_other_columns (m m' : matrix) (idxs : list nat) (j : nat) (vals : vec) :
  set_rows_at m idxs j vals = Ok m' ->
  forall j', j' <> j -> column m' j' = column m j'.
Proof.
  unfold set_rows_at. intros E j' Hj'.
  apply bind_Ok_inv in E as (vals' & _ & E).
  revert E. generalize (combine idxs vals'). intros l E.
  apply (foldM_related _ (fun a b : matrix => column b j' = column a j') l
           (fun s => eq_refl)
           (fun s1 s2 s3 H12 H23 => eq_trans H23 H12)) in E; [exact E|].
  intros iv s s' _ Estep.
  apply bind_Ok_inv in Estep as (row & Hrow & Estep).
  apply bind_Ok_inv in Estep as (row' & Hrow' & Estep).
  destruct (set_nth_Ok _ _ _ _ Hrow') as (_ & _ & _ & Hother).
  destruct (set_nth_Ok _ _ _ _ Estep) as (Hlt & Hlen & Hnew & Hrest).
  rewrite !column_by_entries. f_equal.
  apply nth_error_ext. intros k. rewrite !nth_error_map.
  destruct (Nat.eq_dec k (fst iv)) as [->|Hk].
  - rewrite Hnew. unfold getitem in Hrow.
    destruct (nth_error s (fst iv)) as [r|]; [|discriminate].
    apply Ok_inj in Hrow. subst r. simpl. f_equal. apply Hother. exact Hj'.
  - rewrite (Hrest k Hk). reflexivity.
Qed.

Lemma rows_at_from (pre m : matrix) (j : nat) :
  rows_at (pre ++ m) (seq (length pre) (length m)) j = column m j.
Proof.
  revert pre. induction m as [|row m IH]; intros pre; [reflexivity|].
  unfold rows_at, column in *. cbn [length seq mapM].
  unfold getitem at 1. rewrite nth_error_app2, Nat.sub_diag by lia. cbn [nth_error bind].
  specialize (IH (pre ++ [row])). rewrite <- app_assoc, length_app in IH. cbn [length app] in IH.
  rewrite Nat.add_1_r in IH. rewrite IH. reflexivity.
Qed.

Lemma rows_at_all (m : matrix) (j : nat) : rows_at m (seq 0 (length m)) j = column m j.
Proof. apply (rows_at_from [] m j). Qed.

Lemma values_for_Ok (idxs : list nat) (vals vals' : vec) :
  values_for idxs vals = Ok vals' ->
  length vals' = length idxs /\ values_for idxs vals' = Ok vals'.
Proof.
  unfold values_for. destruct (Nat.eqb_spec (length vals) (length idxs)) as [E|E].
  - intros Ev. apply Ok_inj in Ev. subst vals'. split; [exact E|].
    rewrite E, Nat.eqb_refl. reflexivity.
  - destruct vals as [|v [|v' vals]]; try discriminate. intros Ev. apply Ok_inj in Ev.
    subst vals'. rewrite repeat_length, Nat.eqb_refl. split; reflexivity.
Qed.

(** [q[:, f] = value] on a rectangular matrix *)
Lemma set_column (m m' : matrix) (f c : nat) (value : vec) :
  set_rows_at m (seq 0 (length m)) f value = Ok m' ->
  Forall (fun row => length row = c) m ->
  exists vals,
    values_for (seq 0 (length m)) value = Ok vals
    /\ length m' = length m
    /\ Forall (fun row => length row = c) m'
    /\ column m' f = Ok vals
    /\ forall j, j <> f -> column m' j = column m j.
Proof.
  intros E Hrect.
  pose proof (set_rows_at_same_outside _ _ _ _ _ E) as Hsame.
  assert (Hlen : length m' = length m).
  { destruct Hsame as [Hmap _]. apply (f_equal (@length nat)) in Hmap.
    rewrite !length_map in Hmap. exact Hmap. }
  unfold set_rows_at in E. destruct (values_for (seq 0 (length m)) value) as [vals|e] eqn:Ev;
    [|discriminate].
  cbn [bind] in E. destruct (values_for_Ok _ _ _ Ev) as [Hl Hidem].
  assert (E' : set_rows_at m (seq 0 (length m)) f vals = Ok m').
  { unfold set_rows_at. rewrite Hidem. exact E. }
  exists vals. split; [reflexivity|]. split; [exact Hlen|].
  split; [apply (same_outside_rect _ _ _ _ Hsame Hrect)|]. split.
  - rewrite <- rows_at_all, Hlen. apply (rows_at_set_rows_at _ _ _ _ _ (seq_NoDup _ _) Hl E').
  - apply (set_rows_at_other_columns _ _ _ _ _ E').
Qed.

Section Kinova.

Context `{Biorbd} `{Optimizers}.
Variable markers_names : list string.

(** X27. A value of the cost of [IK_Kinova] is never negative, and it is 0
    only at a pose whose last two coordinates are 0 and whose last segment has
    [T[2, 2] = 1]. *)
Theorem IK_Kinova_objective_nonnegative (x q_ik_thorax : vec)
    (table_markers thorax_markers : matrix) (v : R) :
  objective_function markers_names x q_ik_thorax table_markers thorax_markers = Ok v ->
  0 <= v
  /\ (v = 0 ->
      getitem_neg x 1 = Ok 0 /\ getitem_neg x 2 = Ok 0 /\ globalJCS_rot x 2%nat 2%nat = 1).
Proof.
  unfold objective_function. intros E.
  apply bind_Ok_inv in E as (i5 & _ & E).
  apply bind_Ok_inv in E as (m5 & _ & E).
  apply bind_Ok_inv in E as (xp5 & _ & E).
  apply bind_Ok_inv in E as (d5 & _ & E).
  apply bind_Ok_inv in E as (i6 & _ & E).
  apply bind_Ok_inv in E as (m6 & _ & E).
  apply bind_Ok_inv in E as (xp6 & _ & E).
  apply bind_Ok_inv in E as (d6 & _ & E).
  apply bind_Ok_inv in E as (row0 & _ & E).
  apply bind_Ok_inv in E as (mark_out & Hmark & E).
  apply bind_Ok_inv in E as (out3 & Hout3 & E).
  apply bind_Ok_inv in E as (out4 & Hout4 & E).
  apply Ok_inj in E. subst v.
  assert (Hm : 0 <= mark_out).
  { apply (fun Hb => foldM_nondecreasing _ _ Hb _ _ Hmark).
    intros j s s' E'. cbv beta in E'.
    apply bind_Ok_inv in E' as (m_j & _ & E').
    apply bind_Ok_inv in E' as (xp_j & _ & E').
    apply bind_Ok_inv in E' as (d & _ & E').
    assert (s' = s + norm d ^ 2) by congruence. pose proof (pow2_ge_0 (norm d)). lra. }
  assert (H3 : 0 <= out3).
  { apply (fun Hb => foldM_nondecreasing _ _ Hb _ _ Hout3).
    intros iv s s' E'. cbv beta in E'.
    apply bind_Ok_inv in E' as (x_i & _ & E').
    assert (s' = s + (x_i - snd iv) ^ 2) by congruence.
    pose proof (pow2_ge_0 (x_i - snd iv)). lra. }
  cbn [foldM] in Hout4.
  apply bind_Ok_inv in Hout4 as (o1 & Ho1 & Hout4).
  apply bind_Ok_inv in Hout4 as (o2 & Ho2 & Hout4). apply Ok_inj in Hout4. subst o2.
  apply bind_Ok_inv in Ho1 as (x1 & Hx1 & Ho1). apply Ok_inj in Ho1. subst o1.
  apply bind_Ok_inv in Ho2 as (x2 & Hx2 & Ho2). apply Ok_inj in Ho2. subst out4.
  pose proof (pow2_ge_0 (norm d5)) as P5. pose proof (pow2_ge_0 (norm d6)) as P6.
  pose proof (pow2_ge_0 (globalJCS_rot x 2%nat 0%nat)) as R1.
  pose proof (pow2_ge_0 (globalJCS_rot x 2%nat 1%nat)) as R2.
  pose proof (pow2_ge_0 (globalJCS_rot x 0%nat 2%nat)) as R3.
  pose proof (pow2_ge_0 (globalJCS_rot x 1%nat 2%nat)) as R4.
  pose proof (pow2_ge_0 (1 - globalJCS_rot x 2%nat 2%nat)) as R5.
  pose proof (pow2_ge_0 (x1 - 0)) as Q1. pose proof (pow2_ge_0 (x2 - 0)) as Q2.
  split; [lra|]. intros Hv.
  assert (Z1 : (x1 - 0) ^ 2 = 0) by lra.
  assert (Z2 : (x2 - 0) ^ 2 = 0) by lra.
  assert (Z5 : (1 - globalJCS_rot x 2%nat 2%nat) ^ 2 = 0) by lra.
  simpl in Z1, Z2, Z5.
  assert (x1 = 0) by nra. assert (x2 = 0) by nra. subst x1 x2.
  repeat split; try assumption. nra.
Qed.

Lemma IK_Kinova_frame_Ok (markers : array3) (q0 : vec) (q_ik_1 : matrix)
    (bounds : list (R * R)) (f c : nat) (q q' : matrix) :
  IK_Kinova_frame markers_names markers q0 q_ik_1 bounds f q = Ok q' ->
  Forall (fun row => length row = c) q ->
  length q' = length q
  /\ Forall (fun row => length row = c) q'
  /\ (forall j, j <> f -> column q' j = column q j)
  /\ exists x0 q_ik_thorax table_markers thorax_markers pos vals,
       (if (f =? 0)%nat then Ok q0 else column q (f - 1)) = Ok x0
       /\ column q_ik_1 f = Ok q_ik_thorax
       /\ markers_from_at markers 14 f = Ok table_markers
       /\ markers_slice_at markers 0 14 f = Ok thorax_markers
       /\ minimize (fun x => objective_function markers_names x q_ik_thorax table_markers
                               thorax_markers) x0 bounds = Ok pos
       /\ values_for (seq 0 (length q)) (opt_x pos) = Ok vals
       /\ column q' f = Ok vals.
Proof.
  unfold IK_Kinova_frame. intros E Hrect.
  apply bind_Ok_inv in E as (x0 & Hx0 & E).
  apply bind_Ok_inv in E as (q_ik_thorax & Hqik & E).
  apply bind_Ok_inv in E as (table_markers & Htm & E).
  apply bind_Ok_inv in E as (thorax_markers & Hth & E).
  apply bind_Ok_inv in E as (pos & Hpos & E).
  destruct (set_column _ _ _ _ _ E Hrect) as (vals & Hvals & Hlen & Hrect' & Hcol & Hother).
  split; [exact Hlen|]. split; [exact Hrect'|]. split; [exact Hother|].
  exists x0, q_ik_thorax, table_markers, thorax_markers, pos, vals.
  repeat split; assumption.
Qed.

(** X28. When [IK_Kinova] returns, the matrix has one row per coordinate of
    the model and one column per frame; the column of every frame is the
    answer of [optimize.minimize] for the cost of that frame (the table read
    from the markers 14 on, the body from the markers 0 to 13), stored
    whether or not the optimizer reports success; and the search of a frame
    starts from the column of the frame before, the first from [q0]. *)
Theorem IK_Kinova_chain (markers : array3) (q0 : vec) (q_ik_1 q : matrix) :
  IK_Kinova markers_names markers q0 q_ik_1 = Ok q ->
  length q = nbQ
  /\ Forall (fun row => length row = snd (shape3 markers)) q
  /\ forall f, (f < snd (shape3 markers))%nat ->
       exists x0 q_ik_thorax table_markers thorax_markers pos vals,
         (if (f =? 0)%nat then Ok q0 else column q (f - 1)) = Ok x0
         /\ column q_ik_1 f = Ok q_ik_thorax
         /\ markers_from_at markers 14 f = Ok table_markers
         /\ markers_slice_at markers 0 14 f = Ok thorax_markers
         /\ minimize (fun x => objective_function markers_names x q_ik_thorax table_markers
                                 thorax_markers) x0
                     (combine (fst get_range_q) (snd get_range_q)) = Ok pos
         /\ values_for (seq 0 nbQ) (opt_x pos) = Ok vals
         /\ column q f = Ok vals.
Proof.
  unfold IK_Kinova. set (frames := snd (shape3 markers)).
  set (bounds := combine (fst get_range_q) (snd get_range_q)).
  assert (Hloop : forall k qk,
            foldM (IK_Kinova_frame markers_names markers q0 q_ik_1 bounds) (seq 0 k)
                  (zeros2 nbQ frames) = Ok qk ->
            length qk = nbQ
            /\ Forall (fun row => length row = frames) qk
            /\ forall f, (f < k)%nat ->
                 exists x0 q_ik_thorax table_markers thorax_markers pos vals,
                   (if (f =? 0)%nat then Ok q0 else column qk (f - 1)) = Ok x0
                   /\ column q_ik_1 f = Ok q_ik_thorax
                   /\ markers_from_at markers 14 f = Ok table_markers
                   /\ markers_slice_at markers 0 14 f = Ok thorax_markers
                   /\ minimize (fun x => objective_function markers_names x q_ik_thorax
                                           table_markers thorax_markers) x0 bounds = Ok pos
                   /\ values_for (seq 0 nbQ) (opt_x pos) = Ok vals
                   /\ column qk f = Ok vals).
  { induction k as [|k IH]; intros qk E.
    - apply Ok_inj in E. subst qk. unfold zeros2. rewrite repeat_length.
      split; [reflexivity|]. split; [|intros f Hf; lia].
      apply Forall_forall. intros row Hrow. apply repeat_spec in Hrow. subst row.
      unfold zeros. apply repeat_length.
    - rewrite seq_S, foldM_app in E. apply bind_Ok_inv in E as (qk' & Eprev & E).
      cbn [Nat.add foldM] in E. apply bind_Ok_inv in E as (qk'' & Estep & E).
      apply Ok_inj in E. subst qk''.
      destruct (IH qk' Eprev) as (Hlen & Hrect & Hchain).
      destruct (IK_Kinova_frame_Ok _ _ _ _ _ _ _ _ Estep Hrect)
        as (Hlen' & Hrect' & Hother & x0 & qik & tm & th & pos & vals
            & Hx0 & Hqik & Htm & Hth & Hpos & Hvals & Hcol).
      split; [congruence|]. split; [exact Hrect'|].
      intros f Hf. destruct (Nat.eq_dec f k) as [->|Hfk].
      + exists x0, qik, tm, th, pos, vals. rewrite Hlen in Hvals.
        repeat split; try assumption.
        destruct (Nat.eqb_spec k 0) as [Hk|Hk]; [exact Hx0|].
        rewrite Hother by lia. exact Hx0.
      + destruct (Hchain f ltac:(lia)) as (x0' & qik' & tm' & th' & pos' & vals'
            & Hx0' & Hqik' & Htm' & Hth' & Hpos' & Hvals' & Hcol').
        exists x0', qik', tm', th', pos', vals'.
        repeat split; try assumption.
        * destruct (Nat.eqb_spec f 0) as [Hf0|Hf0]; [exact Hx0'|].
          rewrite Hother by lia. exact Hx0'.
        * rewrite Hother by exact Hfk. exact Hcol'. }
  intros E. apply (Hloop frames q E).
Qed.

End Kinova.

Lemma sixteen_objective_function :
  exists v,
    @objective_function Sixteen.biorbd Sixteen.names [0; 0] [0]
       [[0; 1]; [0; 0]; [0; 0]] [repeat 0 14; repeat 0 14; repeat 0 14] = Ok v.
Proof.
  eexists. unfold objective_function.
  lazy -[sqrt Rdiv INR pow Rminus norm Rplus Rmult Ropp Rinv IZR]. reflexivity.
Qed.

Lemma IK_Kinova_objective_nonnegative_witness :
  exists v,
    @objective_function Sixteen.biorbd Sixteen.names [0; 0] [0]
       [[0; 1]; [0; 0]; [0; 0]] [repeat 0 14; repeat 0 14; repeat 0 14] = Ok v
    /\ 0 <= v.
Proof.
  destruct sixteen_objective_function as (v & E). exists v. split; [exact E|].
  apply (@IK_Kinova_objective_nonnegative Sixteen.biorbd Sixteen.names _ _ _ _ v E).
Defined.

Lemma sixteen_IK_Kinova :
  @IK_Kinova Sixteen.biorbd Toy.optimizers Sixteen.names Sixteen.xp_markers_twice [1; 0]
     [[0; 0]]
  = Ok [[1; 1]; [0; 0]].
Proof.
  unfold IK_Kinova. lazy -[Rplus Rmult Ropp Rinv IZR Rminus]. reflexivity.
Qed.

Lemma IK_Kinova_chain_witness :
  length [[1; 1]; [0; 0]] = 2%nat
  /\ Forall (fun row : list R => length row = 2%nat) [[1; 1]; [0; 0]]
  /\ forall f, (f < 2)%nat ->
       exists x0 q_ik_thorax table_markers thorax_markers pos vals,
         (if (f =? 0)%nat then Ok [1; 0] else column [[1; 1]; [0; 0]] (f - 1)) = Ok x0
         /\ column [[0; 0]] f = Ok q_ik_thorax
         /\ markers_from_at Sixteen.xp_markers_twice 14 f = Ok table_markers
         /\ markers_slice_at Sixteen.xp_markers_twice 0 14 f = Ok thorax_markers
         /\ @minimize Toy.optimizers
              (fun x => @objective_function Sixteen.biorbd Sixteen.names x q_ik_thorax
                          table_markers thorax_markers) x0
              (combine (fst (@get_range_q Sixteen.biorbd)) (snd (@get_range_q Sixteen.biorbd)))
            = Ok pos
         /\ values_for (seq 0 2) (opt_x pos) = Ok vals
         /\ column [[1; 1]; [0; 0]] f = Ok vals.
Proof.
  apply (@IK_Kinova_chain Sixteen.biorbd Toy.optimizers Sixteen.names Sixteen.xp_markers_twice
           [1; 0] [[0; 0]] [[1; 1]; [0; 0]] sixteen_IK_Kinova).
Defined.

(** ** ik_parameters_jacobian *)

Lemma concatenate_same_width (blocks : list matrix) :
  (forall r r', In r (concat blocks) -> In r' (concat blocks) -> length r = length r') ->
  concatenate blocks = Ok (concat blocks).
Proof.
  intros Hw. unfold concatenate. destruct (concat blocks) as [|r0 rest] eqn:E; [reflexivity|].
  assert (Hall : forallb (fun r' : list R => (length r' =? length r0)%nat) (r0 :: rest) = true).
  { apply forallb_forall. intros r Hr. apply Nat.eqb_eq. apply Hw; [exact Hr|left; reflexivity]. }
  rewrite Hall. reflexivity.
Qed.

(** X29. [ik_parameters_jacobian] reads the weights of index 0 to 4 and raises
    [IndexError] with fewer; when the rows of its five blocks have one width
    it returns them stacked in the order table, model, continuity, pivot,
    rotation, the continuity block scaled by [weights[3]] and the pivot block
    by [weights[2]]; and it returns nothing else. *)
Theorem ik_parameters_jacobian_blocks `{ParameterJacobians} (self : KinematicChainCalibration)
    (p weights : vec) :
  let table := jacobian_table_parameters p (table_markers_idx self) (q_kinematic_index self) in
  let model :=
    markers_jacobian_model_parameters p (model_markers_idx self) (q_kinematic_index self) in
  let rotation :=
    rotation_matrix_parameter_jacobian p (segment_id_with_vertical_z self)
                                       (q_kinematic_index self) in
  let continuity := jacobian_q_continuity_parameters in
  let pivot := marker_jacobian_theta_parameters in
  ((length weights < 5)%nat -> ik_parameters_jacobian self p weights = Raise IndexError)
  /\ (forall w0 w1 w2 w3 w4 rest,
        weights = w0 :: w1 :: w2 :: w3 :: w4 :: rest ->
        (forall jacobian,
           ik_parameters_jacobian self p weights = Ok jacobian ->
           jacobian = mscale w0 table ++ mscale w1 model ++ mscale w3 continuity
                      ++ mscale w2 pivot ++ mscale w4 rotation)
        /\ ((forall r r', In r (table ++ model ++ continuity ++ pivot ++ rotation) ->
                          In r' (table ++ model ++ continuity ++ pivot ++ rotation) ->
                          length r = length r') ->
            ik_parameters_jacobian self p weights
            = Ok (mscale w0 table ++ mscale w1 model ++ mscale w3 continuity
                  ++ mscale w2 pivot ++ mscale w4 rotation))).
Proof.
  intros table model rotation continuity pivot. split.
  - intros Hlen. unfold ik_parameters_jacobian.
    destruct weights as [|w0 [|w1 [|w2 [|w3 [|w4 rest]]]]]; try reflexivity.
    simpl in Hlen. lia.
  - intros w0 w1 w2 w3 w4 rest ->. unfold ik_parameters_jacobian.
    cbn [getitem nth_error bind]. fold table model rotation continuity pivot.
    set (blocks := [mscale w0 table; mscale w1 model; mscale w3 continuity; mscale w2 pivot;
                    mscale w4 rotation]).
    assert (Hrows : concat blocks
                    = mscale w0 table ++ mscale w1 model ++ mscale w3 continuity
                      ++ mscale w2 pivot ++ mscale w4 rotation)
      by (unfold blocks; simpl; rewrite app_nil_r; reflexivity).
    split.
    + intros jacobian E. rewrite <- Hrows. apply concatenate_Ok, E.
    + intros Hw. rewrite <- Hrows. apply concatenate_same_width.
      assert (Hin : forall row, In row (concat blocks) ->
                    exists row', In row' (table ++ model ++ continuity ++ pivot ++ rotation)
                                 /\ length row = length row').
      { intros row Hrow. rewrite Hrows in Hrow. unfold mscale in Hrow.
        repeat (apply in_app_or in Hrow as [Hrow|Hrow];
                [apply in_map_iff in Hrow as (row' & <- & Hrow'); exists row';
                 split; [|apply length_map];
                 repeat (try (apply in_or_app; left; exact Hrow'); apply in_or_app; right)|]).
        apply in_map_iff in Hrow as (row' & <- & Hrow'). exists row'.
        split; [|apply length_map]. repeat (apply in_or_app; right). exact Hrow'. }
      intros r r' Hr Hr'. destruct (Hin r Hr) as (s & Hs & ->).
      destruct (Hin r' Hr') as (s' & Hs' & ->). apply Hw; assumption.
Qed.

Lemma ik_parameters_jacobian_blocks_witness :
  @ik_parameters_jacobian OneParameter.jacobians Cases2.with_parameter [2] [1; 2; 3; 4; 5]
  = Ok (mscale 1 [[1]; [0]; [0]; [1]; [0]] ++ mscale 2 [[2]; [0]; [0]] ++ mscale 4 [[0]]
        ++ mscale 3 [[1]] ++ mscale 5 [[0]; [0]; [0]; [0]; [0]]).
Proof.
  destruct (@ik_parameters_jacobian_blocks OneParameter.jacobians Cases2.with_parameter [2]
              [1; 2; 3; 4; 5]) as [_ Hblocks].
  destruct (Hblocks 1 2 3 4 5 [] eq_refl) as [_ Hok]. apply Hok.
  intros r r' Hr Hr'. simpl in Hr, Hr'.
  repeat (destruct Hr as [<-|Hr]; [repeat (destruct Hr' as [<-|Hr']; [reflexivity|]); contradiction|]).
  contradiction.
Defined.

(** ** solve: the name of the parameter optimizer *)

Section ParamSolver.

Context `{Biorbd} `{Jacobians} `{Optimizers}.
Variable self : KinematicChainCalibration.

(** X30. [solve] has no branch for a [param_solver] that is neither
    "leastsquare" nor "ipopt", and the constructor accepts any: the call never
    returns, and when the first iteration reaches the parameter step it
    raises [UnboundLocalError] on [param_opt], not the [ValueError] that
    [step_2] has for an unknown [ik_solver]. *)
Theorem solve_unknown_param_solver (threshold : R) (fuel : nat) :
  param_solver self <> "leastsquare" ->
  param_solver self <> "ipopt" ->
  (0 < fuel)%nat ->
  exists e,
    solve self threshold fuel = Raised e
    /\ forall st0 q_first markers_xp q0,
         solve_init self = Ok st0 ->
         columns_at (loc_q_step_2 st0) (list_frames_param_step self) = Ok q_first ->
         frames_at (markers self) (list_frames_param_step self) = Ok markers_xp ->
         column (arr_initial_guess st0) 0 = Ok q0 ->
         e = UnboundLocalError.
Proof.
  intros Hls Hip Hfuel. unfold solve.
  destruct (solve_init self) as [st0|e] eqn:Einit.
  - destruct (solve_init_values self st0 Einit) as (_ & Hit & _).
    destruct fuel as [|fuel]; [lia|]. cbn [solve_loop].
    destruct (Rgt_dec (Rabs (delta_epsilon_markers st0)) threshold) as [Hgt|Hle].
    + assert (Hstep : forall q_first q0 markers_xp,
                param_step self st0 q_first q0 markers_xp = Raise UnboundLocalError).
      { intros. unfold param_step.
        destruct (String.eqb_spec (param_solver self) "leastsquare"); [contradiction|].
        destruct (String.eqb_spec (param_solver self) "ipopt"); [contradiction|].
        reflexivity. }
      unfold solve_body.
      destruct (columns_at _ _) as [q_first|e1] eqn:F1; cbn [bind].
      * destruct (frames_at _ _) as [markers_xp|e2] eqn:F2; cbn [bind].
        -- destruct (column _ 0) as [q0|e3] eqn:F3; cbn [bind].
           ++ rewrite Hstep. cbn [bind]. exists UnboundLocalError. split; reflexivity.
           ++ exists e3. split; [reflexivity|]. intros ? ? ? ? E0 _ _ E3.
              apply Ok_inj in E0. subst. congruence.
        -- exists e2. split; [reflexivity|]. intros ? ? ? ? E0 _ E2 _.
           apply Ok_inj in E0. subst. congruence.
      * exists e1. split; [reflexivity|]. intros ? ? ? ? E0 E1 _ _.
        apply Ok_inj in E0. subst. congruence.
    + rewrite Hit. cbn. exists UnboundLocalError. split; reflexivity.
  - exists e. split; [reflexivity|]. intros; discriminate.
Qed.

End ParamSolver.

Lemma solve_unknown_param_solver_witness :
  exists e,
    @solve Toy.biorbd Toy.jacobians Toy.optimizers Reported2.other_param_solver (1 / 2) 5
    = Raised e.
Proof.
  destruct (@solve_unknown_param_solver Toy.biorbd Toy.jacobians Toy.optimizers
              Reported2.other_param_solver (1 / 2) 5) as (e & He & _).
  - discriminate.
  - discriminate.
  - lia.
  - exists e. exact He.
Defined.

(** ** solve: the first test of the loop *)

(** Before the loop the two residuals are the constants 10 and 0, whatever the
    first IK step has returned: its residual is bound to [epsilon] and not
    read again.  So the test after the first pair compares the residual of
    that pair with 10. *)
Lemma solve_first_test `{Biorbd} `{Jacobians} `{Optimizers} (self : KinematicChainCalibration)
    (st0 st1 : solve_locals) :
  solve_init self = Ok st0 ->
  (exists guess p epsilon jacobian_ini,
     step_2 (with_initial_guess self guess) (Some p) get_range_q
            (zeros2 nbQ (nb_frames_ik_step self))
     = Ok (loc_q_step_2 st0, epsilon, jacobian_ini))
  /\ epsilon_markers_n st0 = 10
  /\ epsilon_markers_n_minus_1 st0 = 0
  /\ (solve_body self st0 = Ok st1 ->
      delta_epsilon_markers st1 = epsilon_markers_n st1 - 10).
Proof.
  intros E. pose proof E as E0. unfold solve_init in E.
  apply bind_Ok_inv in E as (guess & _ & E).
  apply bind_Ok_inv in E as (first_ik & Hik & E).
  apply bind_Ok_inv in E as (q0 & _ & E).
  apply bind_Ok_inv in E as (bmin & _ & E).
  apply bind_Ok_inv in E as (bmax & _ & E).
  apply bind_Ok_inv in E as (p & _ & E).
  apply Ok_inj in E. subst st0. cbn [loc_q_step_2 epsilon_markers_n epsilon_markers_n_minus_1].
  split.
  - exists guess, (zeros (nb_parameters_dofs self)), (snd (fst first_ik)), (snd first_ik).
    rewrite Hik. destruct first_ik as [[a b] c]. reflexivity.
  - split; [reflexivity|]. split; [reflexivity|].
    intros Eb. apply solve_body_pair in Eb as (Hprev & Hdelta & _).
    rewrite Hdelta, Hprev. reflexivity.
Qed.

Lemma first_pair_first_ik :
  @step_2 FirstPair.biorbd Toy.jacobians Cases2.optimizers
     (@with_initial_guess FirstPair.kcc FirstPair.seeded_guess) (Some [0])
     (@get_range_q FirstPair.biorbd) (zeros2 2 2)
  = Ok (FirstPair.seeded_guess, 13, JacMatrix []).
Proof.
  unfold step_2. cbn -[norm pow]. rewrite !norm_pow2. cbn.
  unfold FirstPair.seeded_guess, Toy.mid. repeat f_equal; lra.
Qed.

Lemma first_pair_solve_init :
  @solve_init FirstPair.biorbd Toy.jacobians Cases2.optimizers FirstPair.kcc
  = Ok FirstPair.solve_start.
Proof.
  unfold solve_init. cbn -[where_zero step_2].
  rewrite !where_zero_zero by lra. cbn -[step_2].
  unfold step_2. cbn -[norm pow]. reflexivity.
Qed.

Lemma first_pair_solve_body :
  @solve_body FirstPair.biorbd Toy.jacobians Cases2.optimizers FirstPair.kcc
     FirstPair.solve_start
  = Ok FirstPair.solve_after_first.
Proof.
  unfold solve_body. cbn -[step_2 norm pow]. unfold step_2. cbn -[norm pow].
  rewrite !norm_pow2. cbn. unfold FirstPair.solve_after_first, FirstPair.seeded_guess, Toy.mid.
  repeat f_equal; lra.
Qed.

(** C2, on a trial of two frames whose first IK step leaves the residual 13
    and whose first pair of steps brings it to 10.  The residual has moved by
    3, far above the threshold [5e-5], and [solve] returns all the same after
    that single pair: the difference it tests is [10 - 10], the residual of the
    pair against the constant 10 the loop starts from.  The call returns
    because the residual sits at 10, an absolute value, and not because two
    consecutive residuals are close. *)
Theorem solve_exits_on_residual_of_10 :
  @step_2 FirstPair.biorbd Toy.jacobians Cases2.optimizers
     (@with_initial_guess FirstPair.kcc FirstPair.seeded_guess) (Some [0])
     (@get_range_q FirstPair.biorbd) (zeros2 2 2)
  = Ok (FirstPair.seeded_guess, 13, JacMatrix [])
  /\ @solve_init FirstPair.biorbd Toy.jacobians Cases2.optimizers FirstPair.kcc
     = Ok FirstPair.solve_start
  /\ @solve_body FirstPair.biorbd Toy.jacobians Cases2.optimizers FirstPair.kcc
       FirstPair.solve_start
     = Ok FirstPair.solve_after_first
  /\ @step_2 FirstPair.biorbd Toy.jacobians Cases2.optimizers
       (@with_initial_guess FirstPair.kcc [[Toy.mid; Toy.mid]; [3; 3]]) (Some [3])
       (@get_range_q FirstPair.biorbd) [[0; 0]; [3; 3]]
     = Ok ([[Toy.mid; Toy.mid]; [3; 3]], 10, JacMatrix [])
  /\ Rabs (10 - 13) > 5e-5
  /\ delta_epsilon_markers FirstPair.solve_after_first = 10 - 10
  /\ forall fuel,
       @solve FirstPair.biorbd Toy.jacobians Cases2.optimizers FirstPair.kcc 5e-5 (S fuel)
       = Returned ([[Toy.mid; Toy.mid]; [3; 3]], [3], [JacMatrix []; JacMatrix []]).
Proof.
  split; [exact first_pair_first_ik|]. split; [exact first_pair_solve_init|].
  split; [exact first_pair_solve_body|]. split.
  { unfold step_2. cbn -[norm pow]. rewrite !norm_pow2. cbn. unfold Toy.mid.
    repeat f_equal; lra. }
  split; [rewrite Rabs_left; lra|]. split; [reflexivity|].
  intros fuel. unfold solve. rewrite first_pair_solve_init.
  rewrite (@solve_loop_continue FirstPair.biorbd Toy.jacobians Cases2.optimizers FirstPair.kcc
             5e-5 fuel FirstPair.solve_start _ ltac:(simpl; rewrite Rabs_right; lra)
             first_pair_solve_body).
  rewrite (@solve_loop_stop FirstPair.biorbd Toy.jacobians Cases2.optimizers FirstPair.kcc
             5e-5 fuel FirstPair.solve_after_first ltac:(simpl; rewrite Rabs_right; lra)).
  reflexivity.
Qed.

(** ** The weight list the constructor builds and the blocks of the residual *)

Lemma init_Ok_weights `{Biorbd} `{Random} (a : init_arguments) (g g' : rng)
    (k : KinematicChainCalibration) :
  __init__ a g = (Ok k, g') ->
  weights_param k = arg_weights_param a
  /\ weights_ik k = arg_weights_ik a
  /\ ik_solver k = arg_ik_solver a.
Proof.
  unfold __init__. intros E.
  destruct (init_indices a) as [[[[mm n] [ti mi]] [pi ki]]|e]; [|discriminate].
  destruct (arg_nb_frames_param_step a) as [np|]; [|discriminate].
  destruct (frame_selector (arg_randomize_param_step_frames a) g np n) as [selected g2].
  injection E as Ek Eg.
  apply bind_Ok_inv in Ek as (frames & _ & Ek).
  apply bind_Ok_inv in Ek as (wl & _ & Ek).
  apply Ok_inj in Ek. subst k. repeat split.
Qed.

Lemma init_weight_lists_Ok (a : init_arguments) (wl : vec * vec) :
  init_weight_lists a = Ok wl ->
  exists wp0 wp1 wp2 wp3 wp4 wp_rest wi0 wi1 wi2 wi3 wi4 wi_rest,
    arg_weights_param a = wp0 :: wp1 :: wp2 :: wp3 :: wp4 :: wp_rest
    /\ arg_weights_ik a = wi0 :: wi1 :: wi2 :: wi3 :: wi4 :: wi_rest.
Proof.
  unfold init_weight_lists. intros E.
  destruct (arg_weights_param a) as [|wp0 [|wp1 [|wp2 [|wp3 [|wp4 wp_rest]]]]];
    destruct (arg_weights_ik a) as [|wi0 [|wi1 [|wi2 [|wi3 [|wi4 wi_rest]]]]];
    try discriminate.
  exists wp0, wp1, wp2, wp3, wp4, wp_rest, wi0, wi1, wi2, wi3, wi4, wi_rest.
  split; reflexivity.
Qed.

Lemma penalty_table_markers_targets `{Biorbd} (self : KinematicChainCalibration)
    (vect_pos_markers : vec) (table_markers : matrix) (table : vec * vec) :
  penalty_table_markers self vect_pos_markers table_markers = Ok table ->
  length table_markers = 3%nat ->
  length (snd table) = 5%nat.
Proof.
  unfold penalty_table_markers. intros E Hrows.
  apply bind_Ok_inv in E as (i0 & _ & E).
  apply bind_Ok_inv in E as (table_xp & Hxp & E).
  apply bind_Ok_inv in E as (i1 & _ & E).
  apply bind_Ok_inv in E as (table_xp6 & Hxp6 & E).
  apply Ok_inj in E. subst table. cbn [snd].
  apply mapM_length in Hxp, Hxp6. rewrite length_app, Hxp, Hxp6, length_firstn, Hrows.
  reflexivity.
Qed.

Section Blocks.

Context `{Biorbd} `{Jacobians} `{Random}.

(** C4, amended.  Take an object the constructor has built from a
    configuration that agrees with the blocks: two closed-loop markers, as
    many tracked markers outside the closed loop as the open-loop block has
    markers, and an initial guess with one row per coordinate of the candidate
    beyond the parameters.  Take a candidate pose at which the penalties
    evaluate, with a three-row table target and marker blocks whose two sides
    have the same length.  Then the residual handed to the solver is the five
    blocks [closed loop, open loop, continuity, pivot, rotation] in that
    order, each element scaled by the weight of its block, and [ik_jacobian]
    is the concatenation, in the same order, of the Jacobians of the blocks,
    each scaled by the same weight.  The weights are [weights_param] under
    the least-squares backend and [weights_ik] under ipopt; the pivot block
    has the weight of index 2 and the continuity block that of index 3. *)
Theorem ik_residual_and_jacobian_blocks
    (a : init_arguments) (g g' : rng) (self : KinematicChainCalibration)
    (x : vec) (p : option vec) (table_markers thorax_markers : matrix) (q_init new_x : vec)
    (table thorax q_continuity pivot : vec * vec)
    (weights : vec) (w0 w1 w2 w3 w4 : R) (w_rest : vec) :
  __init__ a g = (Ok self, g') ->
  length (arg_closed_loop_markers a) = 2%nat ->
  (length (filter (fun i => negb (py_in i (arg_closed_loop_markers a))) (arg_tracked_markers a))
   * 3)%nat = length (fst thorax) ->
  (length (arg_q_ik_initial_guess a) - length (arg_parameter_dofs a))%nat = length x ->
  full_pose self x p = Ok new_x ->
  penalty_table_markers self (flatten_markers (biorbd_markers new_x)) table_markers = Ok table ->
  penalty_open_loop_markers self (flatten_markers (biorbd_markers new_x)) thorax_markers
  = Ok thorax ->
  penalty_q_open_loop x q_init = Ok q_continuity ->
  theta_pivot_penalty new_x = Ok pivot ->
  length table_markers = 3%nat ->
  length (fst table) = length (snd table) ->
  length (fst thorax) = length (snd thorax) ->
  (ik_solver self = "leastsquare" /\ weights = weights_param self)
  \/ (ik_solver self = "ipopt" /\ weights = weights_ik self) ->
  weights = w0 :: w1 :: w2 :: w3 :: w4 :: w_rest ->
  objective_ik_list self x p table_markers thorax_markers q_init
  = Ok (Some (weighted_block w0 table ++ weighted_block w1 thorax
                ++ weighted_block w3 q_continuity ++ weighted_block w2 pivot
                ++ weighted_block w4 (penalty_rotation_matrix new_x)))
  /\ ik_jacobian self x weights
     = concatenate
         [ mscale w0 (marker_jacobian_table x (table_markers_idx self) (q_parameter_index self));
           mscale w1 (marker_jacobian_model x (model_markers_idx self) (q_parameter_index self));
           mscale w3 (jacobian_q_continuity x (q_parameter_index self));
           mscale w2 (marker_jacobian_theta x (q_parameter_index self));
           mscale w4 (rotation_matrix_jacobian x (segment_id_with_vertical_z self)
                                               (q_parameter_index self)) ]
  /\ (forall jacobian,
         ik_jacobian self x weights = Ok jacobian ->
         jacobian
         = mscale w0 (marker_jacobian_table x (table_markers_idx self) (q_parameter_index self))
             ++ mscale w1 (marker_jacobian_model x (model_markers_idx self) (q_parameter_index self))
             ++ mscale w3 (jacobian_q_continuity x (q_parameter_index self))
             ++ mscale w2 (marker_jacobian_theta x (q_parameter_index self))
             ++ mscale w4 (rotation_matrix_jacobian x (segment_id_with_vertical_z self)
                                                    (q_parameter_index self))).
Proof.
  intros Hinit Hclosed Hopen Hdofs Hpose Htable Hthorax Hcont Hpivot Hrows Hlt Hlo Hsolver
         Hweights.
  destruct (init_Ok a g g' self Hinit)
    as (n & np & wl & _ & _ & _ & _ & _ & _ & Hwl & Hwp & Hwi & _).
  destruct (init_Ok_weights a g g' self Hinit) as (Ewp & Ewi & _).
  destruct (init_weight_lists_Ok a wl Hwl)
    as (wp0 & wp1 & wp2 & wp3 & wp4 & wp_rest & wi0 & wi1 & wi2 & wi3 & wi4 & wi_rest
        & Eap & Eai).
  pose proof (init_weight_lists_layout a wp0 wp1 wp2 wp3 wp4 wp_rest wi0 wi1 wi2 wi3 wi4 wi_rest
                Eap Eai) as Hlayout.
  cbv zeta in Hlayout. rewrite Hwl in Hlayout. apply Ok_inj in Hlayout.
  pose proof (penalty_table_markers_targets self _ _ _ Htable Hrows) as Hfive.
  assert (Hnb : (length (arg_closed_loop_markers a) * 3 - 1)%nat = length (fst table))
    by (rewrite Hclosed, Hlt, Hfive; reflexivity).
  rewrite Hnb, Hopen, Hdofs in Hlayout.
  destruct Hsolver as [[Hs Hw]|[Hs Hw]].
  - apply (ik_residual_of_weight_layout self x p table_markers thorax_markers q_init new_x
             table thorax q_continuity pivot weights (weight_list_param self)
             w0 w1 w2 w3 w4 w_rest Hpose Htable Hthorax Hcont Hpivot Hlt Hlo
             (or_introl (conj Hs (conj Hw eq_refl))) Hweights).
    rewrite Hwp, Hlayout. cbn [fst].
    assert (E : wp0 :: wp1 :: wp2 :: wp3 :: wp4 :: wp_rest
                = w0 :: w1 :: w2 :: w3 :: w4 :: w_rest) by congruence.
    injection E as -> -> -> -> -> _. reflexivity.
  - apply (ik_residual_of_weight_layout self x p table_markers thorax_markers q_init new_x
             table thorax q_continuity pivot weights (weight_list_ik self)
             w0 w1 w2 w3 w4 w_rest Hpose Htable Hthorax Hcont Hpivot Hlt Hlo
             (or_intror (conj Hs (conj Hw eq_refl))) Hweights).
    rewrite Hwi, Hlayout. cbn [snd].
    assert (E : wi0 :: wi1 :: wi2 :: wi3 :: wi4 :: wi_rest
                = w0 :: w1 :: w2 :: w3 :: w4 :: w_rest) by congruence.
    injection E as -> -> -> -> -> _. reflexivity.
Qed.

End Blocks.

(** On the small model built with the weights [2, 3, 4, 5, 6], the three
    coordinates of the body marker are scaled by 3, the two continuity terms by
    5, the pivot term by 4 and the five rotation terms by 6. *)
Lemma ik_residual_and_jacobian_blocks_witness :
  exists k,
    @__init__ Toy.biorbd Toy.random Weighted.arguments 0%nat = (Ok k, 1%nat)
    /\ @objective_ik_list Toy.biorbd k [0; 0] (Some []) [[0; 1]; [0; 0]; [0; 0]]
         [[1]; [0]; [0]] [0; 0]
       = Ok (Some (weighted_block 2 ([0; 0; 0; 1; 0], [0; 0; 0; 1; 0])
                     ++ weighted_block 3 ([0; 0; 0], [1; 0; 0])
                     ++ weighted_block 5 ([0; 0], [0; 0])
                     ++ weighted_block 4 ([0], [0])
                     ++ weighted_block 6 (@penalty_rotation_matrix Toy.biorbd [0; 0])))
    /\ @ik_jacobian Toy.jacobians k [0; 0] [2; 3; 4; 5; 6]
       = Ok (mscale 2 [[0; 0]; [0; 0]; [0; 0]; [0; 0]; [0; 0]]
               ++ mscale 3 [[1; 0]; [0; 0]; [0; 0]]
               ++ mscale 5 [[1; 0]; [0; 1]]
               ++ mscale 4 [[0; 0]]
               ++ mscale 6 [[0; 0]; [0; 0]; [0; 0]; [0; 0]; [0; 0]]).
Proof.
  eexists. split; [reflexivity|].
  pose proof (@ik_residual_and_jacobian_blocks Toy.biorbd Toy.jacobians Toy.random
                Weighted.arguments 0%nat 1%nat _
                [0; 0] (Some []) [[0; 1]; [0; 0]; [0; 0]] [[1]; [0]; [0]] [0; 0] [0; 0]
                ([0; 0; 0; 1; 0], [0; 0; 0; 1; 0]) ([0; 0; 0], [1; 0; 0])
                ([0; 0], [0; 0]) ([0], [0])
                [2; 3; 4; 5; 6] 2 3 4 5 6 []
                eq_refl eq_refl eq_refl eq_refl eq_refl eq_refl eq_refl eq_refl
                (theta_pivot_penalty_below [] 0 0 ltac:(lra))
                eq_refl eq_refl eq_refl
                (or_introl (conj eq_refl eq_refl))
                eq_refl) as (Hres & Hjac & _).
  split; [exact Hres|]. rewrite Hjac. reflexivity.
Defined.

(** C4, as the specification has it, fails on an object the constructor
    accepts.  With [M0] listed as a third closed-loop marker and weights
    [2, 3, 4, 5, 6], the constructor lays out eight closed-loop weights, no
    open-loop weight and two continuity weights, sixteen in all, as many as
    the residual has components: the three coordinates of the body marker, the
    open-loop block, are scaled by 2, the weight of the closed loop, and not by
    3, the weight of their block. *)
Lemma ik_residual_scaled_by_another_block :
  exists k,
    @__init__ Toy.biorbd Toy.random Weighted.three_closed_loop_markers 0%nat = (Ok k, 1%nat)
    /\ @penalty_table_markers k (@flatten_markers (@biorbd_markers Toy.biorbd [0; 0]))
         [[0; 1]; [0; 0]; [0; 0]]
       = Ok ([0; 0; 0; 1; 0], [0; 0; 0; 1; 0])
    /\ @penalty_open_loop_markers k (@flatten_markers (@biorbd_markers Toy.biorbd [0; 0]))
         [[1]; [0]; [0]]
       = Ok ([0; 0; 0], [1; 0; 0])
    /\ @objective_ik_list Toy.biorbd k [0; 0] (Some []) [[0; 1]; [0; 0]; [0; 0]]
         [[1]; [0]; [0]] [0; 0]
       = Ok (Some [(0 - 0) * 2; (0 - 0) * 2; (0 - 0) * 2; (1 - 1) * 2; (0 - 0) * 2;
                   (0 - 1) * 2; (0 - 0) * 2; (0 - 0) * 2;
                   (0 - 0) * 5; (0 - 0) * 5;
                   (0 - 0) * 4;
                   (0 - 0) * 6; (0 - 0) * 6; (0 - 0) * 6; (0 - 0) * 6; (1 - 1 - 0) * 6])
    /\ @objective_ik_list Toy.biorbd k [0; 0] (Some []) [[0; 1]; [0; 0]; [0; 0]]
         [[1]; [0]; [0]] [0; 0]
       <> Ok (Some (weighted_block 2 ([0; 0; 0; 1; 0], [0; 0; 0; 1; 0])
                      ++ weighted_block 3 ([0; 0; 0], [1; 0; 0])
                      ++ weighted_block 5 ([0; 0], [0; 0])
                      ++ weighted_block 4 ([0], [0])
                      ++ weighted_block 6 (@penalty_rotation_matrix Toy.biorbd [0; 0]))).
Proof.
  eexists. split; [reflexivity|].
  match goal with
  | |- penalty_table_markers ?k _ _ = _ /\ _ => set (K := k)
  end.
  split; [reflexivity|]. split; [reflexivity|].
  assert (E : @objective_ik_list Toy.biorbd K [0; 0] (Some []) [[0; 1]; [0; 0]; [0; 0]]
                [[1]; [0]; [0]] [0; 0]
              = Ok (Some [(0 - 0) * 2; (0 - 0) * 2; (0 - 0) * 2; (1 - 1) * 2; (0 - 0) * 2;
                          (0 - 1) * 2; (0 - 0) * 2; (0 - 0) * 2;
                          (0 - 0) * 5; (0 - 0) * 5;
                          (0 - 0) * 4;
                          (0 - 0) * 6; (0 - 0) * 6; (0 - 0) * 6; (0 - 0) * 6;
                          (1 - 1 - 0) * 6])).
  { unfold objective_ik_list, K. cbn -[theta_pivot_penalty].
    rewrite (theta_pivot_penalty_below [] 0 0 ltac:(lra) : theta_pivot_penalty [0; 0] = _).
    reflexivity. }
  split; [exact E|].
  rewrite E. intros Eq.
  apply (f_equal (fun r => match r with Ok (Some l) => nth 5 l 0 | _ => 0 end)) in Eq.
  cbn in Eq. lra.
Qed.
